(** * nabot: handler chain, state stack machine and data storage

    A shallow embedding of the Go package [github.com/bale-ir/nabot]
    (files [handler.go], [nabot.go], [state.go] and the data storage file)
    and of its package [handlers], together with the properties its
    design document states about it and further properties of the code.

    Conventions of the embedding:
    - a Go [string] is a [string] (a sequence of bytes), a [[]byte] is a
      [list byte];
    - a Go [error] is an [option error], [None] being [nil];
    - a Go slice is an [option (list A)], [None] being the [nil] slice;
    - a nilable interface value is an [option];
    - a [sync.Map] or [map] is a [gmap];
    - a panic is the outcome [Panic]. *)

From Stdlib Require Import ZArith NArith Lia List Bool.
From Stdlib Require Import Strings.String Strings.Ascii Strings.Byte.
From Stdlib Require DecimalString DecimalZ.
From stdpp Require Import base option list strings gmap.

Local Open Scope string_scope.
Local Open Scope list_scope.

(** ** Go values shared by all files *)

Module Go.

(** The outcome of a call that may panic; a panic carries its message, as
    a format with the arguments to fill in. *)
Inductive outcome (A : Type) : Type :=
| Ok (a : A)
| Panic (msg : string) (args : list string).
Arguments Ok {A} a.
Arguments Panic {A} msg args.

(** Error values.  The three sentinels are the package-level variables made
    with [errors.New]; [errorString] is any other error without a wrapped
    cause ([errors.New], or [fmt.Errorf] without [%w]); [wrapError] is
    [fmt.Errorf(prefix + "%w", err)]. *)
Inductive error : Type :=
| ErrPass
| ErrStateNotFound
| ErrDataKeyNotFound
| errorString (msg : string)
| wrapError (prefix : string) (err : error).

(** Identity of error values as [==] sees it on the sentinels: a sentinel
    is equal to itself only. *)
Definition is_sentinel (e target : error) : bool :=
  match e, target with
  | ErrPass, ErrPass => true
  | ErrStateNotFound, ErrStateNotFound => true
  | ErrDataKeyNotFound, ErrDataKeyNotFound => true
  | _, _ => false
  end.

(** [errors.Is] on a non-nil error: compare, then unwrap. *)
Fixpoint Is_chain (e target : error) : bool :=
  is_sentinel e target ||
  match e with
  | wrapError _ e' => Is_chain e' target
  | _ => false
  end.

(** [errors.Is(err, target)] for a sentinel [target]; [nil] is no error. *)
Definition errors_Is (err : option error) (target : error) : bool :=
  match err with
  | None => false
  | Some e => Is_chain e target
  end.

(** [slog] levels and records, as far as the package uses them. *)
Inductive Level : Type := LevelInfo | LevelWarn | LevelError.

Inductive AttrValue : Type :=
| AttrString (s : string)
| AttrError (e : error)
| AttrJSONError.             (* the error [json.Unmarshal] returned *)

(** A [*slog.Logger] is the attributes added with [With]. *)
Definition Logger : Type := list (string * AttrValue).

Definition With (l : Logger) (k : string) (v : AttrValue) : Logger :=
  l ++ [(k, v)].

Record LogRecord : Type := mkLog {
  log_level : Level;
  log_msg : string;
  log_attrs : list (string * AttrValue)
}.

(** Length and elements of a slice; a [nil] slice has none. *)
Definition elems {A} (s : option (list A)) : list A :=
  match s with
  | None => []
  | Some l => l
  end.

Definition len {A} (s : option (list A)) : nat := List.length (elems s).

End Go.
Import Go.

(** ** encoding/json and unicode/utf8, as far as the package uses them

    [state.go] calls [json.Marshal] on a [*[]string] and [json.Unmarshal]
    into a [*[]string].  The two calls are modelled on bytes, for this one
    type. *)

Module Json.

Definition code (b : byte) : N := Byte.to_N b.

(** The byte of a number below 256. *)
Definition of_code (n : N) : byte :=
  match Byte.of_N n with
  | Some b => b
  | None => x00
  end.

Definition between (lo hi n : N) : bool := (lo <=? n)%N && (n <=? hi)%N.

(** *** unicode/utf8 *)

Definition RuneError : N := 0xFFFD.
Definition MaxRune : N := 0x10FFFF.

(** The table [first] with [acceptRanges]: for a leading byte, the length
    of the sequence and the range the second byte must lie in. *)
Definition leading (c0 : N) : option (nat * N * N) :=
  if between 0xC2 0xDF c0 then Some (2, 0x80%N, 0xBF%N)
  else if (c0 =? 0xE0)%N then Some (3, 0xA0%N, 0xBF%N)
  else if between 0xE1 0xEC c0 then Some (3, 0x80%N, 0xBF%N)
  else if (c0 =? 0xED)%N then Some (3, 0x80%N, 0x9F%N)
  else if between 0xEE 0xEF c0 then Some (3, 0x80%N, 0xBF%N)
  else if (c0 =? 0xF0)%N then Some (4, 0x90%N, 0xBF%N)
  else if between 0xF1 0xF3 c0 then Some (4, 0x80%N, 0xBF%N)
  else if (c0 =? 0xF4)%N then Some (4, 0x80%N, 0x8F%N)
  else None.

Definition low6 (b : byte) : N := N.land (code b) 0x3F.

(** [utf8.DecodeRune]: the rune and its width in bytes. *)
Definition DecodeRune (p : list byte) : N * nat :=
  match p with
  | [] => (RuneError, 0)
  | p0 :: p' =>
      if (code p0 <? 0x80)%N then (code p0, 1)
      else
        match leading (code p0) with
        | None => (RuneError, 1)
        | Some (sz, lo, hi) =>
            if (List.length p <? sz)%nat then (RuneError, 1)
            else
              match p' with
              | [] => (RuneError, 1)
              | b1 :: p'' =>
                  if negb (between lo hi (code b1)) then (RuneError, 1)
                  else if (sz <=? 2)%nat
                  then (N.lor (N.shiftl (N.land (code p0) 0x1F) 6) (low6 b1), 2)
                  else
                    match p'' with
                    | [] => (RuneError, 1)
                    | b2 :: p''' =>
                        if negb (between 0x80 0xBF (code b2))
                        then (RuneError, 1)
                        else if (sz <=? 3)%nat
                        then (N.lor (N.shiftl (N.land (code p0) 0x0F) 12)
                                (N.lor (N.shiftl (low6 b1) 6) (low6 b2)), 3)
                        else
                          match p''' with
                          | [] => (RuneError, 1)
                          | b3 :: _ =>
                              if negb (between 0x80 0xBF (code b3))
                              then (RuneError, 1)
                              else
                                (N.lor (N.shiftl (N.land (code p0) 0x07) 18)
                                   (N.lor (N.shiftl (low6 b1) 12)
                                      (N.lor (N.shiftl (low6 b2) 6) (low6 b3))),
                                 4)
                          end
                    end
              end
        end
  end.

(** [utf8.Valid]: every rune decodes, none as the error of width one. *)
Fixpoint validLoop (rounds : nat) (p : list byte) : bool :=
  match p with
  | [] => true
  | _ :: _ =>
      match rounds with
      | 0 => false
      | S rounds' =>
          let '(r, size) := DecodeRune p in
          if (r =? RuneError)%N && (size =? 1)%nat then false
          else validLoop rounds' (drop size p)
      end
  end.

Definition Valid (p : list byte) : bool := validLoop (List.length p) p.

(** [utf8.ValidString]. *)
Definition ValidString (s : string) : bool := Valid (list_byte_of_string s).

Definition tx (n : N) : byte := of_code (N.lor 0x80 (N.land n 0x3F)).

Definition encode3 (r : N) : list byte :=
  [of_code (N.lor 0xE0 (N.shiftr r 12)); tx (N.shiftr r 6); tx r].

(** [utf8.AppendRune] on an empty buffer. *)
Definition EncodeRune (r : N) : list byte :=
  if (r <=? 0x7F)%N then [of_code r]
  else if (r <=? 0x7FF)%N then [of_code (N.lor 0xC0 (N.shiftr r 6)); tx r]
  else if (MaxRune <? r)%N || between 0xD800 0xDFFF r then encode3 RuneError
  else if (r <=? 0xFFFF)%N then encode3 r
  else [of_code (N.lor 0xF0 (N.shiftr r 18)); tx (N.shiftr r 12);
        tx (N.shiftr r 6); tx r].

(** *** Marshal *)

Definition quote : byte := x22.
Definition backslash : byte := x5c.

(** ["0123456789abcdef"[n]] *)
Definition hex (n : N) : byte :=
  if (n <? 10)%N then of_code (0x30 + n) else of_code (0x61 + (n - 10)).

(** [htmlSafeSet]: the ASCII bytes written as they are. *)
Definition htmlSafe (c : N) : bool :=
  between 0x20 0x7F c
  && negb ((c =? 0x22) || (c =? 0x26) || (c =? 0x3C) || (c =? 0x3E)
           || (c =? 0x5C))%N.

(** What [appendString] writes for an ASCII byte that is not safe (with
    the short escapes for backspace and form feed of Go 1.22 and later;
    earlier versions write them as [\u0008] and [\u000c], which
    [Unmarshal] reads the same). *)
Definition escapeByte (b : byte) : list byte :=
  let c := code b in
  if ((c =? 0x5C) || (c =? 0x22))%N then [backslash; b]
  else if (c =? 0x08)%N then [backslash; x62]
  else if (c =? 0x0C)%N then [backslash; x66]
  else if (c =? 0x0A)%N then [backslash; x6e]
  else if (c =? 0x0D)%N then [backslash; x72]
  else if (c =? 0x09)%N then [backslash; x74]
  else [backslash; x75; x30; x30; hex (N.shiftr c 4); hex (N.land c 0xF)].

(** One round of the loop of [appendString] on the rest [src] of the
    string: the bytes it contributes to the output and the number of bytes
    of [src] it moves over.  (The Go loop copies the bytes written as they
    are in runs, from [start] to [i]; the output is the same.) *)
Definition appendStep (src : list byte) : list byte * nat :=
  match src with
  | [] => ([], 0)
  | b :: _ =>
      if (code b <? 0x80)%N then
        if htmlSafe (code b) then ([b], 1) else (escapeByte b, 1)
      else
        let '(c, size) := DecodeRune (take 4 src) in
        if (c =? RuneError)%N && (size =? 1)%nat
        then ([backslash; x75; x66; x66; x66; x64], 1)
        else if ((c =? 0x2028) || (c =? 0x2029))%N
        then ([backslash; x75; x32; x30; x32; hex (N.land c 0xF)], size)
        else (take size src, size)
  end.

(** The loop of [appendString]; every round moves over at least one byte,
    so [List.length src] rounds are enough. *)
Fixpoint appendLoop (rounds : nat) (src : list byte) : list byte :=
  match rounds with
  | 0 => []
  | S rounds' =>
      match src with
      | [] => []
      | _ :: _ =>
          let '(out, n) := appendStep src in
          out ++ appendLoop rounds' (drop n src)
      end
  end.

(** [appendString(dst, src, escapeHTML = true)] on an empty [dst]. *)
Definition appendString (src : list byte) : list byte :=
  [quote] ++ appendLoop (List.length src) src ++ [quote].

Fixpoint joinComma (parts : list (list byte)) : list byte :=
  match parts with
  | [] => []
  | [p] => p
  | p :: ps => p ++ [x2c] ++ joinComma ps
  end.

(** [json.Marshal(&states)] for [states []string].  The slice of
    [setStack] is [nil] exactly when it has no element (it is only ever
    appended to), and a [nil] slice is written [null]. *)
Definition Marshal (states : list string) : list byte :=
  match states with
  | [] => [x6e; x75; x6c; x6c]
  | _ :: _ =>
      [x5b]
      ++ joinComma (map (fun s => appendString (list_byte_of_string s)) states)
      ++ [x5d]
  end.

(** *** Unmarshal *)

Definition isSpace (b : byte) : bool :=
  let c := code b in
  ((c =? 0x20) || (c =? 0x09) || (c =? 0x0D) || (c =? 0x0A))%N.

Fixpoint skipSpace (s : list byte) : list byte :=
  match s with
  | b :: s' => if isSpace b then skipSpace s' else s
  | [] => []
  end.

Definition hexValue (b : byte) : option N :=
  let c := code b in
  if between 0x30 0x39 c then Some (c - 0x30)%N
  else if between 0x61 0x66 c then Some (c - 0x61 + 10)%N
  else if between 0x41 0x46 c then Some (c - 0x41 + 10)%N
  else None.

(** [getu4]: the rune of a leading [\uXXXX], if there is one. *)
Definition getu4 (s : list byte) : option N :=
  match s with
  | b0 :: b1 :: h1 :: h2 :: h3 :: h4 :: _ =>
      if ((code b0 =? 0x5C) && (code b1 =? 0x75))%N then
        match hexValue h1, hexValue h2, hexValue h3, hexValue h4 with
        | Some v1, Some v2, Some v3, Some v4 =>
            Some (((v1 * 16 + v2) * 16 + v3) * 16 + v4)%N
        | _, _, _, _ => None
        end
      else None
  | _ => None
  end.

(** [utf16.DecodeRune] on a surrogate [r1] and what [getu4] found next. *)
Definition decodeSurrogates (r1 : N) (next : option N) : N :=
  match next with
  | Some r2 =>
      if between 0xD800 0xDBFF r1 && between 0xDC00 0xDFFF r2
      then (N.lor (N.shiftl (r1 - 0xD800) 10) (r2 - 0xDC00) + 0x10000)%N
      else RuneError
  | None => RuneError
  end.

(** One step through the inside of a string literal. *)
Inductive step : Type :=
| Closing                           (* the closing quote *)
| Bytes (out : list byte) (n : nat) (* [n] bytes read, [out] decoded *)
| Invalid.                          (* not the inside of a string literal *)

(** The scanner ([stateInString], [stateInStringEsc] and the four
    [stateInStringEscU] states) and [unquoteBytes], taken together one
    character or escape at a time. *)
Definition unquoteStep (s : list byte) : step :=
  match s with
  | [] => Invalid
  | b :: s' =>
      let c := code b in
      if (c =? 0x22)%N then Closing
      else if (c =? 0x5C)%N then
        match s' with
        | [] => Invalid
        | e :: _ =>
            let ce := code e in
            if ((ce =? 0x22) || (ce =? 0x5C) || (ce =? 0x2F))%N
            then Bytes [e] 2
            else if (ce =? 0x62)%N then Bytes [x08] 2
            else if (ce =? 0x66)%N then Bytes [x0c] 2
            else if (ce =? 0x6E)%N then Bytes [x0a] 2
            else if (ce =? 0x72)%N then Bytes [x0d] 2
            else if (ce =? 0x74)%N then Bytes [x09] 2
            else if (ce =? 0x75)%N then
              match getu4 s with
              | None => Invalid
              | Some rr =>
                  if between 0xD800 0xDFFF rr then
                    let dec := decodeSurrogates rr (getu4 (drop 6 s)) in
                    if (dec =? RuneError)%N
                    then Bytes (EncodeRune RuneError) 6
                    else Bytes (EncodeRune dec) 12
                  else Bytes (EncodeRune rr) 6
              end
            else Invalid
        end
      else if (c <? 0x20)%N then Invalid
      else if (c <? 0x80)%N then Bytes [b] 1
      else
        let '(rr, size) := DecodeRune s in
        Bytes (EncodeRune rr) size
  end.

(** The inside of a string literal, from after the opening quote: the
    string it denotes and what follows the closing quote. *)
Fixpoint unquoteLoop (rounds : nat) (s : list byte)
    : option (list byte * list byte) :=
  match rounds with
  | 0 => None
  | S rounds' =>
      match unquoteStep s with
      | Invalid => None
      | Closing => Some ([], drop 1 s)
      | Bytes out n =>
          match unquoteLoop rounds' (drop n s) with
          | None => None
          | Some (t, rest) => Some (out ++ t, rest)
          end
      end
  end.

(** An element of the array, for the element type [string]: a string
    literal, or [null], which leaves the element the empty string.  Any
    other JSON value is either not well formed or not a string, and
    [Unmarshal] returns an error for both. *)
Definition element (s : list byte) : option (string * list byte) :=
  match s with
  | x22 :: s' =>
      match unquoteLoop (List.length s') s' with
      | Some (t, rest) => Some (string_of_list_byte t, rest)
      | None => None
      end
  | x6e :: x75 :: x6c :: x6c :: rest => Some ("", rest)
  | _ => None
  end.

(** The elements of an array, from the first one to the end of input. *)
Fixpoint elements (rounds : nat) (s : list byte) : option (list string) :=
  match rounds with
  | 0 => None
  | S rounds' =>
      match element s with
      | None => None
      | Some (v, rest) =>
          match skipSpace rest with
          | x2c :: rest' =>
              match elements rounds' (skipSpace rest') with
              | Some vs => Some (v :: vs)
              | None => None
              end
          | x5d :: rest' =>
              match skipSpace rest' with
              | [] => Some [v]
              | _ :: _ => None
              end
          | _ => None
          end
      end
  end.

(** [json.Unmarshal(data, &states)] for [var states []string]: [None]
    when it returns an error (a syntax error or a value that is not an
    array of strings), else the elements of [states]. *)
Definition Unmarshal (data : list byte) : option (list string) :=
  match skipSpace data with
  | x6e :: x75 :: x6c :: x6c :: rest =>
      match skipSpace rest with
      | [] => Some []
      | _ :: _ => None
      end
  | x5b :: rest =>
      match skipSpace rest with
      | x5d :: rest' =>
          match skipSpace rest' with
          | [] => Some []
          | _ :: _ => None
          end
      | s => elements (List.length s) s
      end
  | _ => None
  end.

(** The string literal [Marshal] writes for a string. *)
Definition literal (str : string) : list byte :=
  appendString (list_byte_of_string str).

(** *** All bytes, for the facts checked byte by byte *)

Definition allBytes : list byte := map (fun n => of_code (N.of_nat n)) (seq 0 256).

Definition bytesWhere (f : byte -> bool) : list byte := List.filter f allBytes.

Definition isContinuation (b : byte) : bool := between 0x80 0xBF (code b).

(** The width the leading byte announces. *)
Definition width (b : byte) : nat :=
  match leading (code b) with
  | Some (sz, _, _) => sz
  | None => 1
  end.

Fixpoint eqBytes (p q : list byte) : bool :=
  match p, q with
  | [], [] => true
  | b :: p', c :: q' => (code b =? code c)%N && eqBytes p' q'
  | _, _ => false
  end.

(** The second byte lies in the range its leading byte accepts. *)
Definition secondInRange (b0 b1 : byte) : bool :=
  match leading (code b0) with
  | Some (_, lo, hi) => between lo hi (code b1)
  | None => false
  end.

(** A sequence of two bytes that decodes as one rune is the encoding of
    that rune. *)
Definition twoRoundTrip (b0 b1 : byte) : bool :=
  let '(r, size) := DecodeRune [b0; b1] in
  negb (size =? 2)%nat || eqBytes (EncodeRune r) [b0; b1].

(** The bits that all but the last byte of a sequence of three or four
    bytes give to the rune. *)
Definition head3 (b0 b1 : byte) : N :=
  N.lor (N.shiftl (N.land (code b0) 0x0F) 12) (N.shiftl (low6 b1) 6).

Definition head4 (b0 b1 b2 : byte) : N :=
  N.lor (N.shiftl (N.land (code b0) 0x07) 18)
        (N.lor (N.shiftl (low6 b1) 12) (N.shiftl (low6 b2) 6)).

(** For a second byte in range: the six low bits of the head are free,
    the runes above the head are encoded on three bytes and are no
    surrogates, and the head gives the first two bytes back. *)
Definition head3OK (b0 b1 : byte) : bool :=
  negb (secondInRange b0 b1)
  || (let h := head3 b0 b1 in
      (N.land h 0x3F =? 0)%N
      && (0x800 <=? h)%N
      && ((h + 63 <? 0xD800) || (0xE000 <=? h))%N
      && (h + 63 <=? 0xFFFF)%N
      && eqBytes [of_code (N.lor 0xE0 (N.shiftr h 12)); tx (N.shiftr h 6)]
                 [b0; b1]).

(** The same for four bytes and the first three. *)
Definition head4OK (b0 b1 b2 : byte) : bool :=
  negb (secondInRange b0 b1)
  || (let h := head4 b0 b1 b2 in
      (N.land h 0x3F =? 0)%N
      && (0x10000 <=? h)%N
      && (h + 63 <=? MaxRune)%N
      && eqBytes [of_code (N.lor 0xF0 (N.shiftr h 18)); tx (N.shiftr h 12);
                  tx (N.shiftr h 6)]
                 [b0; b1; b2]).

(** The bytes that may follow a leading byte. *)
Definition continuationBytes : list byte := bytesWhere isContinuation.

(** The leading bytes of a width. *)
Definition leadingBytes (n : nat) : list byte :=
  bytesWhere (fun b => width b =? n)%nat.

(** Comparisons that hold, as propositions. *)
Ltac unbool :=
  repeat match goal with
         | H : (_ && _) = true |- _ => apply andb_true_iff in H as [? ?]
         | H : (_ || _) = false |- _ => apply orb_false_iff in H as [? ?]
         | H : negb _ = true |- _ => apply negb_true_iff in H
         | H : negb _ = false |- _ => apply negb_false_iff in H
         | H : (_ <=? _)%N = true |- _ => apply N.leb_le in H
         | H : (_ <=? _)%N = false |- _ => apply N.leb_gt in H
         | H : (_ <? _)%N = true |- _ => apply N.ltb_lt in H
         | H : (_ <? _)%N = false |- _ => apply N.ltb_ge in H
         | H : (_ =? _)%N = true |- _ => apply N.eqb_eq in H
         | H : (_ =? _)%N = false |- _ => apply N.eqb_neq in H
         end.

End Json.

(** ** handler.go and nabot.go: contexts, handlers, dispatch *)

(** [telego.Update] and [telego.ChatID] belong to the transport and stay
    opaque, with the two functions the package applies to them:
    [GetTypeOfUpdate] and [ChatID.String]. *)
Class Transport : Type := {
  Update : Type;
  ChatID : Type;
  GetTypeOfUpdate : Update -> string;
  ChatID_String : ChatID -> string
}.

Module Handler.
Section Handlers.
Context `{Transport}.

(** [nativeContext], with the logger override of [wrappedLogger] folded
    into the [logger] field.  The same record stands for the interface
    [TransitionContext], which [Context] extends.  The [DataStorage]
    handle of the context is a pointer; what it points to is part of
    the world the callbacks act on. *)
Record Context : Type := mkContext {
  update : Update;
  chatKey : string;
  chatID : ChatID;
  logger : Logger
}.

(** [ContextWithLogger]: a new context, the given one is not changed. *)
Definition ContextWithLogger (ctx : Context) (l : Logger) : Context :=
  {| update := update ctx; chatKey := chatKey ctx;
     chatID := chatID ctx; logger := l |}.

(** The [Handler] interface, over the world [W] its [Handle] acts on. *)
Record Handler (W : Type) : Type := mkHandler {
  Name : string;
  Handle : Context -> W -> option error * W
}.

End Handlers.
Arguments mkHandler {_ W} _ _.
Arguments Name {_ W} _.
Arguments Handle {_ W} _ _ _.
End Handler.
Import Handler.

Module App.
Section Dispatch.

(** [W] is the world a handler acts on. *)
Context `{Transport} {W : Type}.

Record App : Type := mkApp {
  handlers : list (Handler W);
  app_logger : Logger;
  extractChatInfo : Update -> option (string * ChatID)
}.

(** [App.Handle]: register a handler at the end of the chain. *)
Definition App_Handle (a : App) (h : Handler W) : App :=
  {| handlers := handlers a ++ [h]; app_logger := app_logger a;
     extractChatInfo := extractChatInfo a |}.

(** [App.newContext]. *)
Definition newContext (a : App) (u : Update) : option Context :=
  match extractChatInfo a u with
  | None => None
  | Some (key, id) =>
      Some {| update := u; chatKey := key; chatID := id;
              logger := With (app_logger a) "chat"
                             (AttrString (ChatID_String id)) |}
  end.

(** The context a handler of the chain is called with. *)
Definition handlerContext (a : App) (ctx : Context) (h : Handler W) : Context :=
  ContextWithLogger ctx (With (app_logger a) "handler" (AttrString (Name h))).

(** What the loop of [processUpdate] leaves behind: the variables [err]
    and [handler], the world, and (instrumentation, there is no such
    variable in the Go code) the positions in the chain of the handlers
    that were called, in call order. *)
Record Dispatched : Type := mkDispatched {
  d_err : option error;
  d_handler : option (Handler W);
  d_world : W;
  d_called : list nat
}.

(** The [for _, h := range a.handlers] loop; [i] is the position of the
    head of [hs] in the chain. *)
Fixpoint chainLoop (a : App) (ctx : Context) (hs : list (Handler W)) (i : nat)
    (err : option error) (handler : option (Handler W)) (w : W)
    (called : list nat) : Dispatched :=
  match hs with
  | [] => mkDispatched err handler w called
  | h :: hs' =>
      let '(err', w') := Handle h (handlerContext a ctx h) w in
      if errors_Is err' ErrPass
      then chainLoop a ctx hs' (S i) err' (Some h) w' (called ++ [i])
      else mkDispatched err' (Some h) w' (called ++ [i])
  end.

Definition dispatch (a : App) (ctx : Context) (w : W) : Dispatched :=
  chainLoop a ctx (handlers a) 0 None None w [].

(** What [processUpdate] writes to the log once the loop is over. *)
Definition reportOutcome (a : App) (d : Dispatched) : list LogRecord :=
  match d_err d with
  | None => []
  | Some e =>
      if errors_Is (Some e) ErrPass
      then [mkLog LevelInfo "nabot: update was not handled by any handler"
                  (app_logger a)]
      else
        let handlerName :=
          match d_handler d with
          | None => "<nil>"
          | Some h => Name h
          end in
        [mkLog LevelError "nabot: failed to handle update"
               (With (With (app_logger a) "error" (AttrError e))
                     "handler" (AttrString handlerName))]
  end.

(** [App.processUpdate]: the world after the update, the log records
    written, and the positions of the handlers called. *)
Definition processUpdate (a : App) (u : Update) (w : W)
    : W * list LogRecord * list nat :=
  match newContext a u with
  | None =>
      (w,
       [mkLog LevelWarn "nabot: could not determine context; ignoring update"
              (With (app_logger a) "update_type"
                    (AttrString (GetTypeOfUpdate u)))],
       [])
  | Some ctx =>
      let d := dispatch a ctx w in
      (d_world d, reportOutcome a d, d_called d)
  end.

(** [declining a ctx hs w = Some w'] when the handlers [hs], called one
    after the other from the world [w], all return an error that is
    [ErrPass], and leave the world [w']. *)
Fixpoint declining (a : App) (ctx : Context) (hs : list (Handler W)) (w : W)
    : option W :=
  match hs with
  | [] => Some w
  | h :: hs' =>
      let '(err, w') := Handle h (handlerContext a ctx h) w in
      if errors_Is err ErrPass then declining a ctx hs' w' else None
  end.

(** The record is written at error level. *)
Definition is_error_record (r : LogRecord) : bool :=
  match log_level r with
  | LevelError => true
  | _ => false
  end.

End Dispatch.
End App.

(** ** state.go: the state stack machine *)

Module State.

(** The interface [StateStorage], over the type [Store] of what is stored.
    [GetStack] is a read and returns the pair of Go. *)
Class StateStorage (Store : Type) : Type := {
  GetStack : Store -> string -> list byte * option error;
  SetStack : Store -> string -> list byte -> option error * Store
}.

(** [memoryStateStore]: a [sync.Map] from chat keys to blobs.  Only
    [SetStack] stores into it, so every value is a [[]byte] and the type
    assertion of [GetStack] holds whenever the key is there. *)
Definition memoryStateStore : Type := gmap string (list byte).

(** [NewInMemoryStateStore]. *)
Definition NewInMemoryStateStore : memoryStateStore := ∅.

#[global] Instance memoryStateStorage : StateStorage memoryStateStore := {
  GetStack m chatKey :=
    match m !! chatKey with
    | None => ([], Some ErrStateNotFound)
    | Some val => (val, None)
    end;
  SetStack m chatKey stack := (None, <[chatKey := stack]> m)
}.

Section Machine.

(** [Store] is what the state storage holds, [Env] the world the callbacks
    of the application ([Handle] and [Render] of a state) act on: the data
    storage, the messages sent and all else that is outside the state
    storage.  A callback gets a context, which gives it the bot, the chat
    and the data storage but not the state storage; what a callback would
    do to the state storage by calling [Go] on a transition it holds is not
    part of its model here. *)
Context `{Transport} {Store Env : Type} `{StateStorage Store}.

(** The interface [State]: a [Handler] with [Render]. *)
Record State : Type := mkState {
  handler : Handler Env;
  Render : Context -> Env -> option error * Env
}.

Definition StateName (st : State) : string := Name (handler st).

(** The value types behind the interface [Transition].  The field
    [stateHandler] of both is the pointer to the handler that made the
    transition; [Go] below takes what it points to as an argument. *)
Inductive Transition : Type :=
| toState (state : State)
| back.

(** The interface [ChainableState]: [Next] is a pointer to a
    [Transition] variable, an address in the map of those variables (a
    [gmap nat Transition], from which a variable that holds [nil] is
    absent). *)
Record ChainableState : Type := mkChainable {
  chained : State;
  Next : nat
}.

Record StateHandler : Type := mkStateHandler {
  sh_logger : Logger;                (* [app.logger] *)
  states : gmap string State
}.

(** [NewStateHandler], for the logger of the app.  The storage the
    handler points to is part of the world. *)
Definition NewStateHandler (appLogger : Logger) : StateHandler :=
  {| sh_logger := appLogger; states := ∅ |}.

Record World : Type := mkWorld {
  storage : Store;
  env : Env
}.

(** What a call leaves behind besides its result, in the order of time:
    the log records it wrote and (instrumentation) the calls it made to
    [SetStack] of the storage and to the callbacks of states. *)
Inductive Event : Type :=
| EvLog (r : LogRecord)
| EvSetStack (key : string) (blob : list byte)
| EvRender (st : State)
| EvHandle (st : State).

(** [StateHandler.RegisterState]. *)
Definition RegisterState (s : StateHandler) (state : option State)
    : outcome (StateHandler * Transition) :=
  match state with
  | None => Panic "nabot: cannot register nil state" []
  | Some st =>
      match states s !! StateName st with
      | Some _ =>
          Panic "nabot: a state with name %q already exists" [StateName st]
      | None =>
          Ok ({| sh_logger := sh_logger s;
                 states := <[StateName st := st]> (states s) |},
              toState st)
      end
  end.

(** The loop of [RegisterAndChainStates], over the states from the last
    to the first; [t] is the variable of that name. *)
Fixpoint chainStates (s : StateHandler) (nexts : gmap nat Transition)
    (backwards : list (option ChainableState)) (t : option Transition)
    : outcome (StateHandler * gmap nat Transition * option Transition) :=
  match backwards with
  | [] => Ok (s, nexts, t)
  | st :: earlier =>
      let assigned :=
        match t, st with
        | None, _ => Ok nexts
        | Some tr, Some cs => Ok (<[Next cs := tr]> nexts)
        | Some _, None =>
            Panic "invalid memory address or nil pointer dereference" []
        end in
      match assigned with
      | Panic msg args => Panic msg args
      | Ok nexts' =>
          match RegisterState s (chained <$> st) with
          | Panic msg args => Panic msg args
          | Ok (s', tr) => chainStates s' nexts' earlier (Some tr)
          end
      end
  end.

(** [StateHandler.RegisterAndChainStates]. *)
Definition RegisterAndChainStates (s : StateHandler) (nexts : gmap nat Transition)
    (sts : list (option ChainableState))
    : outcome (StateHandler * gmap nat Transition * option Transition) :=
  match sts with
  | [] => Panic "nabot: at least one chainable state required" []
  | _ :: _ => chainStates s nexts (reverse sts) None
  end.

(** [StateHandler.getStack]: the stack, the error and the log. *)
Definition getStack (s : StateHandler) (key : string) (σ : Store)
    : option (list State) * option error * list Event :=
  let '(st, err) := GetStack σ key in
  if errors_Is err ErrStateNotFound then (None, None, [])
  else
    match err with
    | Some e => (None, Some (wrapError "failed to get stack: " e), [])
    | None =>
        match Json.Unmarshal st with
        | None =>
            (None, None,
             [EvLog (mkLog LevelError
                "failed to unmarshal stored stack. skipping state handler"
                (With (sh_logger s) "error" AttrJSONError))])
        | Some names =>
            let result := omap (fun name => states s !! name) names in
            match result with
            | [] => (None, None, [])
            | _ :: _ => (Some result, None, [])
            end
        end
    end.

(** The names [setStack] collects: those of the states of [stack] that
    are registered. *)
Definition knownNames (s : StateHandler) (stack : list State) : list string :=
  omap (fun st =>
          match states s !! StateName st with
          | Some _ => Some (StateName st)
          | None => None
          end) stack.

(** [StateHandler.setStack].  [json.Marshal] of a [[]string] returns no
    error, so the first error branch of the Go function is never taken
    and has no counterpart here. *)
Definition setStack (s : StateHandler) (key : string)
    (stack : option (list State)) (σ : Store)
    : option error * Store * list Event :=
  let st := Json.Marshal (knownNames s (elems stack)) in
  match SetStack σ key st with
  | (Some e, σ') =>
      (Some (wrapError "failed to set stack: " e), σ', [EvSetStack key st])
  | (None, σ') => (None, σ', [EvSetStack key st])
  end.

(** [slices.IndexFunc] with the predicate of [toState.Go]; [None] is the
    result [-1]. *)
Fixpoint IndexFunc (stack : list State) (name : string) : option nat :=
  match stack with
  | [] => None
  | st :: stack' =>
      if String.eqb (StateName st) name then Some 0
      else S <$> IndexFunc stack' name
  end.

(** [toState.Go]. *)
Definition toState_Go (s : StateHandler) (state : State) (ctx : Context)
    (w : World) : option error * World * list Event :=
  let '(stack, err, log) := getStack s (chatKey ctx) (storage w) in
  match err with
  | Some e => (Some e, w, log)
  | None =>
      let stack' :=
        match IndexFunc (elems stack) (StateName state) with
        | Some idx => take (idx + 1) <$> stack
        | None => Some (elems stack ++ [state])
        end in
      match setStack s (chatKey ctx) stack' (storage w) with
      | (Some e, σ', set) =>
          (Some e, {| storage := σ'; env := env w |}, log ++ set)
      | (None, σ', set) =>
          let '(r, env') := Render state ctx (env w) in
          (r, {| storage := σ'; env := env' |},
           log ++ set ++ [EvRender state])
      end
  end.

(** [back.Go]. *)
Definition back_Go (s : StateHandler) (ctx : Context) (w : World)
    : option error * World * list Event :=
  let '(stack, err, log) := getStack s (chatKey ctx) (storage w) in
  match err with
  | Some e => (Some e, w, log)
  | None =>
      if (len stack =? 0)%nat then (None, w, log)
      else
        let stack' := take (len stack - 1) <$> stack in
        match setStack s (chatKey ctx) stack' (storage w) with
        | (Some e, σ', set) =>
            (Some e, {| storage := σ'; env := env w |}, log ++ set)
        | (None, σ', set) =>
            match last (elems stack') with
            | Some top =>
                let '(r, env') := Render top ctx (env w) in
                (r, {| storage := σ'; env := env' |},
                 log ++ set ++ [EvRender top])
            | None => (None, {| storage := σ'; env := env w |}, log ++ set)
            end
        end
  end.

(** [Transition.Go]. *)
Definition Go (t : Transition) (s : StateHandler) (ctx : Context) (w : World)
    : option error * World * list Event :=
  match t with
  | toState state => toState_Go s state ctx w
  | back => back_Go s ctx w
  end.

(** [StateHandler.Back]. *)
Definition Back : Transition := back.

(** [StateHandler.Handle]; [stack[len(stack)-1]] panics when the index
    is out of range. *)
Definition StateHandler_Handle (s : StateHandler) (ctx : Context) (w : World)
    : outcome (option error * World * list Event) :=
  let '(stack, err, log) := getStack s (chatKey ctx) (storage w) in
  match err with
  | Some e => Ok (Some e, w, log)
  | None =>
      match stack with
      | None => Ok (Some ErrPass, w, log)
      | Some l =>
          match last l with
          | None => Panic "index out of range [-1]" []
          | Some top =>
              let ctx' :=
                ContextWithLogger ctx
                  (With (logger ctx) "state" (AttrString (StateName top))) in
              let '(r, env') := Handle (handler top) ctx' (env w) in
              Ok (r, {| storage := storage w; env := env' |},
                  log ++ [EvHandle top])
          end
      end
  end.

(** The names of the states of a stack, in order. *)
Definition names (stack : list State) : list string := map StateName stack.

(** Every state is registered under its own name, as [RegisterState]
    stores it. *)
Definition registry_ok (s : StateHandler) : Prop :=
  forall name st, states s !! name = Some st -> StateName st = name.

(** [st] is a state of the registry. *)
Definition registered (s : StateHandler) (st : State) : Prop :=
  states s !! StateName st = Some st.

(** *** Chained registration, in closed form *)

(** The name of a chainable state. *)
Definition chainedName (c : ChainableState) : string := StateName (chained c).

(** The registry after the states of [bw] are registered, the head first. *)
Definition registerAll (m : gmap string State) (bw : list ChainableState)
    : gmap string State :=
  foldl (fun m c => <[chainedName c := chained c]> m) m bw.

(** The [Transition] variables after the loop went through [bw], with [t]
    the transition to the state the loop registered last. *)
Fixpoint linkAll (nexts : gmap nat Transition) (bw : list ChainableState)
    (t : option Transition) : gmap nat Transition :=
  match bw with
  | [] => nexts
  | c :: bw' =>
      linkAll (match t with
               | Some tr => <[Next c := tr]> nexts
               | None => nexts
               end) bw' (Some (toState (chained c)))
  end.

End Machine.
End State.

(** ** The data storage file: [DataStorage], [Set], [Get], [Remove],
    [Clear] and the in-memory store *)

(** Values of the Go type [any] that are not [nil], with what the package
    asks of [reflect]: the dynamic type of a value, [Type.AssignableTo],
    and the text of a type under the verb [%v]. *)
Class Reflect : Type := {
  Value : Type;
  GoType : Type;
  TypeOf : Value -> GoType;
  AssignableTo : GoType -> GoType -> bool;
  TypeString : GoType -> string
}.

Module Data.
Section Storage.
Context `{Transport} `{Reflect}.

(** A value of type [any]: [None] is the [nil] interface value. *)
Definition any : Type := option Value.

(** The interface [DataStorage], over the type [D] of what is stored.
    The argument [pointer] of [GetData] is given by the type [T] of the
    variable it points to, as in [Get], where it is [&result] for a
    [result] of type [T]; [GetData] returns its error and the value it
    assigned to that variable, if it assigned one. *)
Class DataStorage (D : Type) : Type := {
  SetData : D -> string -> string -> any -> option error * D;
  GetData : D -> string -> string -> GoType -> outcome (option error * option Value);
  RemoveData : D -> string -> string -> option error * D;
  ClearData : D -> string -> option error * D
}.

(** [DataKey[T]]: a key with the type of its values. *)
Record DataKey : Type := mkDataKey {
  key_name : string;
  key_type : GoType
}.

Section Generic.
Context {D : Type} `{DataStorage D}.

(** [Set].  That [value] has the type of the key is checked by the Go
    compiler. *)
Definition Set_ (c : Context) (key : DataKey) (value : any) (d : D)
    : option error * D :=
  match SetData d (chatKey c) (key_name key) value with
  | (Some e, d') => (Some (wrapError "failed to set data: " e), d')
  | (None, d') => (None, d')
  end.

(** [Get]: the result ([None] when it is left the zero value of its
    type) and the error. *)
Definition Get (c : Context) (key : DataKey) (d : D)
    : outcome (option Value * option error) :=
  match GetData d (chatKey c) (key_name key) (key_type key) with
  | Panic msg args => Panic msg args
  | Ok (Some e, result) =>
      if errors_Is (Some e) ErrDataKeyNotFound
      then Ok (result, Some e)
      else Ok (result, Some (wrapError "failed to get data: " e))
  | Ok (None, result) => Ok (result, None)
  end.

(** [Remove]. *)
Definition Remove (c : Context) (key : DataKey) (d : D)
    : option error * D :=
  match RemoveData d (chatKey c) (key_name key) with
  | (Some e, d') => (Some (wrapError "failed to remove data: " e), d')
  | (None, d') => (None, d')
  end.

(** [Clear]. *)
Definition Clear (c : Context) (d : D) : option error * D :=
  match ClearData d (chatKey c) with
  | (Some e, d') => (Some (wrapError "failed to clear data: " e), d')
  | (None, d') => (None, d')
  end.
End Generic.

(** [memoryStore]: the field [data], a [sync.Map] from chat keys to
    [*sync.Map]s from data keys to values.  (The field [navStacks] is
    not used by any function.) *)
Definition memoryStore : Type := gmap string (gmap string any).

(** [NewInMemoryDataStore]. *)
Definition NewInMemoryDataStore : memoryStore := ∅.

(** [m.data.LoadOrStore(chatKey, &sync.Map{})]: the store after it and
    the map of the chat. *)
Definition LoadOrStore (m : memoryStore) (chatKey : string)
    : memoryStore * gmap string any :=
  match m !! chatKey with
  | Some d => (m, d)
  | None => (<[chatKey := ∅]> m, ∅)
  end.

Definition memoryStore_SetData (m : memoryStore) (chatKey key : string)
    (value : any) : option error * memoryStore :=
  let '(m', data) := LoadOrStore m chatKey in
  (None, <[chatKey := <[key := value]> data]> m').

Definition memoryStore_GetData (m : memoryStore) (chatKey key : string)
    (T : GoType) : outcome (option error * option Value) :=
  match m !! chatKey with
  | None => Ok (Some ErrDataKeyNotFound, None)
  | Some data =>
      match data !! key with
      | None => Ok (Some ErrDataKeyNotFound, None)
      | Some None =>
          Panic "reflect: call of reflect.Value.Type on zero Value" []
      | Some (Some v) =>
          if negb (AssignableTo (TypeOf v) T)
          then Ok (Some (errorString
                           ("stored value of type " +:+ TypeString (TypeOf v)
                            +:+ " is not assignable to type "
                            +:+ TypeString T)),
                   None)
          else Ok (None, Some v)
      end
  end.

Definition memoryStore_RemoveData (m : memoryStore) (chatKey key : string)
    : option error * memoryStore :=
  let '(m', data) := LoadOrStore m chatKey in
  (None, <[chatKey := delete key data]> m').

Definition memoryStore_ClearData (m : memoryStore) (chatKey : string)
    : option error * memoryStore :=
  (None, delete chatKey m).

#[global] Instance memoryDataStorage : DataStorage memoryStore := {
  SetData := memoryStore_SetData;
  GetData := memoryStore_GetData;
  RemoveData := memoryStore_RemoveData;
  ClearData := memoryStore_ClearData
}.

(** The value the store holds for a key of a chat. *)
Definition storedValue (m : memoryStore) (chatKey key : string) : option any :=
  match m !! chatKey with
  | Some data => data !! key
  | None => None
  end.

(** *** Histories of a store

    The operations that change a store, and the store after a list of
    them, the earliest first, on a new in-memory store. *)
Inductive Op : Type :=
| OpSet (chatKey : string) (key : DataKey) (value : any)
| OpRemove (chatKey : string) (key : DataKey)
| OpClear (chatKey : string).

Definition contextOf (ctx : Context) (chatKey : string) : Context :=
  {| update := update ctx; chatKey := chatKey;
     chatID := chatID ctx; logger := logger ctx |}.

Definition perform (ctx : Context) (m : memoryStore) (op : Op) : memoryStore :=
  match op with
  | OpSet c k v => snd (Set_ (contextOf ctx c) k v m)
  | OpRemove c k => snd (Remove (contextOf ctx c) k m)
  | OpClear c => snd (Clear (contextOf ctx c) m)
  end.

Definition performAll (ctx : Context) (ops : list Op) : memoryStore :=
  foldl (perform ctx) NewInMemoryDataStore ops.

(** In the words of the design document: what a key of a conversation
    holds after a history, the latest operation first.  A [Set] of the
    key gives it the value, a [Remove] of the key or a [Clear] of the
    conversation leaves it without one, other operations do not touch
    it, and a key never set has no value. *)
Fixpoint held (latestFirst : list Op) (chatKey key : string) : option any :=
  match latestFirst with
  | [] => None
  | OpSet c k v :: before =>
      if String.eqb c chatKey && String.eqb (key_name k) key
      then Some v else held before chatKey key
  | OpRemove c k :: before =>
      if String.eqb c chatKey && String.eqb (key_name k) key
      then None else held before chatKey key
  | OpClear c :: before =>
      if String.eqb c chatKey then None else held before chatKey key
  end.

End Storage.
End Data.

(** ** Instances for the examples *)

Module Examples.

(** A transport whose updates are texts and whose chats are numbers; an
    update without text belongs to no chat. *)
#[export] Instance textTransport : Transport := {
  Update := string;
  ChatID := Z;
  GetTypeOfUpdate _ := "message";
  ChatID_String _ := "42"
}.

Definition someContext : Context :=
  {| update := "hello"; chatKey := "42"; chatID := 42%Z;
     logger := [("chat", AttrString "42")] |}.

(** Three handlers on a counter: the first counts and declines, the
    second counts and fails, the third counts a hundred and succeeds. *)
Definition declineHandler : Handler nat :=
  mkHandler "decline" (fun _ n => (Some ErrPass, n + 1)).

Definition failHandler : Handler nat :=
  mkHandler "fail" (fun _ n => (Some (errorString "boom"), n + 1)).

Definition acceptHandler : Handler nat :=
  mkHandler "accept" (fun _ n => (None, n + 100)).

Definition textExtractor (u : string) : option (string * Z) :=
  if String.eqb u "" then None else Some ("42", 42%Z).

Definition counterApp (hs : list (Handler nat)) : App.App :=
  {| App.handlers := hs; App.app_logger := [];
     App.extractChatInfo := textExtractor |}.

(** The states of the quiz bot, on a world that is the list of the
    messages sent so far; [brokenState] is a state that cannot render. *)
Definition mainState : State.State (Env := list string) :=
  State.mkState (mkHandler "main" (fun _ sent => (Some ErrPass, sent)))
                (fun _ sent => (None, sent ++ ["main rendered"])).

Definition quizState : State.State (Env := list string) :=
  State.mkState (mkHandler "quiz" (fun _ sent => (None, sent ++ ["answer"])))
                (fun _ sent => (None, sent ++ ["quiz rendered"])).

Definition brokenState : State.State (Env := list string) :=
  State.mkState (mkHandler "broken" (fun _ sent => (Some ErrPass, sent)))
                (fun _ sent => (Some (errorString "send failed"), sent)).

(** The registry after the three states are registered. *)
Definition quizHandler : State.StateHandler (Env := list string) :=
  {| State.sh_logger := [];
     State.states :=
       <["main" := mainState]>
         (<["quiz" := quizState]> (<["broken" := brokenState]> ∅)) |}.

(** An in-memory state storage that holds the given names for chat 42. *)
Definition stored (ns : list string) : State.memoryStateStore :=
  <["42" := Json.Marshal ns]> ∅.


(** The two chainable states of the quiz bot: the [Transition] variable of
    [mainState] is at address 0, the one of [quizState] at address 1. *)
Definition mainChain : State.ChainableState (Env := list string) :=
  State.mkChainable mainState 0.

Definition quizChain : State.ChainableState (Env := list string) :=
  State.mkChainable quizState 1.

(** The registry of the quiz bot, with the two states only. *)
Definition quizBot : State.StateHandler (Env := list string) :=
  {| State.sh_logger := [];
     State.states := <["main" := mainState]> (<["quiz" := quizState]> ∅) |}.

(** The world of the quiz bot when chat 42 has the given stack stored and
    the given messages were sent. *)
Definition quizWorld (ns sent : list string)
    : State.World (Store := State.memoryStateStore) (Env := list string) :=
  {| State.storage := stored ns; State.env := sent |}.

(** Values for the data storage: strings and integers, with the types
    [string], [int] and [any]; a type is assignable to itself and to
    [any]. *)
Inductive exType : Type := TString | TInt | TAny.

Inductive exValue : Type :=
| VString (s : string)
| VInt (z : Z).

Definition exAssignable (v t : exType) : bool :=
  match v, t with
  | TString, TString | TInt, TInt | _, TAny => true
  | _, _ => false
  end.

#[export] Instance exReflect : Reflect := {
  Value := exValue;
  GoType := exType;
  TypeOf v := match v with VString _ => TString | VInt _ => TInt end;
  AssignableTo := exAssignable;
  TypeString t :=
    match t with TString => "string" | TInt => "int" | TAny => "interface {}" end
}.

(** [const categoryDataKey nabot.DataKey[string] = "category"] of the quiz
    bot, and a key of the same name for integers. *)
Definition categoryDataKey : Data.DataKey := Data.mkDataKey "category" TString.
Definition categoryAsInt : Data.DataKey := Data.mkDataKey "category" TInt.

(** A state whose name is the one byte 0xFF, which is not UTF-8, and a
    registry that holds it. *)
Definition oddName : string := string_of_list_byte [xff].

Definition oddState : State.State (Env := list string) :=
  State.mkState (mkHandler oddName (fun _ sent => (Some ErrPass, sent)))
                (fun _ sent => (None, sent)).

Definition oddHandler : State.StateHandler (Env := list string) :=
  {| State.sh_logger := []; State.states := <[oddName := oddState]> ∅ |}.

(** A second chainable state with the name "main". *)
Definition mainAgain : State.ChainableState (Env := list string) :=
  State.mkChainable
    (State.mkState (mkHandler "main" (fun _ sent => (None, sent)))
                   (fun _ sent => (None, sent)))
    2.

End Examples.

(** ** strconv and strings, as far as the package uses them *)

Module Strconv.

(** [strconv.FormatInt(i, 10)]: the decimal digits, after a minus sign
    for a negative number. *)
Definition FormatInt (i : Z) : string :=
  DecimalString.NilZero.string_of_int (Z.to_int i).

End Strconv.

Module Strings.

(** [strings.HasPrefix(s, prefix)]. *)
Definition HasPrefix (s prefix : string) : bool := String.prefix prefix s.

(** [strings.Index(s, substr)]: the position of the first occurrence;
    [None] is the result [-1]. *)
Definition Index (s substr : string) : option nat := String.index 0 substr s.

(** The slice [s[n:]], for [n] up to the length of [s] (beyond it the
    slice expression panics; the package takes no such slice). *)
Fixpoint sliceFrom (n : nat) (s : string) : string :=
  match n, s with
  | 0, _ => s
  | S n', String _ s' => sliceFrom n' s'
  | S _, EmptyString => EmptyString
  end.

(** [strings.CutPrefix(s, prefix)]. *)
Definition CutPrefix (s prefix : string) : string * bool :=
  if HasPrefix s prefix then (sliceFrom (String.length prefix) s, true)
  else (s, false).

(** [unicode.IsSpace]. *)
Definition IsSpace (r : N) : bool :=
  if (r <=? 0xFF)%N
  then Json.between 0x09 0x0D r || (r =? 0x20)%N || (r =? 0x85)%N
       || (r =? 0xA0)%N
  else (r =? 0x1680)%N || Json.between 0x2000 0x200A r
       || Json.between 0x2028 0x2029 r || (r =? 0x202F)%N
       || (r =? 0x205F)%N || (r =? 0x3000)%N.

(** The loop of [strings.FieldsFunc(s, unicode.IsSpace)] over the runes
    of [p]; [field] is the field under way ([None] when [start] is
    negative).  [strings.Fields] returns the same fields on a string of
    ASCII bytes, where it takes a shorter way. *)
Fixpoint fieldsLoop (rounds : nat) (p : list byte) (field : option (list byte))
    : list (list byte) :=
  match p with
  | [] =>
      match field with
      | Some f => [f]
      | None => []
      end
  | _ :: _ =>
      match rounds with
      | 0 => []
      | S rounds' =>
          let '(r, size) := Json.DecodeRune p in
          if IsSpace r then
            match field with
            | Some f => f :: fieldsLoop rounds' (drop size p) None
            | None => fieldsLoop rounds' (drop size p) None
            end
          else
            fieldsLoop rounds' (drop size p)
              (Some (default [] field ++ take size p))
      end
  end.

(** [strings.Fields]. *)
Definition Fields (s : string) : list string :=
  let p := list_byte_of_string s in
  map string_of_list_byte (fieldsLoop (List.length p) p None).

(** The byte does not occur in the string. *)
Fixpoint without (a : ascii) (s : string) : bool :=
  match s with
  | EmptyString => true
  | String b s' => negb (Ascii.eqb a b) && without a s'
  end.

End Strings.

(** ** telego: updates and chats, as far as the package reads them *)

Module Telego.

(** [telego.ChatID]; the field [ID] is an [int64]. *)
Record ChatID : Type := mkChatID {
  ID : Z;
  Username : string
}.

(** [ChatID.String]. *)
Definition ChatID_String (c : ChatID) : string :=
  if negb (ID c =? 0)%Z then Strconv.FormatInt (ID c)
  else if negb (String.eqb (Username c) "") then Username c
  else "".

(** [telego.Chat] and [telego.User], with the field [ID] of each. *)
Record Chat : Type := mkChat { Chat_ID : Z }.

Record User : Type := mkUser { User_ID : Z }.

(** [Chat.ChatID]. *)
Definition Chat_ChatID (c : Chat) : ChatID := mkChatID (Chat_ID c) "".

(** The interface [telego.MaybeInaccessibleMessage], given by the chat
    its method [GetChat] returns; [None] is the [nil] interface value. *)
Definition MaybeInaccessibleMessage : Type := option Chat.

(** [telego.Message], with the fields [Chat], [Text] and
    [PinnedMessage]. *)
Record Message : Type := mkMessage {
  Message_Chat : Chat;
  Message_Text : string;
  Message_PinnedMessage : MaybeInaccessibleMessage
}.

(** [telego.CallbackQuery], with the fields [Message] and [Data]. *)
Record CallbackQuery : Type := mkCallbackQuery {
  CallbackQuery_Message : MaybeInaccessibleMessage;
  CallbackQuery_Data : string
}.

(** [telego.PollAnswer], with the pointers [VoterChat] and [User]. *)
Record PollAnswer : Type := mkPollAnswer {
  PollAnswer_VoterChat : option Chat;
  PollAnswer_User : option User
}.

(** [telego.Update]: every field is a pointer, [None] when [nil].  A
    field of which the package reads the chat only holds that chat (the
    field [Chat] of what it points to), one of which it reads the sender
    only holds that user (the field [From]), and one it only compares
    with [nil] holds whether it is set. *)
Record Update : Type := mkUpdate {
  Update_Message : option Message;
  Update_EditedMessage : option Message;
  Update_ChannelPost : option Message;
  Update_EditedChannelPost : option Message;
  Update_MessageReaction : option Chat;
  Update_MessageReactionCount : option Chat;
  Update_CallbackQuery : option CallbackQuery;
  Update_InlineQuery : option User;
  Update_ChosenInlineResult : option User;
  Update_ShippingQuery : option User;
  Update_PreCheckoutQuery : option User;
  Update_PurchasedPaidMedia : option User;
  Update_Poll : bool;
  Update_PollAnswer : option PollAnswer;
  Update_MyChatMember : option Chat;
  Update_ChatMember : option Chat;
  Update_ChatJoinRequest : option Chat;
  Update_ChatBoost : bool;
  Update_RemovedChatBoost : bool;
  Update_BusinessConnection : bool;
  Update_BusinessMessage : bool;
  Update_EditedBusinessMessage : bool;
  Update_DeletedBusinessMessages : bool
}.

(** The update with no field set. *)
Definition noUpdate : Update :=
  mkUpdate None None None None None None None None None None None None
           false None None None None false false false false false false.

(** [telego.InlineKeyboardButton] and [telego.KeyboardButton], with the
    fields the package sets. *)
Record InlineKeyboardButton : Type := mkInlineKeyboardButton {
  InlineKeyboardButton_Text : string;
  InlineKeyboardButton_CallbackData : string
}.

Record KeyboardButton : Type := mkKeyboardButton {
  KeyboardButton_Text : string
}.

End Telego.

(** ** nabot.go: the type of an update and the chat it belongs to *)

Module Updates.

(** [p != nil]. *)
Definition present {A} (p : option A) : bool :=
  match p with
  | Some _ => true
  | None => false
  end.

(** [GetTypeOfUpdate]. *)
Definition GetTypeOfUpdate (u : Telego.Update) : string :=
  if present (Telego.Update_Message u) then "message"
  else if present (Telego.Update_EditedMessage u) then "edited_message"
  else if present (Telego.Update_ChannelPost u) then "channel_post"
  else if present (Telego.Update_EditedChannelPost u) then "edited_channel_post"
  else if present (Telego.Update_MessageReaction u) then "message_reaction"
  else if present (Telego.Update_MessageReactionCount u)
  then "message_reaction_count"
  else if present (Telego.Update_CallbackQuery u) then "callback_query"
  else if present (Telego.Update_InlineQuery u) then "inline_query"
  else if present (Telego.Update_ChosenInlineResult u)
  then "chosen_inline_result"
  else if present (Telego.Update_ShippingQuery u) then "shipping_query"
  else if present (Telego.Update_PreCheckoutQuery u) then "pre_checkout_query"
  else if present (Telego.Update_PurchasedPaidMedia u)
  then "purchased_paid_media"
  else if Telego.Update_Poll u then "poll"
  else if present (Telego.Update_PollAnswer u) then "poll_answer"
  else if present (Telego.Update_MyChatMember u) then "my_chat_member"
  else if present (Telego.Update_ChatMember u) then "chat_member"
  else if present (Telego.Update_ChatJoinRequest u) then "chat_join_request"
  else if Telego.Update_ChatBoost u then "chat_boost"
  else if Telego.Update_RemovedChatBoost u then "removed_chat_boost"
  else if Telego.Update_BusinessConnection u then "business_connection"
  else if Telego.Update_BusinessMessage u then "business_message"
  else if Telego.Update_EditedBusinessMessage u then "edited_business_message"
  else if Telego.Update_DeletedBusinessMessages u
  then "deleted_business_messages"
  else "<unknown>".

(** The zero values of [var chatId telego.ChatID] and
    [var user telego.User]. *)
Definition noChatID : Telego.ChatID := Telego.mkChatID 0 "".
Definition noUser : Telego.User := Telego.mkUser 0.

(** A call of the method [GetChat] on a [MaybeInaccessibleMessage]; on
    the [nil] interface value the call panics. *)
Definition GetChat (m : Telego.MaybeInaccessibleMessage) : outcome Telego.Chat :=
  match m with
  | Some c => Ok c
  | None => Panic "invalid memory address or nil pointer dereference" []
  end.

(** The [switch] of [DefaultChatKeyAndID]: the variables [chatId] and
    [user] after it. *)
Definition chatAndUser (u : Telego.Update)
    : outcome (Telego.ChatID * Telego.User) :=
  match Telego.Update_Message u with
  | Some m => Ok (Telego.Chat_ChatID (Telego.Message_Chat m), noUser)
  | None =>
  match Telego.Update_CallbackQuery u with
  | Some q =>
      match GetChat (Telego.CallbackQuery_Message q) with
      | Ok c => Ok (Telego.Chat_ChatID c, noUser)
      | Panic msg args => Panic msg args
      end
  | None =>
  match Telego.Update_EditedMessage u with
  | Some m => Ok (Telego.Chat_ChatID (Telego.Message_Chat m), noUser)
  | None =>
  match Telego.Update_ChannelPost u with
  | Some m =>
      let pinned :=
        match Telego.Message_PinnedMessage m with
        | Some c => Telego.Chat_ChatID c
        | None => noChatID
        end in
      let chatId := Telego.Chat_ChatID (Telego.Message_Chat m) in
      Ok (chatId, noUser)
  | None =>
  match Telego.Update_EditedChannelPost u with
  | Some m => Ok (Telego.Chat_ChatID (Telego.Message_Chat m), noUser)
  | None =>
  match Telego.Update_MyChatMember u with
  | Some c => Ok (Telego.Chat_ChatID c, noUser)
  | None =>
  match Telego.Update_ChatMember u with
  | Some c => Ok (Telego.Chat_ChatID c, noUser)
  | None =>
  match Telego.Update_ChatJoinRequest u with
  | Some c => Ok (Telego.Chat_ChatID c, noUser)
  | None =>
  match Telego.Update_MessageReaction u with
  | Some c => Ok (Telego.Chat_ChatID c, noUser)
  | None =>
  match Telego.Update_MessageReactionCount u with
  | Some c => Ok (Telego.Chat_ChatID c, noUser)
  | None =>
  match Telego.Update_InlineQuery u with
  | Some from => Ok (noChatID, from)
  | None =>
  match Telego.Update_ChosenInlineResult u with
  | Some from => Ok (noChatID, from)
  | None =>
  match Telego.Update_ShippingQuery u with
  | Some from => Ok (noChatID, from)
  | None =>
  match Telego.Update_PreCheckoutQuery u with
  | Some from => Ok (noChatID, from)
  | None =>
  match Telego.Update_PurchasedPaidMedia u with
  | Some from => Ok (noChatID, from)
  | None =>
  match Telego.Update_PollAnswer u with
  | Some a =>
      Ok (match Telego.PollAnswer_VoterChat a with
          | Some c => Telego.Chat_ChatID c
          | None => noChatID
          end,
          match Telego.PollAnswer_User a with
          | Some usr => usr
          | None => noUser
          end)
  | None => Ok (noChatID, noUser)
  end end end end end end end end end end end end end end end end.

(** [DefaultChatKeyAndID]: the chat key and the chat ID; [None] stands
    for the result [false]. *)
Definition DefaultChatKeyAndID (u : Telego.Update)
    : outcome (option (string * Telego.ChatID)) :=
  match chatAndUser u with
  | Panic msg args => Panic msg args
  | Ok (chatId, user) =>
      if negb (Telego.ID chatId =? 0)%Z
      then Ok (Some (Strconv.FormatInt (Telego.ID chatId), chatId))
      else if negb (Telego.User_ID user =? 0)%Z
      then Ok (Some (Strconv.FormatInt (Telego.User_ID user),
                     Telego.mkChatID (Telego.User_ID user) ""))
      else Ok None
  end.

(** The transport of the package: the updates and chats of telego. *)
#[export] Instance telegoTransport : Transport := {
  Update := Telego.Update;
  ChatID := Telego.ChatID;
  GetTypeOfUpdate := GetTypeOfUpdate;
  ChatID_String := Telego.ChatID_String
}.

(** The field [extractChatInfo] of the app is [DefaultChatKeyAndID], as
    [NewApp] sets it: the app extracts what the function returns. *)
Definition usesDefaultChatKeyAndID {W : Type} (a : App.App (W := W)) : Prop :=
  forall u r, DefaultChatKeyAndID u = Ok r -> App.extractChatInfo a u = r.

(** None of the sixteen fields [DefaultChatKeyAndID] looks at is set. *)
Definition chatless (u : Telego.Update) : bool :=
  negb (present (Telego.Update_Message u)
        || present (Telego.Update_CallbackQuery u)
        || present (Telego.Update_EditedMessage u)
        || present (Telego.Update_ChannelPost u)
        || present (Telego.Update_EditedChannelPost u)
        || present (Telego.Update_MyChatMember u)
        || present (Telego.Update_ChatMember u)
        || present (Telego.Update_ChatJoinRequest u)
        || present (Telego.Update_MessageReaction u)
        || present (Telego.Update_MessageReactionCount u)
        || present (Telego.Update_InlineQuery u)
        || present (Telego.Update_ChosenInlineResult u)
        || present (Telego.Update_ShippingQuery u)
        || present (Telego.Update_PreCheckoutQuery u)
        || present (Telego.Update_PurchasedPaidMedia u)
        || present (Telego.Update_PollAnswer u)).

End Updates.

(** ** state.go: [BaseState] and runs of transitions *)

Module Base.
Section BaseStates.
Context `{Transport} {Env : Type}.

(** [BaseState].  The field [ToNext] is a [Transition] variable; the
    record holds its address in the map of those variables, which is
    what [Next] returns. *)
Record BaseState : Type := mkBaseState {
  ID : string;
  Renderer : option (Context -> Env -> option error * Env);
  Handlers : list (Handler Env);
  ToNext : nat
}.

(** [BaseState.Name]. *)
Definition BaseState_Name (b : BaseState) : string := ID b.

(** [BaseState.Render]. *)
Definition BaseState_Render (b : BaseState) (ctx : Context) (env : Env)
    : option error * Env :=
  match Renderer b with
  | None => (None, env)
  | Some render => render ctx env
  end.

(** The loop of [BaseState.Handle]; [err] is the variable of that name,
    and (instrumentation) [called] counts the handlers called. *)
Fixpoint handleLoop (hs : list (Handler Env)) (ctx : Context)
    (err : option error) (env : Env) (called : nat)
    : option error * Env * nat :=
  match hs with
  | [] => (err, env, called)
  | h :: hs' =>
      let '(err', env') := Handle h ctx env in
      if errors_Is err' ErrPass
      then handleLoop hs' ctx err' env' (S called)
      else (err', env', S called)
  end.

(** [BaseState.Handle]. *)
Definition BaseState_Handle (b : BaseState) (ctx : Context) (env : Env)
    : option error * Env :=
  (handleLoop (Handlers b) ctx None env 0).1.

(** [BaseState.Next]. *)
Definition BaseState_Next (b : BaseState) : nat := ToNext b.

(** A [*BaseState] as a [State] and as a [ChainableState]. *)
Definition asState (b : BaseState) : State.State (Env := Env) :=
  State.mkState (mkHandler (BaseState_Name b) (BaseState_Handle b))
                (BaseState_Render b).

Definition asChainable (b : BaseState) : State.ChainableState (Env := Env) :=
  State.mkChainable (asState b) (BaseState_Next b).

(** The handlers of [hs] decline one after the other from [env], and
    leave [env']. *)
Fixpoint allDecline (hs : list (Handler Env)) (ctx : Context) (env : Env)
    : option Env :=
  match hs with
  | [] => Some env
  | h :: hs' =>
      let '(err, env') := Handle h ctx env in
      if errors_Is err ErrPass then allDecline hs' ctx env' else None
  end.

End BaseStates.
End Base.

Module Runs.
Section Conversations.
Context `{Transport} {Store Env : Type} `{State.StateStorage Store}.

(** [StateHandler.Name]. *)
Definition StateHandler_Name (s : State.StateHandler (Env := Env)) : string :=
  "state_handler".

(** The stack a transition makes of the stack it reads: the slice
    expressions of [toState.Go] and of [back.Go]. *)
Definition stackAfter (t : State.Transition (Env := Env))
    (old : list (State.State (Env := Env))) : list (State.State (Env := Env)) :=
  match t with
  | State.toState dest =>
      match State.IndexFunc old (State.StateName dest) with
      | Some idx => take (idx + 1) old
      | None => old ++ [dest]
      end
  | State.back => take (List.length old - 1) old
  end.

(** Transitions performed one after the other in a conversation, each in
    the world the one before left, whatever error it returned. *)
Definition run (s : State.StateHandler (Env := Env)) (ctx : Context)
    (ts : list (State.Transition (Env := Env))) (w : State.World)
    : State.World :=
  foldl (fun w t => (State.Go t s ctx w).1.2) w ts.

(** The transition goes back, or to a state of the registry. *)
Definition known (s : State.StateHandler (Env := Env))
    (t : State.Transition (Env := Env)) : Prop :=
  match t with
  | State.toState dest => State.registered s dest
  | State.back => True
  end.

(** Every name of the registry is valid UTF-8. *)
Definition names_valid (s : State.StateHandler (Env := Env)) : Prop :=
  forall name st,
    State.states s !! name = Some st -> Json.ValidString name = true.

(** The states [getStack] reads for a conversation. *)
Definition stackOf (s : State.StateHandler (Env := Env)) (key : string)
    (σ : Store) : list (State.State (Env := Env)) :=
  elems (State.getStack s key σ).1.1.

End Conversations.
End Runs.

(** ** The package [handlers] *)

Module Handlers.
Import Updates.
Section Package.

(** [W] is the world the functions of a handler act on. *)
Context {W : Type}.

(** [Func]. *)
Definition Func (f : Context -> W -> option error * W) : Handler W :=
  mkHandler "function_handler" f.

(** [Filter]. *)
Definition Filter_Handle (f : Context -> W -> bool * W) (ctx : Context) (w : W)
    : option error * W :=
  let '(pass, w') := f ctx w in
  if pass then (Some ErrPass, w') else (None, w').

Definition Filter (f : Context -> W -> bool * W) : Handler W :=
  mkHandler "filter_handler" (Filter_Handle f).

(** [Text]. *)
Record Text : Type := mkText {
  HandlerName : string;
  Text_HandleFunc : Context -> string -> W -> option error * W
}.

Definition Text_Handle (t : Text) (ctx : Context) (w : W) : option error * W :=
  match Telego.Update_Message (update ctx) with
  | Some msg =>
      if negb (String.eqb (Telego.Message_Text msg) "")
      then Text_HandleFunc t ctx (Telego.Message_Text msg) w
      else (Some ErrPass, w)
  | None => (Some ErrPass, w)
  end.

Definition TextHandler (t : Text) : Handler W :=
  mkHandler (HandlerName t) (Text_Handle t).

(** [Command]; the field [Separator] is [nil] or a function. *)
Record Command : Type := mkCommand {
  Command_Command : string;
  Command_HandleFunc : Context -> list string -> W -> option error * W;
  Separator : option (string -> string -> list string)
}.

(** [Command.Name]. *)
Definition Command_Name (c : Command) : string :=
  if Strings.HasPrefix (Command_Command c) "/" then Command_Command c
  else "/" +:+ Command_Command c.

(** [Command.Handle]. *)
Definition Command_Handle (c : Command) (ctx : Context) (w : W)
    : option error * W :=
  match Telego.Update_Message (update ctx) with
  | None => (Some ErrPass, w)
  | Some msg =>
      let cmd := Command_Name c in
      match Strings.Index (Telego.Message_Text msg) cmd with
      | None => (Some ErrPass, w)
      | Some idx =>
          let args :=
            match Separator c with
            | Some separator => separator cmd (Telego.Message_Text msg)
            | None =>
                Strings.Fields
                  (Strings.sliceFrom (idx + String.length cmd)
                     (Telego.Message_Text msg))
            end in
          Command_HandleFunc c ctx args w
      end
  end.

Definition CommandHandler (c : Command) : Handler W :=
  mkHandler (Command_Name c) (Command_Handle c).

(** [callbackDataSeparator]: one backslash. *)
Definition callbackDataSeparator : string := "\".

(** [InlineButton]. *)
Record InlineButton : Type := mkInlineButton {
  InlineButton_ID : string;
  DefaultText : string;
  InlineButton_HandleFunc : Context -> string -> W -> option error * W
}.

Definition InlineButton_Handle (i : InlineButton) (ctx : Context) (w : W)
    : option error * W :=
  match Telego.Update_CallbackQuery (update ctx) with
  | None => (Some ErrPass, w)
  | Some q =>
      let '(data, ok) :=
        Strings.CutPrefix (Telego.CallbackQuery_Data q)
                          (InlineButton_ID i +:+ callbackDataSeparator) in
      if negb ok then (Some ErrPass, w)
      else InlineButton_HandleFunc i ctx data w
  end.

Definition InlineButtonHandler (i : InlineButton) : Handler W :=
  mkHandler (InlineButton_ID i) (InlineButton_Handle i).

(** [InlineButton.CallbackData]. *)
Definition CallbackData (i : InlineButton) (data : string) : string :=
  (InlineButton_ID i +:+ callbackDataSeparator) +:+ data.

(** [InlineButton.ButtonWithText] and [InlineButton.Button]. *)
Definition ButtonWithText (i : InlineButton) (text data : string)
    : Telego.InlineKeyboardButton :=
  Telego.mkInlineKeyboardButton text (CallbackData i data).

Definition InlineButton_Button (i : InlineButton) (data : string)
    : Telego.InlineKeyboardButton :=
  ButtonWithText i (DefaultText i) data.

(** [KeyboardButton]. *)
Record KeyboardButton : Type := mkKeyboardButton {
  KeyboardButton_Text : string;
  KeyboardButton_HandleFunc : Context -> W -> option error * W
}.

Definition KeyboardButton_Name (k : KeyboardButton) : string :=
  "reply_button_" +:+ KeyboardButton_Text k.

Definition KeyboardButton_Handle (k : KeyboardButton) (ctx : Context) (w : W)
    : option error * W :=
  match Telego.Update_Message (update ctx) with
  | Some msg =>
      if String.eqb (Telego.Message_Text msg) (KeyboardButton_Text k)
      then KeyboardButton_HandleFunc k ctx w
      else (Some ErrPass, w)
  | None => (Some ErrPass, w)
  end.

Definition KeyboardButtonHandler (k : KeyboardButton) : Handler W :=
  mkHandler (KeyboardButton_Name k) (KeyboardButton_Handle k).

(** [KeyboardButton.Button]. *)
Definition KeyboardButton_Button (k : KeyboardButton) : Telego.KeyboardButton :=
  Telego.mkKeyboardButton (KeyboardButton_Text k).

End Package.
End Handlers.

(** ** Further instances for the examples *)

Module Scenarios.

(** A state storage that can be out of order: it holds blobs as the
    in-memory one does, and returns the error [readFault] from every
    [GetStack] and the error [writeFault] from every [SetStack], when it
    has one. *)
Record faultyStore : Type := mkFaulty {
  blobs : State.memoryStateStore;
  readFault : option error;
  writeFault : option error
}.

#[global] Instance faultyStorage : State.StateStorage faultyStore := {
  GetStack σ key :=
    match readFault σ with
    | Some e => ([], Some e)
    | None => State.GetStack (blobs σ) key
    end;
  SetStack σ key blob :=
    match writeFault σ with
    | Some e => (Some e, σ)
    | None =>
        (None, {| blobs := <[key := blob]> (blobs σ);
                  readFault := readFault σ; writeFault := None |})
    end
}.

(** The storage of chat 42 with the given stack, that cannot be read. *)
Definition unreadable (ns : list string) : faultyStore :=
  mkFaulty (Examples.stored ns) (Some (errorString "connection refused")) None.

(** The same, that cannot be written. *)
Definition readOnly (ns : list string) : faultyStore :=
  mkFaulty (Examples.stored ns) None (Some (errorString "read-only storage")).

(** A state that is not registered in the quiz bot. *)
Definition ghostState
    : State.State (H := Examples.textTransport) (Env := list string) :=
  State.mkState (mkHandler "ghost" (fun _ sent => (Some ErrPass, sent)))
                (fun _ sent => (None, sent)).

(** A press on an inline button of a message sent through the inline
    mode: the callback query has no message. *)
Definition inlinePress (data : string) : Telego.Update :=
  Telego.mkUpdate None None None None None None
    (Some (Telego.mkCallbackQuery None data))
    None None None None None
    false None None None None false false false false false false.

(** Updates of telego: a text message in a chat, a press on an inline
    button shown in a chat, an inline query of a user, and a poll. *)
Definition textMessage (chat : Z) (text : string) : Telego.Update :=
  Telego.mkUpdate
    (Some (Telego.mkMessage (Telego.mkChat chat) text None))
    None None None None None None None None None None None
    false None None None None false false false false false false.

Definition buttonPress (chat : Z) (data : string) : Telego.Update :=
  Telego.mkUpdate None None None None None None
    (Some (Telego.mkCallbackQuery (Some (Telego.mkChat chat)) data))
    None None None None None
    false None None None None false false false false false false.

Definition inlineQuery (user : Z) : Telego.Update :=
  Telego.mkUpdate None None None None None None None
    (Some (Telego.mkUser user)) None None None None
    false None None None None false false false false false false.

Definition pollUpdate : Telego.Update :=
  Telego.mkUpdate None None None None None None None None None None None None
    true None None None None false false false false false false.

(** The context [newContext] makes for an update of a chat. *)
Definition contextOf (u : Telego.Update) (chat : Z)
    : Context (H := Updates.telegoTransport) :=
  mkContext (H := Updates.telegoTransport) u (Strconv.FormatInt chat)
    (Telego.mkChatID chat "")
    [("chat", AttrString (Strconv.FormatInt chat))].

(** An app on the updates of telego that extracts the chat as
    [DefaultChatKeyAndID] does. *)
Definition defaultExtractor (u : Telego.Update)
    : option (string * Telego.ChatID) :=
  match Updates.DefaultChatKeyAndID u with
  | Ok r => r
  | Panic _ _ => None
  end.

Definition telegoApp {W : Type}
    (hs : list (Handler (H := Updates.telegoTransport) W))
    : App.App (H := Updates.telegoTransport) (W := W) :=
  App.mkApp (H := Updates.telegoTransport) hs [] defaultExtractor.

(** Handlers of the package [handlers] on a world that is the list of
    the texts sent so far: the command "start" answers with its
    arguments, the two reply buttons and the text handler of a quiz, and
    two inline buttons. *)
Definition startCommand : Handlers.Command (W := list string) :=
  Handlers.mkCommand "start" (fun _ args sent => (None, sent ++ args)) None.

Definition againButton : Handlers.KeyboardButton (W := list string) :=
  Handlers.mkKeyboardButton "again" (fun _ sent => (None, sent ++ ["next question"])).

Definition backButton : Handlers.KeyboardButton (W := list string) :=
  Handlers.mkKeyboardButton "change topic" (fun _ sent => (None, sent ++ ["topics"])).

Definition chosenOption : Handlers.Text (W := list string) :=
  Handlers.mkText "chosen_option" (fun _ text sent => (None, sent ++ ["you chose " +:+ text])).

Definition categoryButton : Handlers.InlineButton (W := list string) :=
  Handlers.mkInlineButton "category" "Category"
    (fun _ data sent => (None, sent ++ ["category " +:+ data])).

Definition answerButton : Handlers.InlineButton (W := list string) :=
  Handlers.mkInlineButton "answer" "Answer"
    (fun _ data sent => (None, sent ++ ["answer " +:+ data])).

(** The state of the quiz, as a [BaseState] with these handlers. *)
Definition quizBase : Base.BaseState (H := Updates.telegoTransport) (Env := list string) :=
  Base.mkBaseState (H := Updates.telegoTransport) "quiz" None
    [Handlers.KeyboardButtonHandler againButton;
     Handlers.KeyboardButtonHandler backButton;
     Handlers.TextHandler chosenOption]
    1.

(** A filter that lets the updates of chat 42 through. *)
Definition onlyChat42 : Handler (H := Updates.telegoTransport) (list string) :=
  Handlers.Filter
    (fun ctx sent => (String.eqb (chatKey ctx) "42", sent)).

End Scenarios.

(** * Properties *)

(** ** Errors *)

Lemma errors_Is_ErrPass_self : errors_Is (Some ErrPass) ErrPass = true.
Proof. reflexivity. Qed.

Lemma errors_Is_wrapError prefix e target :
  errors_Is (Some (wrapError prefix e)) target = errors_Is (Some e) target.
Proof. reflexivity. Qed.

(** ** Dispatch *)

Section DispatchFacts.
Context `{Transport} {W : Type}.
Implicit Types (a : App.App (W := W)) (ctx : Context) (w : W).
Implicit Types (hs pre post : list (Handler W)).

Import App.

(** The loop goes through a prefix of declining handlers and goes on
    with what follows, with the world they leave. *)
Lemma chainLoop_declining a ctx pre : forall post i err handler w called w1,
  declining a ctx pre w = Some w1 ->
  exists err' handler',
    chainLoop a ctx (pre ++ post) i err handler w called
    = chainLoop a ctx post (i + List.length pre) err' handler' w1
        (called ++ seq i (List.length pre))
    /\ (pre = [] -> err' = err /\ handler' = handler)
    /\ (pre <> [] -> errors_Is err' ErrPass = true /\ handler' = last pre).
Proof.
  induction pre as [|h pre IH]; intros post i err handler w called w1 Hd.
  - simpl in Hd. injection Hd as <-. exists err, handler. simpl.
    rewrite Nat.add_0_r, app_nil_r. repeat split; congruence.
  - simpl in Hd. simpl.
    destruct (Handle h (handlerContext a ctx h) w) as [e w'] eqn:Hh.
    destruct (errors_Is e ErrPass) eqn:He; [|discriminate].
    destruct (IH post (S i) e (Some h) w' (called ++ [i]) w1 Hd)
      as (err' & handler' & Heq & Hnil & Hcons).
    exists err', handler'. split; [|split].
    + rewrite Heq. f_equal; [lia|]. by rewrite <- app_assoc.
    + discriminate.
    + intros _. destruct pre as [|h' pre].
      * destruct (Hnil eq_refl) as [-> ->]. done.
      * destruct Hcons as [Hp ->]; [discriminate|]. done.
Qed.

Lemma errors_Is_Some_inv (err : option error) target :
  errors_Is err target = true -> exists e, err = Some e.
Proof. destruct err; [eauto | discriminate]. Qed.

End DispatchFacts.

Section DispatchClaims.
Context `{Transport} {W : Type}.
Import App.

(** C1.  Dispatch walks the chain in registration order.  For an update
    with a context: when the handlers before [h] decline one after the
    other and [h] returns an outcome [r] that is not a decline, the loop
    ends with the error [r], the handler [h] and the world [h] left,
    having called exactly the handlers up to [h] and none after it; and
    [processUpdate] reports that outcome.  When every handler declines,
    all are called in order and no record is written at error level: the
    one record written is the information that the update was not handled
    by any handler (and with no handler in the chain, no record at
    all). *)
Theorem dispatch_registration_order (a : App.App (W := W)) (u : Update)
    (ctx : Context) (w : W) :
  newContext a u = Some ctx ->
  (forall pre h post w1 r w2,
      handlers a = pre ++ h :: post ->
      declining a ctx pre w = Some w1 ->
      Handle h (handlerContext a ctx h) w1 = (r, w2) ->
      errors_Is r ErrPass = false ->
      let d := mkDispatched r (Some h) w2 (seq 0 (S (List.length pre))) in
      dispatch a ctx w = d
      /\ processUpdate a u w = (w2, reportOutcome a d, d_called d)
      /\ reportOutcome a d =
           match r with
           | None => []
           | Some e =>
               [mkLog LevelError "nabot: failed to handle update"
                  (With (With (app_logger a) "error" (AttrError e))
                     "handler" (AttrString (Name h)))]
           end)
  /\ (forall w1,
      declining a ctx (handlers a) w = Some w1 ->
      d_world (dispatch a ctx w) = w1
      /\ d_called (dispatch a ctx w) = seq 0 (List.length (handlers a))
      /\ Forall (fun r => is_error_record r = false)
                (reportOutcome a (dispatch a ctx w))
      /\ processUpdate a u w
         = (w1,
            match handlers a with
            | [] => []
            | _ :: _ =>
                [mkLog LevelInfo "nabot: update was not handled by any handler"
                       (app_logger a)]
            end,
            seq 0 (List.length (handlers a)))).
Proof.
  intros Hctx. split.
  - intros pre h post w1 r w2 Hhs Hpre Hh Hr d.
    assert (Hd : dispatch a ctx w = d).
    { unfold dispatch. rewrite Hhs.
      destruct (chainLoop_declining a ctx pre (h :: post) 0 None None w [] w1 Hpre)
        as (err' & handler' & -> & _).
      simpl. rewrite Hh, Hr. unfold d. f_equal.
      replace (S (List.length pre)) with (List.length pre + 1) by lia.
      by rewrite seq_app. }
    split; [exact Hd|]. split.
    + unfold processUpdate. by rewrite Hctx, Hd.
    + unfold reportOutcome, d. cbn [d_err d_handler].
      destruct r as [e|]; [|done]. by rewrite Hr.
  - intros w1 Hall.
    destruct (chainLoop_declining a ctx (handlers a) [] 0 None None w [] w1 Hall)
      as (err' & handler' & Heq & Hnil & Hcons).
    rewrite app_nil_r in Heq. simpl in Heq.
    assert (Hd : dispatch a ctx w
                 = mkDispatched err' handler' w1 (seq 0 (List.length (handlers a))))
      by exact Heq.
    rewrite Hd. simpl. split; [done|]. split; [done|]. split.
    + unfold reportOutcome. cbn [d_err].
      destruct err' as [e|]; [|constructor].
      destruct (errors_Is (Some e) ErrPass) eqn:He.
      * repeat constructor.
      * destruct (handlers a) as [|h0 hs0] eqn:Hhs.
        -- destruct (Hnil eq_refl) as [? _]. discriminate.
        -- destruct Hcons as [Hp _]; [discriminate|]. congruence.
    + unfold processUpdate. rewrite Hctx, Hd.
      unfold reportOutcome. cbn [d_err d_world d_called].
      destruct (handlers a) as [|h0 hs0] eqn:Hhs.
      * destruct (Hnil eq_refl) as [-> _]. done.
      * destruct Hcons as [Hp _]; [discriminate|].
        destruct err' as [e|]; [|discriminate]. by rewrite Hp.
Qed.

(** An update for which no chat can be determined runs no handler. *)
Lemma processUpdate_no_context (a : App.App (W := W)) u w :
  newContext a u = None ->
  exists r, processUpdate a u w = (w, [r], []) /\ log_level r = LevelWarn.
Proof. intros Hn. unfold processUpdate. rewrite Hn. eauto. Qed.

End DispatchClaims.

(** The counter app, its second handler failing: the first and the second
    handler are called, the third is not. *)
Lemma dispatch_registration_order_witness :
  App.dispatch
    (Examples.counterApp
       [Examples.declineHandler; Examples.failHandler; Examples.acceptHandler])
    Examples.someContext 0
  = App.mkDispatched (Some (errorString "boom")) (Some Examples.failHandler)
      2 [0; 1].
Proof.
  exact (proj1 (proj1 (dispatch_registration_order
           (Examples.counterApp
              [Examples.declineHandler; Examples.failHandler;
               Examples.acceptHandler])
           "hello" Examples.someContext 0 eq_refl)
         [Examples.declineHandler] Examples.failHandler
         [Examples.acceptHandler] 1 (Some (errorString "boom")) 2
         eq_refl eq_refl eq_refl eq_refl)).
Defined.

(** ** The state registry and the stack read path *)

Section RegistryFacts.
Context `{Transport} {Store Env : Type} `{State.StateStorage Store}.
Import State.
Implicit Types (s : StateHandler (Env := Env)) (st : State (Env := Env)).
Implicit Types (stack : list (State (Env := Env))).

Lemma registry_ok_new l : registry_ok (NewStateHandler (Env := Env) l).
Proof. intros name st Hl. simpl in Hl. by rewrite lookup_empty in Hl. Qed.

Lemma RegisterState_ok s state s' t :
  registry_ok s -> RegisterState s state = Ok (s', t) -> registry_ok s'.
Proof.
  intros Hok Hr. unfold RegisterState in Hr.
  destruct state as [st|]; [|discriminate].
  destruct (states s !! StateName st) eqn:Hl; [discriminate|].
  injection Hr as <- <-. intros name st' Hl'. simpl in Hl'.
  destruct (decide (StateName st = name)) as [<-|Hne].
  - rewrite lookup_insert_eq in Hl'. congruence.
  - rewrite lookup_insert_ne in Hl' by done. by apply Hok.
Qed.

(** The states found for a list of names are states of the registry. *)
Lemma omap_lookup_values s (ns : list string) :
  Forall (fun st => exists name, states s !! name = Some st)
         (omap (fun name => states s !! name) ns).
Proof.
  induction ns as [|n ns IH]; simpl; [constructor|].
  destruct (states s !! n) eqn:Hl; [constructor; eauto | done].
Qed.

Lemma omap_lookup_registered s (ns : list string) :
  registry_ok s ->
  Forall (registered s) (omap (fun name => states s !! name) ns).
Proof.
  intros Hok. eapply Forall_impl; [apply omap_lookup_values|].
  intros st [name Hl]. unfold registered. by rewrite (Hok _ _ Hl).
Qed.

(** Looking up the names of registered states gives the states back. *)
Lemma omap_lookup_names s stack :
  Forall (registered s) stack ->
  omap (fun name => states s !! name) (names stack) = stack.
Proof.
  unfold names.
  induction 1 as [|st stack Hst _ IH]; simpl; [done|].
  unfold registered in Hst. rewrite Hst. f_equal. exact IH.
Qed.

(** [setStack] writes the names of all states of a stack of registered
    states. *)
Lemma knownNames_registered s stack :
  Forall (registered s) stack -> knownNames s stack = names stack.
Proof.
  unfold knownNames, names.
  induction 1 as [|st stack Hst _ IH]; simpl; [done|].
  unfold registered in Hst. rewrite Hst. f_equal. exact IH.
Qed.

(** A name that is not registered is left out. *)
Lemma omap_lookup_unknown s (before after : list string) ghost :
  states s !! ghost = None ->
  omap (fun name => states s !! name) (before ++ ghost :: after)
  = omap (fun name => states s !! name) before
    ++ omap (fun name => states s !! name) after.
Proof. intros Hg. rewrite omap_app. simpl. by rewrite Hg. Qed.

Lemma IndexFunc_None stack name :
  IndexFunc stack name = None <-> name ∉ names stack.
Proof.
  induction stack as [|st stack IH]; simpl.
  - split; [intros _ Hin; by apply elem_of_nil in Hin | done].
  - destruct (String.eqb (StateName st) name) eqn:He.
    + apply String.eqb_eq in He. split; [discriminate|].
      intros Hn. exfalso. apply Hn. rewrite He. apply elem_of_cons. by left.
    + apply String.eqb_neq in He. rewrite not_elem_of_cons.
      destruct (IndexFunc stack name) eqn:Hi; simpl.
      * split; [discriminate|]. intros [_ Hn]. by apply IH in Hn.
      * split; [|done]. intros _. split; [congruence | by apply IH].
Qed.

(** [IndexFunc] finds the first position that holds the name. *)
Lemma IndexFunc_Some stack name i :
  IndexFunc stack name = Some i <->
  names stack !! i = Some name
  /\ forall j, j < i -> names stack !! j <> Some name.
Proof.
  revert i. induction stack as [|st stack IH]; intros i; simpl.
  - split; [discriminate | by intros [? _]].
  - destruct (String.eqb (StateName st) name) eqn:He.
    + apply String.eqb_eq in He. split.
      * intros [= <-]. split; [by rewrite <- He | lia].
      * intros [Hi Hfirst]. destruct i as [|i]; [done|].
        exfalso. apply (Hfirst 0); [lia|]. simpl. by rewrite He.
    + apply String.eqb_neq in He. split.
      * destruct (IndexFunc stack name) as [k|] eqn:Hk; [|discriminate].
        intros [= <-]. destruct (proj1 (IH k) eq_refl) as [Hl Hfirst].
        split; [done|]. intros [|j] Hj; simpl; [congruence|].
        apply Hfirst. lia.
      * intros [Hi Hfirst]. destruct i as [|i]; simpl in Hi; [congruence|].
        rewrite (proj2 (IH i)); [done|]. split; [done|].
        intros j Hj. apply (Hfirst (S j)). lia.
Qed.

(** In a stack of registered states, the state at a position that holds
    the name of a registered state is that state. *)
Lemma registered_at s stack st i :
  Forall (registered s) stack -> registered s st ->
  names stack !! i = Some (StateName st) -> stack !! i = Some st.
Proof.
  intros Hall Hst Hi. unfold names in Hi. rewrite list_lookup_fmap in Hi.
  destruct (stack !! i) as [st'|] eqn:Hl; [|discriminate].
  simpl in Hi. injection Hi as Hn.
  assert (Hr : registered s st').
  { rewrite Forall_forall in Hall. apply Hall.
    eapply list_elem_of_lookup_2. exact Hl. }
  unfold registered in *. rewrite Hn in Hr. congruence.
Qed.

End RegistryFacts.

Section ReadPath.
Context `{Transport} {Store Env : Type} `{State.StateStorage Store}.
Import State.
Implicit Types (s : StateHandler (Env := Env)) (σ : Store).

(** What [getStack] returns, by what the storage returns. *)
Lemma getStack_cases s key σ :
  getStack s key σ =
    let '(blob, err) := GetStack σ key in
    if errors_Is err ErrStateNotFound then (None, None, [])
    else match err with
         | Some e => (None, Some (wrapError "failed to get stack: " e), [])
         | None =>
             match Json.Unmarshal blob with
             | None =>
                 (None, None,
                  [EvLog (mkLog LevelError
                     "failed to unmarshal stored stack. skipping state handler"
                     (With (sh_logger s) "error" AttrJSONError))])
             | Some ns =>
                 match omap (fun name => states s !! name) ns with
                 | [] => (None, None, [])
                 | st :: sts => (Some (st :: sts), None, [])
                 end
             end
         end.
Proof.
  unfold getStack. destruct (GetStack σ key) as [blob err].
  destruct (errors_Is err ErrStateNotFound); [done|].
  destruct err; [done|]. destruct (Json.Unmarshal blob); [|done].
  by destruct (omap _ _).
Qed.

(** The stack [getStack] returns is [nil] or has a state, and its states
    are states of the registry. *)
Lemma getStack_stack s key σ stack err log :
  getStack s key σ = (stack, err, log) ->
  stack <> Some []
  /\ Forall (fun st => exists name, states s !! name = Some st) (elems stack).
Proof.
  rewrite getStack_cases. destruct (GetStack σ key) as [blob e].
  destruct (errors_Is e ErrStateNotFound).
  { intros [= <- <- <-]. split; [done | constructor]. }
  destruct e.
  { intros [= <- <- <-]. split; [done | constructor]. }
  destruct (Json.Unmarshal blob) as [ns|].
  2:{ intros [= <- <- <-]. split; [done | constructor]. }
  pose proof (omap_lookup_values s ns) as Hv.
  destruct (omap _ ns) as [|st sts].
  - intros [= <- <- <-]. split; [done | constructor].
  - intros [= <- <- <-]. split; [done | exact Hv].
Qed.

Lemma getStack_registered s key σ stack err log :
  registry_ok s ->
  getStack s key σ = (stack, err, log) ->
  Forall (registered s) (elems stack).
Proof.
  intros Hok Hg. destruct (getStack_stack _ _ _ _ _ _ Hg) as [_ Hv].
  eapply Forall_impl; [exact Hv|].
  intros st [name Hl]. unfold registered. by rewrite (Hok _ _ Hl).
Qed.

(** [getStack] writes log records only. *)
Lemma getStack_log s key σ stack err log :
  getStack s key σ = (stack, err, log) ->
  Forall (fun ev => exists r, ev = EvLog r) log.
Proof.
  rewrite getStack_cases. destruct (GetStack σ key) as [blob e].
  destruct (errors_Is e ErrStateNotFound).
  { intros [= <- <- <-]. constructor. }
  destruct e.
  { intros [= <- <- <-]. constructor. }
  destruct (Json.Unmarshal blob) as [ns|].
  2:{ intros [= <- <- <-]. repeat constructor. eauto. }
  destruct (omap _ ns); intros [= <- <- <-]; constructor.
Qed.

(** C4.  The read path of the state stack does not turn a corrupted
    stack into an error.  With [(blob, err)] what the storage returns for
    the conversation: when the blob is absent ([err] is
    [ErrStateNotFound]), [getStack] returns no stack and no error, and
    [StateHandler.Handle] declines with [ErrPass]; when the blob does not
    parse, the same, with a record in the log; when it parses, no error is
    returned, the stack is the states registered under the names, in
    order, a name that is not registered being left out, and no stack at
    all when none is left; and an error comes out of [getStack] only when
    the storage itself returned one that is not [ErrStateNotFound]. *)
Theorem getStack_soft_failure s key σ blob err :
  GetStack σ key = (blob, err) ->
  (errors_Is err ErrStateNotFound = true ->
     getStack s key σ = (None, None, [])
     /\ forall ctx env,
          chatKey ctx = key ->
          StateHandler_Handle s ctx (mkWorld σ env)
          = Ok (Some ErrPass, mkWorld σ env, []))
  /\ (err = None -> Json.Unmarshal blob = None ->
      exists log,
        getStack s key σ = (None, None, log)
        /\ forall ctx env,
             chatKey ctx = key ->
             StateHandler_Handle s ctx (mkWorld σ env)
             = Ok (Some ErrPass, mkWorld σ env, log))
  /\ (err = None -> forall ns, Json.Unmarshal blob = Some ns ->
      exists stack,
        getStack s key σ = (stack, None, [])
        /\ elems stack = omap (fun name => states s !! name) ns
        /\ (stack = None <-> omap (fun name => states s !! name) ns = [])
        /\ forall before ghost after,
             ns = before ++ ghost :: after ->
             states s !! ghost = None ->
             elems stack
             = omap (fun name => states s !! name) before
               ++ omap (fun name => states s !! name) after)
  /\ (forall e, (getStack s key σ).1.2 = Some e ->
      exists e0, err = Some e0
                 /\ errors_Is err ErrStateNotFound = false
                 /\ e = wrapError "failed to get stack: " e0).
Proof.
  intros Hget. pose proof (getStack_cases s key σ) as Hc.
  rewrite Hget in Hc. split; [|split; [|split]].
  - intros Hnf. rewrite Hnf in Hc. split; [exact Hc|].
    intros ctx env <-. unfold StateHandler_Handle. simpl. by rewrite Hc.
  - intros -> Hbad. simpl in Hc. rewrite Hbad in Hc.
    eexists. split; [exact Hc|].
    intros ctx env <-. unfold StateHandler_Handle. simpl. by rewrite Hc.
  - intros -> ns Hns. simpl in Hc. rewrite Hns in Hc.
    destruct (omap _ ns) as [|st sts] eqn:Hom.
    + exists None. split; [exact Hc|]. split; [done|]. split; [done|].
      intros before ghost after -> Hg.
      rewrite omap_lookup_unknown in Hom by done. by rewrite Hom.
    + exists (Some (st :: sts)). split; [exact Hc|]. split; [done|].
      split; [done|].
      intros before ghost after -> Hg.
      rewrite omap_lookup_unknown in Hom by done. by rewrite Hom.
  - intros e He. rewrite Hc in He.
    destruct (errors_Is err ErrStateNotFound) eqn:Hnf; [discriminate|].
    destruct err as [e0|].
    + simpl in He. injection He as <-. eauto.
    + destruct (Json.Unmarshal blob); [|discriminate].
      by destruct (omap _ _).
Qed.

(** C10.  [getStack] never returns a stack that is not [nil] and has no
    state: its stack is [nil] or a list, with at least one state, of
    states of the registry.  So [StateHandler.Handle] does not panic on
    [stack[len(stack)-1]]: it returns the error of [getStack], or declines
    when there is no stack, or hands the update to the last state of the
    stack, which is a state of the registry, with the logger tagged by the
    name of that state. *)
Theorem getStack_never_empty s key σ :
  (forall l, (getStack s key σ).1.1 = Some l ->
     l <> []
     /\ Forall (fun st => exists name, states s !! name = Some st) l)
  /\ forall ctx env,
       chatKey ctx = key ->
       match getStack s key σ with
       | (_, Some e, log) =>
           StateHandler_Handle s ctx (mkWorld σ env)
           = Ok (Some e, mkWorld σ env, log)
       | (None, None, log) =>
           StateHandler_Handle s ctx (mkWorld σ env)
           = Ok (Some ErrPass, mkWorld σ env, log)
       | (Some l, None, log) =>
           exists top,
             last l = Some top
             /\ (exists name, states s !! name = Some top)
             /\ StateHandler_Handle s ctx (mkWorld σ env)
                = let '(r, env') :=
                    Handle (handler top)
                      (ContextWithLogger ctx
                         (With (logger ctx) "state"
                               (AttrString (StateName top)))) env in
                  Ok (r, mkWorld σ env', log ++ [EvHandle top])
       end.
Proof.
  split.
  - intros l Hl. destruct (getStack s key σ) as [[stack err] log] eqn:Hg.
    simpl in Hl. subst stack.
    destruct (getStack_stack _ _ _ _ _ _ Hg) as [Hne Hv].
    split; [congruence | exact Hv].
  - intros ctx env <-. unfold StateHandler_Handle. simpl.
    destruct (getStack s (chatKey ctx) σ) as [[stack err] log] eqn:Hg.
    destruct err as [e|]; [by destruct stack|].
    destruct stack as [l|]; [|done].
    destruct (getStack_stack _ _ _ _ _ _ Hg) as [Hne Hv]. simpl in Hv.
    destruct (last l) as [top|] eqn:Hlast.
    + exists top. split; [done|]. split; [|done].
      rewrite Forall_forall in Hv. apply Hv.
      apply last_Some in Hlast as [l' ->]. set_solver.
    + apply last_None in Hlast. congruence.
Qed.

End ReadPath.

(** ** Transitions on the in-memory state storage *)

Section Transitions.
Context `{Transport} {Env : Type}.
Import State.
Implicit Types (s : StateHandler (Env := Env)) (st dest : State (Env := Env)).
Implicit Types (σ : memoryStateStore) (ctx : Context).
Implicit Types (w : World (Store := memoryStateStore) (Env := Env)).

(** The in-memory storage returns no error but [ErrStateNotFound], so
    [getStack] returns none. *)
Lemma getStack_memory_no_error s key σ : (getStack s key σ).1.2 = None.
Proof.
  rewrite getStack_cases. simpl. destruct (σ !! key) as [blob|]; [|done].
  simpl. destruct (Json.Unmarshal blob); [|done]. by destruct (omap _ _).
Qed.

Lemma memory_lookup_insert σ key (blob : list byte) :
  <[key := blob]> σ !! key = Some blob.
Proof. apply lookup_insert_eq. Qed.

Lemma setStack_memory s key stack σ :
  setStack s key stack σ
  = (None, <[key := Json.Marshal (knownNames s (elems stack))]> σ,
     [EvSetStack key (Json.Marshal (knownNames s (elems stack)))]).
Proof. reflexivity. Qed.

(** The stack [toState.Go] writes for the state [dest] on the stack [old]. *)
Lemma toState_Go_memory s dest ctx w stack log :
  registry_ok s -> registered s dest ->
  getStack s (chatKey ctx) (storage w) = (stack, None, log) ->
  let new :=
    match IndexFunc (elems stack) (StateName dest) with
    | Some idx => take (idx + 1) (elems stack)
    | None => elems stack ++ [dest]
    end in
  let blob := Json.Marshal (names new) in
  toState_Go s dest ctx w
  = let '(r, env') := Render dest ctx (env w) in
    (r, mkWorld (<[chatKey ctx := blob]> (storage w)) env',
     log ++ [EvSetStack (chatKey ctx) blob; EvRender dest]).
Proof.
  intros Hok HS Hg new blob. unfold toState_Go. rewrite Hg.
  pose proof (getStack_registered _ _ _ _ _ _ Hok Hg) as Hreg.
  rewrite setStack_memory.
  assert (Hnew : elems (match IndexFunc (elems stack) (StateName dest) with
                        | Some idx => take (idx + 1) <$> stack
                        | None => Some (elems stack ++ [dest])
                        end) = new).
  { unfold new. destruct (IndexFunc (elems stack) (StateName dest)) as [idx|] eqn:Hi;
      [|done].
    destruct stack; [done|]. simpl in Hi. discriminate. }
  rewrite Hnew.
  assert (Hall : Forall (registered s) new).
  { unfold new. destruct (IndexFunc _ _).
    - by apply Forall_take.
    - apply Forall_app. split; [done|]. by constructor. }
  rewrite (knownNames_registered _ _ Hall). fold blob.
  by destruct (Render dest ctx (env w)).
Qed.

(** C6.  [toState(dest).Go] stores the stack, then calls [dest.Render]; when
    [Render] fails, [Go] returns its error and the stack stored stays the
    stack with the push or the truncation: nothing is rolled back. *)
Theorem toState_Go_render_failure s dest ctx w stack log e env' :
  registry_ok s -> registered s dest ->
  getStack s (chatKey ctx) (storage w) = (stack, None, log) ->
  Render dest ctx (env w) = (Some e, env') ->
  let new :=
    match IndexFunc (elems stack) (StateName dest) with
    | Some idx => take (idx + 1) (elems stack)
    | None => elems stack ++ [dest]
    end in
  let blob := Json.Marshal (names new) in
  Go (toState dest) s ctx w
  = (Some e, mkWorld (<[chatKey ctx := blob]> (storage w)) env',
     log ++ [EvSetStack (chatKey ctx) blob; EvRender dest])
  /\ storage (Go (toState dest) s ctx w).1.2 !! chatKey ctx = Some blob.
Proof.
  intros Hok HS Hg Hr new blob.
  pose proof (toState_Go_memory s dest ctx w stack log Hok HS Hg) as Hgo.
  simpl in Hgo. rewrite Hr in Hgo.
  change (Go (toState dest) s ctx w) with (toState_Go s dest ctx w).
  rewrite Hgo. split; [done|]. simpl. apply lookup_insert_eq.
Qed.

(** With any storage: when storing the stack fails, [dest.Render] is not
    called. *)
Lemma toState_Go_store_failure {Store : Type} `{StateStorage Store}
    s dest ctx (w : World (Store := Store) (Env := Env)) stack log e
    (after : Store) set :
  getStack s (chatKey ctx) (storage w) = (stack, None, log) ->
  setStack s (chatKey ctx)
    (match IndexFunc (elems stack) (StateName dest) with
     | Some idx => take (idx + 1) <$> stack
     | None => Some (elems stack ++ [dest])
     end) (storage w) = (Some e, after, set) ->
  Go (toState dest) s ctx w = (Some e, mkWorld after (env w), log ++ set).
Proof. intros Hg Hs. simpl. unfold toState_Go. by rewrite Hg, Hs. Qed.

(** C3.  [back.Go] on the stack that [getStack] reads for the
    conversation.  On no stack it changes nothing, calls no [Render] and
    returns no error.  On a stack [rest ++ [top]] it stores [rest]; then
    it renders the last state of [rest] and returns what that returns,
    when [rest] has a state; and when [rest] has none, the stack read
    back is no stack, no [Render] is called and no error returned. *)
Theorem back_Go_stack s ctx w stack log :
  registry_ok s ->
  getStack s (chatKey ctx) (storage w) = (stack, None, log) ->
  (elems stack = [] ->
     Go back s ctx w = (None, w, log)
     /\ forall st, EvRender st ∉ log)
  /\ (forall rest top, elems stack = rest ++ [top] ->
      let blob := Json.Marshal (names rest) in
      let σ' := <[chatKey ctx := blob]> (storage w) in
      match last rest with
      | Some below =>
          Go back s ctx w
          = let '(r, env') := Render below ctx (env w) in
            (r, mkWorld σ' env',
             log ++ [EvSetStack (chatKey ctx) blob; EvRender below])
      | None =>
          Go back s ctx w
          = (None, mkWorld σ' (env w), log ++ [EvSetStack (chatKey ctx) blob])
          /\ getStack s (chatKey ctx) σ' = (None, None, [])
          /\ forall st, EvRender st ∉ log ++ [EvSetStack (chatKey ctx) blob]
      end).
Proof.
  intros Hok Hg.
  pose proof (getStack_registered _ _ _ _ _ _ Hok Hg) as Hreg.
  pose proof (getStack_log _ _ _ _ _ _ Hg) as Hlog.
  assert (Hnolog : forall st, EvRender st ∉ log).
  { intros st Hin. rewrite Forall_forall in Hlog.
    destruct (Hlog _ Hin) as [r Hr]. discriminate. }
  split.
  - intros Hempty. change (Go back s ctx w) with (back_Go s ctx w).
    unfold back_Go. rewrite Hg. unfold len. rewrite Hempty. simpl. done.
  - intros rest top Hst blob σ'.
    change (Go back s ctx w) with (back_Go s ctx w).
    unfold back_Go. rewrite Hg.
    unfold len. rewrite Hst, length_app. cbn [List.length].
    replace (List.length rest + 1 =? 0)%nat with false
      by (symmetry; apply Nat.eqb_neq; lia).
    rewrite setStack_memory.
    assert (Hrest : elems (take (List.length rest + 1 - 1) <$> stack) = rest).
    { destruct stack as [l|]; simpl in *.
      - subst l. replace (List.length rest + 1 - 1) with (List.length rest) by lia.
        by rewrite take_app_length.
      - by destruct rest. }
    rewrite Hrest.
    assert (Hall : Forall (registered s) rest).
    { rewrite Hst in Hreg. by apply Forall_app in Hreg as [? _]. }
    rewrite (knownNames_registered _ _ Hall). fold blob. fold σ'.
    destruct (last rest) as [below|] eqn:Hlast.
    + by destruct (Render below ctx (env w)).
    + split; [done|]. apply last_None in Hlast. subst rest. split.
      * rewrite getStack_cases. unfold σ', GetStack, memoryStateStorage.
        rewrite memory_lookup_insert. reflexivity.
      * intros st Hin. apply elem_of_app in Hin as [Hin|Hin].
        -- by apply (Hnolog st).
        -- apply list_elem_of_singleton in Hin. discriminate.
Qed.

End Transitions.

(** ** Chained registration *)

Section Chaining.
Context `{Transport} {Env : Type}.
Import State.
Implicit Types (s : StateHandler (Env := Env)).
Implicit Types (c : ChainableState (Env := Env)).
Implicit Types (bw css : list (ChainableState (Env := Env))).
Implicit Types (nexts : gmap nat (Transition (Env := Env))).
Implicit Types (t : option (Transition (Env := Env))).

Lemma registerAll_lookup_other bw : forall m name,
  name ∉ chainedName <$> bw -> registerAll m bw !! name = m !! name.
Proof.
  induction bw as [|c bw IH]; intros m name Hn; simpl; [done|].
  rewrite fmap_cons, not_elem_of_cons in Hn. destruct Hn as [Hne Hn].
  rewrite IH by done. by rewrite lookup_insert_ne.
Qed.

Lemma registerAll_lookup bw : forall m c,
  NoDup (chainedName <$> bw) -> c ∈ bw ->
  registerAll m bw !! chainedName c = Some (chained c).
Proof.
  induction bw as [|c0 bw IH]; intros m c Hnd Hin; simpl.
  - by apply elem_of_nil in Hin.
  - rewrite fmap_cons in Hnd. apply NoDup_cons in Hnd as [Hfresh Hnd].
    apply elem_of_cons in Hin as [->|Hin].
    + rewrite registerAll_lookup_other by done. apply lookup_insert_eq.
    + by apply IH.
Qed.

Lemma chainStates_ok bw : forall s nexts t,
  NoDup (chainedName <$> bw) ->
  (forall c, c ∈ bw -> states s !! chainedName c = None) ->
  chainStates s nexts (Some <$> bw) t
  = Ok ({| sh_logger := sh_logger s; states := registerAll (states s) bw |},
        linkAll nexts bw t,
        match last bw with
        | Some c => Some (toState (chained c))
        | None => t
        end).
Proof.
  induction bw as [|c bw IH]; intros s nexts t Hnd Hfresh.
  - simpl. by destruct s.
  - rewrite fmap_cons in Hnd. apply NoDup_cons in Hnd as [Hc Hnd].
    rewrite fmap_cons. cbn [chainStates].
    assert (Has : match t, Some c with
                  | None, _ => Ok nexts
                  | Some tr, Some cs => Ok (<[Next cs := tr]> nexts)
                  | Some _, None =>
                      Panic "invalid memory address or nil pointer dereference" []
                  end
                  = Ok (match t with
                        | Some tr => <[Next c := tr]> nexts
                        | None => nexts
                        end)) by (by destruct t).
    rewrite Has. clear Has.
    unfold RegisterState. cbn [fmap option_fmap option_map].
    fold (chainedName c). rewrite (Hfresh c) by (apply elem_of_cons; by left).
    rewrite IH; [|done|].
    + cbn [sh_logger states registerAll foldl]. f_equal. f_equal.
      rewrite last_cons. by destruct (last bw).
    + intros c' Hin. cbn [states]. rewrite lookup_insert_ne.
      * apply Hfresh. apply elem_of_cons. by right.
      * intros Heq. apply Hc. rewrite Heq. by apply list_elem_of_fmap_2.
Qed.

Lemma linkAll_lookup_other bw : forall nexts t a,
  a ∉ Next <$> bw ->
  linkAll nexts bw t !! a = nexts !! a.
Proof.
  induction bw as [|c bw IH]; intros nexts t a Ha; simpl; [done|].
  rewrite fmap_cons, not_elem_of_cons in Ha. destruct Ha as [Hne Ha].
  rewrite IH by done. destruct t; [|done]. by rewrite lookup_insert_ne.
Qed.

(** The variable of the state at position [k] of [bw] holds the transition
    to the state before it in [bw], and for the head what [t] gives. *)
Lemma linkAll_lookup bw : forall nexts t k c,
  NoDup (Next <$> bw) -> bw !! k = Some c ->
  linkAll nexts bw t !! Next c
  = match k with
    | 0 => match t with
           | Some tr => Some tr
           | None => nexts !! Next c
           end
    | S k' => (fun c' => toState (chained c')) <$> bw !! k'
    end.
Proof.
  induction bw as [|c0 bw IH]; intros nexts t k c Hnd Hk; [done|].
  rewrite fmap_cons in Hnd. apply NoDup_cons in Hnd as [Hc0 Hnd].
  destruct k as [|k]; simpl in Hk.
  - injection Hk as ->. simpl. rewrite linkAll_lookup_other by done.
    destruct t; [apply lookup_insert_eq | done].
  - simpl. rewrite (IH _ _ k c Hnd Hk). destruct k as [|k]; [|done].
    simpl. done.
Qed.

End Chaining.

Section ChainingClaim.
Context `{Transport} {Env : Type}.
Import State.
Implicit Types (s : StateHandler (Env := Env)).
Implicit Types (c : ChainableState (Env := Env)).
Implicit Types (css : list (ChainableState (Env := Env))).
Implicit Types (nexts : gmap nat (Transition (Env := Env))).

Lemma registerAll_ok css : forall (m : gmap string (State (Env := Env))),
  (forall name st, m !! name = Some st -> StateName st = name) ->
  forall name st, registerAll m css !! name = Some st -> StateName st = name.
Proof.
  induction css as [|c css IH]; intros m Hm; simpl; [done|].
  apply IH. intros name st Hl.
  destruct (decide (chainedName c = name)) as [<-|Hne].
  - rewrite lookup_insert_eq in Hl. by injection Hl as <-.
  - rewrite lookup_insert_ne in Hl by done. by apply Hm.
Qed.

(** What [RegisterAndChainStates] does to a list of states that are not
    [nil], have names different from each other and from the registered
    ones, and have a [Transition] variable each. *)
Lemma RegisterAndChainStates_ok s nexts css :
  css <> [] ->
  NoDup (chainedName <$> css) ->
  NoDup (Next <$> css) ->
  (forall c, c ∈ css -> states s !! chainedName c = None) ->
  exists s' nexts',
    RegisterAndChainStates s nexts (Some <$> css)
    = Ok (s', nexts', (fun c => toState (chained c)) <$> head css)
    /\ (forall c, c ∈ css -> registered s' (chained c))
    /\ (forall name, name ∉ chainedName <$> css ->
          states s' !! name = states s !! name)
    /\ (forall i c c', css !! i = Some c -> css !! S i = Some c' ->
          nexts' !! Next c = Some (toState (chained c')))
    /\ (forall c, last css = Some c -> nexts' !! Next c = nexts !! Next c)
    /\ (forall a, a ∉ Next <$> css -> nexts' !! a = nexts !! a)
    /\ (registry_ok s -> registry_ok s').
Proof.
  intros Hne Hnames Hslots Hfresh.
  exists {| sh_logger := sh_logger s;
            states := registerAll (states s) (reverse css) |},
         (linkAll nexts (reverse css) None).
  assert (Hnames' : NoDup (chainedName <$> reverse css))
    by (rewrite fmap_reverse; by rewrite reverse_Permutation).
  assert (Hslots' : NoDup (Next <$> reverse css))
    by (rewrite fmap_reverse; by rewrite reverse_Permutation).
  split; [|split; [|split; [|split; [|split; [|split]]]]].
  - unfold RegisterAndChainStates.
    destruct css as [|c0 css0] eqn:Hcss; [done|]. rewrite <- Hcss in *.
    assert (Hsome : Some <$> css = Some c0 :: (Some <$> css0))
      by (by rewrite Hcss).
    rewrite Hsome. rewrite <- Hsome. rewrite <- fmap_reverse.
    rewrite chainStates_ok; [|done|].
    + rewrite last_reverse. by destruct (head css).
    + intros c Hin. apply Hfresh. by apply elem_of_reverse.
  - intros c Hin. unfold registered. simpl.
    apply registerAll_lookup; [done | by apply elem_of_reverse].
  - intros name Hn. simpl. apply registerAll_lookup_other.
    by rewrite fmap_reverse, elem_of_reverse.
  - intros i c c' Hi Hi'.
    assert (Hlt : S i < List.length css) by (eapply lookup_lt_Some; exact Hi').
    assert (Hk : reverse css !! (List.length css - S i) = Some c).
    { rewrite reverse_lookup by lia. rewrite <- Hi. f_equal. lia. }
    rewrite (linkAll_lookup _ _ _ _ _ Hslots' Hk).
    destruct (List.length css - S i) as [|k'] eqn:Hk'; [lia|].
    rewrite reverse_lookup by lia.
    replace (List.length css - S k') with (S i) by lia. by rewrite Hi'.
  - intros c Hlast.
    assert (Hk : reverse css !! 0 = Some c).
    { rewrite <- head_lookup. by rewrite head_reverse. }
    by rewrite (linkAll_lookup _ _ _ _ _ Hslots' Hk).
  - intros a Ha. apply linkAll_lookup_other.
    by rewrite fmap_reverse, elem_of_reverse.
  - intros Hok name st. simpl. by apply registerAll_ok.
Qed.

End ChainingClaim.

(** C9, amended.  For a list of chainable states that has a state,
    [RegisterAndChainStates] registers them all, sets the [Transition]
    variable of each state but the last to the transition to the state
    that follows it, leaves the variable of the last state (and every other
    variable) as it is, and returns the transition to the first state.
    The states are not [nil], their names differ from each other and from
    the names registered before, and each has a variable of its own:
    otherwise registration panics or the variables are shared.  In the
    quiz bot, where the caller set the variable of "quiz" to the
    transition back: after the transitions to "main" and to "quiz" the
    stack is main, quiz; the transition in the variable of "quiz" then
    stores the stack main and renders "main" again. *)
Theorem RegisterAndChainStates_chain :
  (forall (T : Transport) (Env : Type)
          (s : State.StateHandler (Env := Env))
          (nexts : gmap nat (State.Transition (Env := Env)))
          (css : list (State.ChainableState (Env := Env))),
     css <> [] ->
     NoDup (State.chainedName <$> css) ->
     NoDup (State.Next <$> css) ->
     (forall c, c ∈ css -> State.states s !! State.chainedName c = None) ->
     exists s' nexts',
       State.RegisterAndChainStates s nexts (Some <$> css)
       = Ok (s', nexts', (fun c => State.toState (State.chained c)) <$> head css)
       /\ (forall c, c ∈ css -> State.registered s' (State.chained c))
       /\ (forall name, name ∉ State.chainedName <$> css ->
             State.states s' !! name = State.states s !! name)
       /\ (forall i c c', css !! i = Some c -> css !! S i = Some c' ->
             nexts' !! State.Next c = Some (State.toState (State.chained c')))
       /\ (forall c, last css = Some c ->
             nexts' !! State.Next c = nexts !! State.Next c)
       /\ (forall a, a ∉ State.Next <$> css -> nexts' !! a = nexts !! a)
       /\ (State.registry_ok s -> State.registry_ok s'))
  /\ (let ctx := Examples.someContext in
      let main := Examples.mainState in
      let quiz := Examples.quizState in
      exists nexts events,
        State.RegisterAndChainStates (State.NewStateHandler [])
          (<[1 := State.Back]> ∅)
          [Some Examples.mainChain; Some Examples.quizChain]
        = Ok (Examples.quizBot, nexts, Some (State.toState main))
        /\ nexts !! 0 = Some (State.toState quiz)
        /\ nexts !! 1 = Some State.back
        /\ (State.Go (State.toState main) Examples.quizBot ctx
              (State.mkWorld State.NewInMemoryStateStore [])).1
           = (None, Examples.quizWorld ["main"] ["main rendered"])
        /\ (State.Go (State.toState quiz) Examples.quizBot ctx
              (Examples.quizWorld ["main"] ["main rendered"])).1
           = (None, Examples.quizWorld ["main"; "quiz"]
                      ["main rendered"; "quiz rendered"])
        /\ State.getStack Examples.quizBot "42"
             (Examples.stored ["main"; "quiz"])
           = (Some [main; quiz], None, [])
        /\ State.Go State.back Examples.quizBot ctx
             (Examples.quizWorld ["main"; "quiz"]
                ["main rendered"; "quiz rendered"])
           = (None,
              Examples.quizWorld ["main"]
                ["main rendered"; "quiz rendered"; "main rendered"],
              events)
        /\ last events = Some (State.EvRender main)
        /\ State.getStack Examples.quizBot "42" (Examples.stored ["main"])
           = (Some [main], None, [])).
Proof.
  split.
  - intros T Env s nexts css. apply RegisterAndChainStates_ok.
  - eexists. eexists.
    split; [vm_compute; reflexivity|].
    split; [vm_compute; reflexivity|].
    split; [vm_compute; reflexivity|].
    split; [vm_compute; reflexivity|].
    split; [vm_compute; reflexivity|].
    split; [vm_compute; reflexivity|].
    split; [vm_compute; reflexivity|].
    split; vm_compute; reflexivity.
Qed.

(** ** Data storage *)

Section DataFacts.
Context `{Transport} `{Reflect}.
Import Data.
Implicit Types (m : memoryStore) (c : Context) (key : DataKey) (v : Value).

Lemma storedValue_SetData m chat k value chat' k' :
  storedValue (memoryStore_SetData m chat k value).2 chat' k'
  = if String.eqb chat chat' && String.eqb k k'
    then Some value else storedValue m chat' k'.
Proof.
  unfold memoryStore_SetData, LoadOrStore, storedValue, memoryStore in *.
  destruct (String.eqb_spec chat chat') as [<-|Hc]; simpl.
  - destruct (m !! chat) as [d|] eqn:Hm; simpl; rewrite lookup_insert_eq.
    + destruct (String.eqb_spec k k') as [<-|Hk].
      * apply lookup_insert_eq.
      * by rewrite lookup_insert_ne.
    + destruct (String.eqb_spec k k') as [<-|Hk].
      * apply lookup_insert_eq.
      * rewrite lookup_insert_ne by done. apply lookup_empty.
  - destruct (m !! chat) as [d|] eqn:Hm; simpl.
    + by rewrite lookup_insert_ne.
    + by rewrite !lookup_insert_ne.
Qed.

Lemma storedValue_RemoveData m chat k chat' k' :
  storedValue (memoryStore_RemoveData m chat k).2 chat' k'
  = if String.eqb chat chat' && String.eqb k k'
    then None else storedValue m chat' k'.
Proof.
  unfold memoryStore_RemoveData, LoadOrStore, storedValue, memoryStore in *.
  destruct (String.eqb_spec chat chat') as [<-|Hc]; simpl.
  - destruct (m !! chat) as [d|] eqn:Hm; simpl; rewrite lookup_insert_eq.
    + destruct (String.eqb_spec k k') as [<-|Hk].
      * apply lookup_delete_eq.
      * by rewrite lookup_delete_ne.
    + destruct (String.eqb_spec k k') as [<-|Hk].
      * apply lookup_delete_eq.
      * rewrite lookup_delete_ne by done. apply lookup_empty.
  - destruct (m !! chat) as [d|] eqn:Hm; simpl.
    + by rewrite lookup_insert_ne.
    + by rewrite !lookup_insert_ne.
Qed.

Lemma storedValue_ClearData m chat chat' k' :
  storedValue (memoryStore_ClearData m chat).2 chat' k'
  = if String.eqb chat chat' then None else storedValue m chat' k'.
Proof.
  unfold memoryStore_ClearData, storedValue, memoryStore in *. simpl.
  destruct (String.eqb_spec chat chat') as [<-|Hc].
  - by rewrite lookup_delete_eq.
  - by rewrite lookup_delete_ne.
Qed.

(** On the in-memory store the three operations return no error. *)
Lemma Set_memory c key value m :
  Set_ c key value m
  = (None, (memoryStore_SetData m (chatKey c) (key_name key) value).2).
Proof.
  unfold Set_, SetData, memoryDataStorage, memoryStore_SetData.
  by destruct (LoadOrStore m (chatKey c)).
Qed.

Lemma Remove_memory c key m :
  Remove c key m
  = (None, (memoryStore_RemoveData m (chatKey c) (key_name key)).2).
Proof.
  unfold Remove, RemoveData, memoryDataStorage, memoryStore_RemoveData.
  by destruct (LoadOrStore m (chatKey c)).
Qed.

Lemma Clear_memory c m :
  Clear c m = (None, (memoryStore_ClearData m (chatKey c)).2).
Proof. reflexivity. Qed.

(** The store after a history holds what the history says. *)
Lemma storedValue_performAll c ops chat k :
  storedValue (performAll c ops) chat k = held (reverse ops) chat k.
Proof.
  unfold performAll. induction ops as [|op ops IH] using rev_ind.
  - reflexivity.
  - rewrite foldl_app, reverse_app. cbn [foldl].
    change (reverse [op]) with [op]. cbn [app].
    destruct op as [ch key value|ch key|ch]; cbn [perform held].
    + rewrite Set_memory. cbn [snd contextOf Handler.chatKey].
      rewrite storedValue_SetData. rewrite IH. by destruct (_ && _).
    + rewrite Remove_memory. cbn [snd contextOf Handler.chatKey].
      rewrite storedValue_RemoveData. rewrite IH. by destruct (_ && _).
    + rewrite Clear_memory. cbn [snd contextOf Handler.chatKey].
      rewrite storedValue_ClearData. rewrite IH.
      by destruct (String.eqb _ _).
Qed.

(** [GetData] and [Get] by the value the store holds. *)
Lemma GetData_storedValue m chat k T :
  memoryStore_GetData m chat k T
  = match storedValue m chat k with
    | None => Ok (Some ErrDataKeyNotFound, None)
    | Some None => Panic "reflect: call of reflect.Value.Type on zero Value" []
    | Some (Some v) =>
        if negb (AssignableTo (TypeOf v) T)
        then Ok (Some (errorString
                         ("stored value of type " +:+ TypeString (TypeOf v)
                          +:+ " is not assignable to type " +:+ TypeString T)),
                 None)
        else Ok (None, Some v)
    end.
Proof.
  unfold memoryStore_GetData, storedValue.
  destruct (m !! chat) as [d|]; [|done]. by destruct (d !! k) as [[v|]|].
Qed.

Lemma Get_not_found m c key :
  storedValue m (chatKey c) (key_name key) = None ->
  Get c key m = Ok (None, Some ErrDataKeyNotFound).
Proof.
  intros Hs. unfold Get. simpl. by rewrite GetData_storedValue, Hs.
Qed.

Lemma Get_found m c key v :
  storedValue m (chatKey c) (key_name key) = Some (Some v) ->
  AssignableTo (TypeOf v) (key_type key) = true ->
  Get c key m = Ok (Some v, None).
Proof.
  intros Hs Ha. unfold Get. simpl. by rewrite GetData_storedValue, Hs, Ha.
Qed.

(** The life of a data key of a conversation in the in-memory store, for
    values that are not [nil].  After any history of [Set], [Remove] and
    [Clear] on a new store: when the key was never set, or was removed, or
    its conversation cleared, since it was last set, [Get] returns
    [ErrDataKeyNotFound] itself; when it holds a value whose type is
    assignable to the type asked for, [Get] returns that value and no
    error.  And on any store: [Get] right after [Set] of such a value
    returns the value; [Get] after [Remove] of the key, and [Get] of any
    key after [Clear] of the conversation, return [ErrDataKeyNotFound]. *)
Lemma data_key_lifecycle c key :
  (forall ops,
      held (reverse ops) (chatKey c) (key_name key) = None ->
      Get c key (performAll c ops) = Ok (None, Some ErrDataKeyNotFound))
  /\ (forall ops v,
      held (reverse ops) (chatKey c) (key_name key) = Some (Some v) ->
      AssignableTo (TypeOf v) (key_type key) = true ->
      Get c key (performAll c ops) = Ok (Some v, None))
  /\ (forall m v,
      AssignableTo (TypeOf v) (key_type key) = true ->
      (Set_ c key (Some v) m).1 = None
      /\ Get c key (Set_ c key (Some v) m).2 = Ok (Some v, None))
  /\ (forall m,
      (Remove c key m).1 = None
      /\ Get c key (Remove c key m).2 = Ok (None, Some ErrDataKeyNotFound))
  /\ (forall m key',
      (Clear c m).1 = None
      /\ Get c key' (Clear c m).2 = Ok (None, Some ErrDataKeyNotFound))
  /\ Get c key NewInMemoryDataStore = Ok (None, Some ErrDataKeyNotFound).
Proof.
  split; [|split; [|split; [|split; [|split]]]].
  - intros ops Hh. apply Get_not_found. by rewrite storedValue_performAll.
  - intros ops v Hh Ha. apply Get_found with (v := v); [|done].
    by rewrite storedValue_performAll.
  - intros m v Ha. rewrite Set_memory. split; [done|].
    apply Get_found with (v := v); [|done]. cbn [snd].
    rewrite storedValue_SetData. by rewrite !String.eqb_refl.
  - intros m. rewrite Remove_memory. split; [done|]. apply Get_not_found.
    cbn [snd]. rewrite storedValue_RemoveData. by rewrite !String.eqb_refl.
  - intros m key'. rewrite Clear_memory. split; [done|]. apply Get_not_found.
    cbn [snd]. rewrite storedValue_ClearData. by rewrite String.eqb_refl.
  - by apply Get_not_found.
Qed.

(** C7 at the [nil] interface value.  [Set] stores it, and [Get] then
    panics where [GetData] asks [reflect] for the type of the value: it
    does not return the stored value, whatever the type asked for. *)
Theorem Get_after_Set_nil m c key :
  (Set_ c key None m).1 = None
  /\ storedValue (Set_ c key None m).2 (chatKey c) (key_name key) = Some None
  /\ Get c key (Set_ c key None m).2
     = Panic "reflect: call of reflect.Value.Type on zero Value" [].
Proof.
  rewrite Set_memory. cbn [fst snd].
  assert (Hs : storedValue
                 (memoryStore_SetData m (chatKey c) (key_name key) None).2
                 (chatKey c) (key_name key) = Some None).
  { rewrite storedValue_SetData. by rewrite !String.eqb_refl. }
  split; [done|]. split; [exact Hs|].
  unfold Get. cbn [GetData memoryDataStorage].
  by rewrite GetData_storedValue, Hs.
Qed.

(** C8.  When the store holds for the key a value whose type is not
    assignable to the type asked for, [GetData] returns an error that
    tells the two types, and [Get] returns it wrapped: an error that is
    not [nil] and that [errors.Is] does not take for
    [ErrDataKeyNotFound]. *)
Theorem Get_type_mismatch m c key v :
  storedValue m (chatKey c) (key_name key) = Some (Some v) ->
  AssignableTo (TypeOf v) (key_type key) = false ->
  let mismatch :=
    errorString ("stored value of type " +:+ TypeString (TypeOf v)
                 +:+ " is not assignable to type "
                 +:+ TypeString (key_type key)) in
  GetData m (chatKey c) (key_name key) (key_type key)
  = Ok (Some mismatch, None)
  /\ Get c key m = Ok (None, Some (wrapError "failed to get data: " mismatch))
  /\ errors_Is (Some mismatch) ErrDataKeyNotFound = false
  /\ errors_Is (Some (wrapError "failed to get data: " mismatch))
       ErrDataKeyNotFound = false
  /\ wrapError "failed to get data: " mismatch <> ErrDataKeyNotFound.
Proof.
  intros Hs Ha mismatch.
  assert (Hg : GetData m (chatKey c) (key_name key) (key_type key)
               = Ok (Some mismatch, None)).
  { simpl. by rewrite GetData_storedValue, Hs, Ha. }
  split; [exact Hg|]. split; [|done].
  unfold Get. by rewrite Hg.
Qed.

End DataFacts.

(** ** The theorems at work on the quiz bot *)

Lemma registry_ok_quizHandler : State.registry_ok Examples.quizHandler.
Proof.
  intros name st. unfold Examples.quizHandler. cbn [State.states].
  rewrite !lookup_insert, lookup_empty.
  repeat case_decide; intros [= <-]; subst; reflexivity.
Qed.

(** C2, as stated, fails on a stored stack that holds a state twice: on
    main, quiz, main the state "main" appears at index 2, and the
    transition to "main" stores the stack main, not the first three
    entries. *)
Lemma toState_Go_stack_counterexample :
  let w := Examples.quizWorld ["main"; "quiz"; "main"] [] in
  State.getStack Examples.quizHandler "42" (State.storage w)
  = (Some [Examples.mainState; Examples.quizState; Examples.mainState],
     None, [])
  /\ State.names
       [Examples.mainState; Examples.quizState; Examples.mainState] !! 2
     = Some (State.StateName Examples.mainState)
  /\ State.storage
       (State.Go (State.toState Examples.mainState) Examples.quizHandler
          Examples.someContext w).1.2 !! "42"
     = Some (Json.Marshal ["main"])
  /\ Json.Marshal ["main"]
     <> Json.Marshal
          (State.names
             (take (2 + 1)
                [Examples.mainState; Examples.quizState; Examples.mainState])).
Proof.
  split; [vm_compute; reflexivity|].
  split; [vm_compute; reflexivity|].
  split; [vm_compute; reflexivity|].
  vm_compute. discriminate.
Qed.

(** From the stack main, quiz, going back stores main and renders it. *)
Lemma back_Go_stack_witness :
  State.Go State.back Examples.quizHandler Examples.someContext
    (Examples.quizWorld ["main"; "quiz"] [])
  = (None, Examples.quizWorld ["main"] ["main rendered"],
     [State.EvSetStack "42" (Json.Marshal ["main"]);
      State.EvRender Examples.mainState]).
Proof.
  exact (proj2 (back_Go_stack Examples.quizHandler Examples.someContext
           (Examples.quizWorld ["main"; "quiz"] [])
           (Some [Examples.mainState; Examples.quizState]) []
           registry_ok_quizHandler eq_refl)
         [Examples.mainState] Examples.quizState eq_refl).
Defined.

(** A blob that is no JSON is read as no stack, without an error. *)
Lemma getStack_soft_failure_witness :
  exists log,
    State.getStack Examples.quizHandler "42"
      (<["42" := [x7b]]> State.NewInMemoryStateStore)
    = (None, None, log).
Proof.
  assert (Hget : State.GetStack
                    (<["42" := [x7b]]> State.NewInMemoryStateStore) "42"
                  = ([x7b], None)) by (vm_compute; reflexivity).
  destruct (proj1 (proj2 (getStack_soft_failure Examples.quizHandler "42"
              (<["42" := [x7b]]> State.NewInMemoryStateStore) [x7b] None
              Hget)) eq_refl eq_refl) as [log [Hlog _]].
  exists log. exact Hlog.
Defined.

(** The state "broken" cannot render: the transition to it from the stack
    main returns the error, and the stack stored is main, broken. *)
Lemma toState_Go_render_failure_witness :
  State.Go (State.toState Examples.brokenState) Examples.quizHandler
    Examples.someContext (Examples.quizWorld ["main"] [])
  = (Some (errorString "send failed"),
     Examples.quizWorld ["main"; "broken"] [],
     [State.EvSetStack "42" (Json.Marshal ["main"; "broken"]);
      State.EvRender Examples.brokenState]).
Proof.
  exact (proj1 (toState_Go_render_failure Examples.quizHandler
           Examples.brokenState Examples.someContext
           (Examples.quizWorld ["main"] []) (Some [Examples.mainState]) []
           (errorString "send failed") []
           registry_ok_quizHandler eq_refl eq_refl eq_refl)).
Defined.

(** On the stack main, quiz, the update goes to "quiz". *)
Lemma getStack_never_empty_witness :
  State.StateHandler_Handle Examples.quizHandler Examples.someContext
    (Examples.quizWorld ["main"; "quiz"] [])
  = Ok (None, Examples.quizWorld ["main"; "quiz"] ["answer"],
        [State.EvHandle Examples.quizState]).
Proof.
  destruct (proj2 (getStack_never_empty Examples.quizHandler "42"
              (Examples.stored ["main"; "quiz"]))
            Examples.someContext [] eq_refl) as [top [Hlast [_ Hh]]].
  injection Hlast as <-. exact Hh.
Defined.

(** The two states of the quiz bot, chained on a new handler. *)
Lemma RegisterAndChainStates_chain_witness :
  exists s' nexts',
    State.RegisterAndChainStates (State.NewStateHandler [])
      (<[1 := State.Back]> ∅)
      [Some Examples.mainChain; Some Examples.quizChain]
    = Ok (s', nexts', Some (State.toState Examples.mainState)).
Proof.
  destruct (proj1 RegisterAndChainStates_chain _ _
              (State.NewStateHandler []) (<[1 := State.Back]> ∅)
              [Examples.mainChain; Examples.quizChain])
    as (s' & nexts' & Hr & _).
  - discriminate.
  - apply (bool_decide_unpack _). vm_compute. exact I.
  - apply (bool_decide_unpack _). vm_compute. exact I.
  - intros c _. reflexivity.
  - exists s', nexts'. exact Hr.
Defined.

(** The category of the quiz bot: read back as a string, refused as an
    integer. *)
Lemma data_key_lifecycle_category :
  Data.Get Examples.someContext Examples.categoryDataKey
    (Data.Set_ Examples.someContext Examples.categoryDataKey
       (Some (Examples.VString "math")) Data.NewInMemoryDataStore).2
  = Ok (Some (Examples.VString "math"), None).
Proof.
  exact (proj2 (proj1 (proj2 (proj2 (data_key_lifecycle Examples.someContext
           Examples.categoryDataKey)))
         Data.NewInMemoryDataStore (Examples.VString "math") eq_refl)).
Defined.

Lemma Get_type_mismatch_witness :
  Data.Get Examples.someContext Examples.categoryAsInt
    (Data.Set_ Examples.someContext Examples.categoryDataKey
       (Some (Examples.VString "math")) Data.NewInMemoryDataStore).2
  = Ok (None,
        Some (wrapError "failed to get data: "
                (errorString
                   "stored value of type string is not assignable to type int"))).
Proof.
  exact (proj1 (proj2 (Get_type_mismatch
           (Data.Set_ Examples.someContext Examples.categoryDataKey
              (Some (Examples.VString "math")) Data.NewInMemoryDataStore).2
           Examples.someContext Examples.categoryAsInt
           (Examples.VString "math") eq_refl eq_refl))).
Defined.

(** ** JSON: what is written is read back *)

Section JsonFacts.
Import Json.

Lemma of_code_code b : of_code (code b) = b.
Proof. unfold of_code, code. by rewrite Byte.of_to_N. Qed.

Lemma code_bound b : (code b < 256)%N.
Proof. pose proof (Byte.to_N_bounded b). unfold code. lia. Qed.

Lemma code_inj b1 b2 : code b1 = code b2 -> b1 = b2.
Proof. intros Hc. rewrite <- (of_code_code b1), <- (of_code_code b2). by rewrite Hc. Qed.

Lemma in_allBytes b : In b allBytes.
Proof.
  unfold allBytes. apply in_map_iff. exists (N.to_nat (code b)). split.
  - rewrite N2Nat.id. apply of_code_code.
  - apply in_seq. pose proof (code_bound b). lia.
Qed.

Lemma in_bytesWhere f b : f b = true -> In b (bytesWhere f).
Proof. intros Hf. apply filter_In. split; [apply in_allBytes | done]. Qed.

Lemma eqBytes_eq p q : eqBytes p q = true -> p = q.
Proof.
  revert q. induction p as [|b p IH]; intros [|c q] Hb; try done.
  simpl in Hb. apply andb_true_iff in Hb as [Hc Hq].
  apply N.eqb_eq in Hc. f_equal; [by apply code_inj | by apply IH].
Qed.

(** The widths of the table [first]. *)
Lemma leading_cases c sz lo hi :
  leading c = Some (sz, lo, hi) ->
  (sz = 2 \/ sz = 3 \/ sz = 4) /\ (0x80 <= lo)%N /\ (hi <= 0xBF)%N
  /\ (0xC2 <= c)%N.
Proof.
  unfold leading, between.
  repeat match goal with
         | |- context [if ?b then _ else _] => destruct b eqn:?
         end; intros [= <- <- <-]; unbool;
    (split; [auto|]); repeat split; lia.
Qed.

Lemma between_continuation lo hi c :
  (0x80 <= lo)%N -> (hi <= 0xBF)%N ->
  between lo hi c = true -> between 0x80 0xBF c = true.
Proof.
  unfold between. intros Hlo Hhi Hb. unbool.
  apply andb_true_iff. split; apply N.leb_le; lia.
Qed.

(** A rune of width two or more: the bytes it is decoded from, which
    decode the same whatever follows them. *)
Lemma DecodeRune_prefix p r size :
  DecodeRune p = (r, size) -> 2 <= size ->
  exists b0 q s,
    p = (b0 :: q) ++ s
    /\ List.length (b0 :: q) = size
    /\ (code b0 <? 0x80)%N = false
    /\ width b0 = size
    /\ Forall (fun b => isContinuation b = true) q
    /\ forall X, DecodeRune ((b0 :: q) ++ X) = (r, size).
Proof.
  destruct p as [|b0 p]; [intros [= <- <-]; lia|].
  unfold DecodeRune. destruct (code b0 <? 0x80)%N eqn:Hascii.
  { intros [= <- <-]. lia. }
  destruct (leading (code b0)) as [[[sz lo] hi]|] eqn:Hl.
  2:{ intros [= <- <-]. lia. }
  destruct (leading_cases _ _ _ _ Hl) as [Hsz [Hlo [Hhi Hc]]].
  assert (Hw : width b0 = sz) by (unfold width; by rewrite Hl).
  assert (Hfail : forall (c : bool) (x : N * nat),
             (if c then (RuneError, 1) else x) = (r, size) ->
             c = false /\ x = (r, size) \/ size = 1).
  { intros [|] x Hx; [injection Hx as _ <-|]; auto. }
  intros Hd Hsize.
  destruct (Hfail _ _ Hd) as [[Hlen Hd1]|]; [clear Hd|lia].
  destruct p as [|b1 p]; [injection Hd1 as <- <-; lia|].
  destruct (Hfail _ _ Hd1) as [[Hb1 Hd2]|]; [clear Hd1|lia].
  apply negb_false_iff in Hb1.
  pose proof (between_continuation _ _ _ Hlo Hhi Hb1) as Hc1.
  destruct (sz <=? 2)%nat eqn:Hle2.
  { injection Hd2 as <- <-. apply Nat.leb_le in Hle2.
    assert (sz = 2) as -> by lia.
    exists b0, [b1], p. repeat split; try done.
    - repeat constructor. exact Hc1.
    - intros X. simpl. by rewrite Hascii, Hl, Hb1. }
  destruct p as [|b2 p]; [injection Hd2 as <- <-; lia|].
  destruct (Hfail _ _ Hd2) as [[Hb2 Hd3]|]; [clear Hd2|lia].
  apply negb_false_iff in Hb2.
  destruct (sz <=? 3)%nat eqn:Hle3.
  { injection Hd3 as <- <-. apply Nat.leb_le in Hle3. apply Nat.leb_gt in Hle2.
    assert (sz = 3) as -> by lia.
    exists b0, [b1; b2], p. repeat split; try done.
    - repeat constructor; done.
    - intros X. simpl. by rewrite Hascii, Hl, Hb1, Hb2. }
  destruct p as [|b3 p]; [injection Hd3 as <- <-; lia|].
  destruct (Hfail _ _ Hd3) as [[Hb3 Hd4]|]; [clear Hd3|lia].
  apply negb_false_iff in Hb3.
  injection Hd4 as <- <-. apply Nat.leb_gt in Hle2, Hle3.
  assert (sz = 4) as -> by lia.
  exists b0, [b1; b2; b3], p. repeat split; try done.
  - repeat constructor; done.
  - intros X. simpl. by rewrite Hascii, Hl, Hb1, Hb2, Hb3.
Qed.

Lemma forallb_In {A} (f : A -> bool) l x :
  forallb f l = true -> In x l -> f x = true.
Proof. intros Hf Hin. rewrite forallb_forall in Hf. by apply Hf. Qed.

Lemma in_continuationBytes b :
  isContinuation b = true -> In b continuationBytes.
Proof. apply in_bytesWhere. Qed.

Lemma in_leadingBytes b n : width b = n -> In b (leadingBytes n).
Proof. intros Hw. apply in_bytesWhere. by apply Nat.eqb_eq. Qed.

(** The facts checked byte by byte. *)
Lemma twoRoundTrip_all :
  forallb (fun b0 => forallb (fun b1 => twoRoundTrip b0 b1) continuationBytes)
          (leadingBytes 2) = true.
Proof. vm_compute. reflexivity. Qed.

Lemma head3OK_all :
  forallb (fun b0 => forallb (fun b1 => head3OK b0 b1) continuationBytes)
          (leadingBytes 3) = true.
Proof. vm_compute. reflexivity. Qed.

Lemma head4OK_all :
  forallb (fun b0 =>
    forallb (fun b1 =>
      forallb (fun b2 => head4OK b0 b1 b2) continuationBytes)
      continuationBytes)
    (leadingBytes 4) = true.
Proof. vm_compute. reflexivity. Qed.

Lemma low6_facts b :
  (low6 b <=? 63)%N = true
  /\ N.land (low6 b) 0x3F = low6 b
  /\ N.shiftr (low6 b) 6 = 0%N
  /\ N.shiftr (low6 b) 12 = 0%N
  /\ N.shiftr (low6 b) 18 = 0%N.
Proof. destruct b; repeat split; reflexivity. Qed.

Lemma tx_low6 b : isContinuation b = true -> of_code (N.lor 0x80 (low6 b)) = b.
Proof. destruct b; intros Hc; try discriminate Hc; reflexivity. Qed.

(** The last byte of a sequence fills the six low bits of the rune. *)
Lemma lor_low6 h b :
  N.land h 0x3F = 0%N -> isContinuation b = true ->
  N.lor h (low6 b) = (h + low6 b)%N
  /\ (low6 b <= 63)%N
  /\ N.shiftr (N.lor h (low6 b)) 6 = N.shiftr h 6
  /\ N.shiftr (N.lor h (low6 b)) 12 = N.shiftr h 12
  /\ N.shiftr (N.lor h (low6 b)) 18 = N.shiftr h 18
  /\ tx (N.lor h (low6 b)) = b.
Proof.
  intros Hh Hb.
  destruct (low6_facts b) as (Hle & Hmask & Hs6 & Hs12 & Hs18).
  assert (Hdisj : N.land h (low6 b) = 0%N).
  { rewrite <- Hmask. rewrite (N.land_comm (low6 b)).
    rewrite N.land_assoc, Hh. apply N.land_0_l. }
  split.
  { rewrite <- (N.lxor_lor _ _ Hdisj). symmetry.
    by apply N.add_nocarry_lxor. }
  split; [by apply N.leb_le|].
  rewrite !N.shiftr_lor, Hs6, Hs12, Hs18, !N.lor_0_r.
  repeat split; try reflexivity.
  unfold tx. rewrite N.land_lor_distr_l, Hh, Hmask, N.lor_0_l.
  by apply tx_low6.
Qed.

(** What a sequence of exactly two, three or four bytes that decodes as
    one rune is made of. *)
Lemma DecodeRune_shape b0 q r :
  DecodeRune (b0 :: q) = (r, List.length (b0 :: q)) ->
  2 <= List.length (b0 :: q) ->
  match q with
  | [b1] => twoRoundTrip b0 b1 = true -> EncodeRune r = [b0; b1]
  | [b1; b2] =>
      secondInRange b0 b1 = true
      /\ r = N.lor (head3 b0 b1) (low6 b2)
  | [b1; b2; b3] =>
      secondInRange b0 b1 = true
      /\ r = N.lor (head4 b0 b1 b2) (low6 b3)
  | _ => False
  end.
Proof.
  intros Hd Hlen.
  destruct q as [|b1 [|b2 [|b3 [|b4 q]]]]; cbn [List.length] in *.
  - lia.
  - intros Hrt. unfold twoRoundTrip in Hrt. rewrite Hd in Hrt.
    cbn in Hrt. by apply eqBytes_eq.
  - unfold DecodeRune in Hd. unfold secondInRange, head3.
    destruct (code b0 <? 0x80)%N; [discriminate|].
    destruct (leading (code b0)) as [[[sz lo] hi]|] eqn:Hl; [|discriminate].
    destruct (leading_cases _ _ _ _ Hl) as [[-> | [-> | ->]] _];
      cbn in Hd; destruct (between lo hi (code b1)); cbn in Hd;
      try discriminate;
      destruct (between 0x80 0xBF (code b2)); cbn in Hd; try discriminate.
    injection Hd as <-. split; [done|]. apply N.lor_assoc.
  - unfold DecodeRune in Hd. unfold secondInRange, head4.
    destruct (code b0 <? 0x80)%N; [discriminate|].
    destruct (leading (code b0)) as [[[sz lo] hi]|] eqn:Hl; [|discriminate].
    destruct (leading_cases _ _ _ _ Hl) as [[-> | [-> | ->]] _];
      cbn in Hd; destruct (between lo hi (code b1)); cbn in Hd;
      try discriminate;
      destruct (between 0x80 0xBF (code b2)); cbn in Hd; try discriminate;
      destruct (between 0x80 0xBF (code b3)); cbn in Hd; try discriminate.
    injection Hd as <-. split; [done|].
    by rewrite !N.lor_assoc.
  - destruct (DecodeRune_prefix _ _ _ Hd Hlen)
      as (c0 & q' & s & Heq & Hl' & _ & Hw & _).
    injection Heq as <- Hq. unfold width in Hw.
    destruct (leading (code b0)) as [[[sz lo] hi]|] eqn:Hl; [|lia].
    destruct (leading_cases _ _ _ _ Hl) as [Hsz _]. lia.
Qed.

(** Encoding the rune of a sequence of two bytes or more that decodes as
    one rune gives the sequence back. *)
Lemma EncodeRune_DecodeRune b0 q r :
  DecodeRune (b0 :: q) = (r, List.length (b0 :: q)) ->
  2 <= List.length (b0 :: q) ->
  width b0 = List.length (b0 :: q) ->
  Forall (fun b => isContinuation b = true) q ->
  EncodeRune r = b0 :: q.
Proof.
  intros Hd Hlen Hw Hq. pose proof (DecodeRune_shape _ _ _ Hd Hlen) as Hs.
  destruct q as [|b1 [|b2 [|b3 [|b4 q]]]]; try done.
  - inversion Hq as [|? ? H1 _]; subst. apply Hs.
    pose proof twoRoundTrip_all as Hall.
    eapply forallb_In in Hall; [|apply in_leadingBytes; exact Hw].
    eapply forallb_In in Hall;
      [exact Hall | apply (in_continuationBytes b1); exact H1].
  - inversion Hq as [|? ? H1 Hq1]; subst.
    inversion Hq1 as [|? ? H2 _]; subst.
    destruct Hs as [Hin ->].
    pose proof head3OK_all as Hall.
    eapply forallb_In in Hall; [|apply in_leadingBytes; exact Hw].
    eapply forallb_In in Hall; [|apply (in_continuationBytes b1); exact H1].
    unfold head3OK in Hall. rewrite Hin in Hall. cbn [negb orb] in Hall.
    set (h := head3 b0 b1) in *.
    apply andb_true_iff in Hall as [Hall Hbytes].
    apply andb_true_iff in Hall as [Hall Hmax].
    apply andb_true_iff in Hall as [Hall Hsurr].
    apply andb_true_iff in Hall as [Hfree Hmin].
    apply eqBytes_eq in Hbytes. injection Hbytes as Hx Hy.
    apply N.eqb_eq in Hfree. apply N.leb_le in Hmin, Hmax.
    destruct (lor_low6 h b2 Hfree H2) as (Hadd & Hc & Hs6 & Hs12 & _ & Htx).
    unfold EncodeRune, encode3, between, MaxRune.
    replace (N.lor h (low6 b2) <=? 0x7F)%N with false
      by (symmetry; apply N.leb_gt; lia).
    replace (N.lor h (low6 b2) <=? 0x7FF)%N with false
      by (symmetry; apply N.leb_gt; lia).
    replace (0x10FFFF <? N.lor h (low6 b2))%N with false
      by (symmetry; apply N.ltb_ge; lia).
    replace ((0xD800 <=? N.lor h (low6 b2))%N
             && (N.lor h (low6 b2) <=? 0xDFFF)%N) with false.
    2:{ symmetry. apply andb_false_iff.
        apply orb_true_iff in Hsurr as [Hlow|Hhigh].
        - left. apply N.ltb_lt in Hlow. apply N.leb_gt. lia.
        - right. apply N.leb_le in Hhigh. apply N.leb_gt. lia. }
    replace (N.lor h (low6 b2) <=? 0xFFFF)%N with true
      by (symmetry; apply N.leb_le; lia).
    cbn [orb]. by rewrite Hs12, Hs6, Hx, Hy, Htx.
  - inversion Hq as [|? ? H1 Hq1]; subst.
    inversion Hq1 as [|? ? H2 Hq2]; subst.
    inversion Hq2 as [|? ? H3 _]; subst.
    destruct Hs as [Hin ->].
    pose proof head4OK_all as Hall.
    eapply forallb_In in Hall; [|apply in_leadingBytes; exact Hw].
    eapply forallb_In in Hall; [|apply (in_continuationBytes b1); exact H1].
    eapply forallb_In in Hall; [|apply (in_continuationBytes b2); exact H2].
    unfold head4OK in Hall. rewrite Hin in Hall. cbn [negb orb] in Hall.
    set (h := head4 b0 b1 b2) in *.
    apply andb_true_iff in Hall as [Hall Hbytes].
    apply andb_true_iff in Hall as [Hall Hmax].
    apply andb_true_iff in Hall as [Hfree Hmin].
    apply eqBytes_eq in Hbytes. injection Hbytes as Hx Hy Hz.
    apply N.eqb_eq in Hfree. apply N.leb_le in Hmin, Hmax.
    unfold MaxRune in Hmax.
    destruct (lor_low6 h b3 Hfree H3)
      as (Hadd & Hc & Hs6 & Hs12 & Hs18 & Htx).
    unfold EncodeRune, between, MaxRune.
    replace (N.lor h (low6 b3) <=? 0x7F)%N with false
      by (symmetry; apply N.leb_gt; lia).
    replace (N.lor h (low6 b3) <=? 0x7FF)%N with false
      by (symmetry; apply N.leb_gt; lia).
    replace (0x10FFFF <? N.lor h (low6 b3))%N with false
      by (symmetry; apply N.ltb_ge; lia).
    replace (N.lor h (low6 b3) <=? 0xDFFF)%N with false
      by (symmetry; apply N.leb_gt; lia).
    replace (N.lor h (low6 b3) <=? 0xFFFF)%N with false
      by (symmetry; apply N.leb_gt; lia).
    rewrite andb_false_r. cbn [orb].
    by rewrite Hs18, Hs12, Hs6, Hx, Hy, Hz, Htx.
Qed.

(** A byte that is not ASCII decodes as a rune of width two or more, or
    as the error of width one. *)
Lemma DecodeRune_width b p r size :
  DecodeRune (b :: p) = (r, size) ->
  (code b <? 0x80)%N = false ->
  r = RuneError /\ size = 1 \/ 2 <= size.
Proof.
  unfold DecodeRune. intros Hd Hascii. rewrite Hascii in Hd.
  repeat match type of Hd with
         | context [match ?x with _ => _ end] => destruct x
         end;
    injection Hd as <- <-; auto.
Qed.

Lemma DecodeRune_ascii b p :
  (code b <? 0x80)%N = true -> DecodeRune (b :: p) = (code b, 1).
Proof. intros Hascii. unfold DecodeRune. by rewrite Hascii. Qed.

(** One round of [appendString] on an ASCII byte, and reading back what
    it wrote. *)
Lemma appendStep_ascii b p :
  (code b <? 0x80)%N = true ->
  exists out,
    appendStep (b :: p) = (out, 1)
    /\ out <> []
    /\ forall X, unquoteStep (out ++ X) = Bytes [b] (List.length out).
Proof.
  destruct b; intros Hascii; try discriminate Hascii;
    (eexists; split; [reflexivity|]; split; [discriminate|];
     intros X; reflexivity).
Qed.

(** One round of [appendString] on a rune of width two or more, and
    reading back what it wrote. *)
Lemma appendStep_rune src r size :
  DecodeRune src = (r, size) -> 2 <= size ->
  exists out,
    appendStep src = (out, size)
    /\ out <> []
    /\ size <= List.length src
    /\ forall X, unquoteStep (out ++ X) = Bytes (take size src) (List.length out).
Proof.
  intros Hd Hsize.
  destruct (DecodeRune_prefix _ _ _ Hd Hsize)
    as (b0 & q & s & -> & Hlen & Hascii & Hw & Hq & Hpre).
  pose proof (Hpre []) as Hself. rewrite app_nil_r in Hself.
  assert (Henc : EncodeRune r = b0 :: q).
  { apply EncodeRune_DecodeRune; [by rewrite Hlen | lia | congruence | exact Hq]. }
  assert (Htake : take size ((b0 :: q) ++ s) = b0 :: q)
    by (rewrite <- Hlen; apply take_app_length).
  assert (H4 : DecodeRune (take 4 ((b0 :: q) ++ s)) = (r, size)).
  { assert (Hle : size <= 4).
    { rewrite <- Hw. unfold width.
      destruct (leading (code b0)) as [[[sz lo] hi]|] eqn:Hl; [|lia].
      destruct (leading_cases _ _ _ _ Hl) as [Hsz _]. lia. }
    rewrite take_app. rewrite take_ge by lia.
    apply Hpre. }
  assert (Hstep : appendStep ((b0 :: q) ++ s)
                  = if ((r =? 0x2028) || (r =? 0x2029))%N
                    then ([backslash; x75; x32; x30; x32; hex (N.land r 0xF)],
                          size)
                    else (b0 :: q, size)).
  { change ((b0 :: q) ++ s) with (b0 :: (q ++ s)) at 1.
    unfold appendStep. rewrite Hascii.
    change (b0 :: (q ++ s)) with ((b0 :: q) ++ s).
    rewrite H4, Htake.
    replace (size =? 1)%nat with false by (symmetry; apply Nat.eqb_neq; lia).
    by rewrite andb_false_r. }
  assert (Hc : (0x80 <= code b0)%N) by (by apply N.ltb_ge).
  rewrite Hstep, Htake.
  destruct ((r =? 0x2028) || (r =? 0x2029))%N eqn:Hsepq.
  - eexists. split; [reflexivity|]. split; [discriminate|].
    split; [rewrite length_app; lia|].
    intros X.
    apply orb_true_iff in Hsepq as [Hr|Hr]; apply N.eqb_eq in Hr; subst r;
      rewrite <- Henc; reflexivity.
  - exists (b0 :: q). split; [reflexivity|]. split; [discriminate|].
    split; [rewrite length_app; lia|].
    intros X. change ((b0 :: q) ++ X) with (b0 :: (q ++ X)).
    unfold unquoteStep.
    replace (code b0 =? 0x22)%N with false by (symmetry; apply N.eqb_neq; lia).
    replace (code b0 =? 0x5C)%N with false by (symmetry; apply N.eqb_neq; lia).
    replace (code b0 <? 0x20)%N with false by (symmetry; apply N.ltb_ge; lia).
    rewrite Hascii.
    change (b0 :: (q ++ X)) with ((b0 :: q) ++ X).
    rewrite Hpre, Henc. by rewrite Hlen.
Qed.

Lemma appendLoop_nil rounds : appendLoop rounds [] = [].
Proof. by destruct rounds. Qed.

(** What the loop of [appendString] writes for a valid string is read
    back, up to the closing quote, as the string. *)
Lemma unquoteLoop_appendLoop rounds : forall src X fuel,
  validLoop rounds src = true ->
  List.length (appendLoop rounds src) < fuel ->
  unquoteLoop fuel (appendLoop rounds src ++ quote :: X) = Some (src, X).
Proof.
  induction rounds as [|rounds IH]; intros src X fuel Hvalid Hfuel.
  - destruct src; [|discriminate]. simpl.
    destruct fuel; [simpl in Hfuel; lia|]. reflexivity.
  - destruct src as [|b p].
    { simpl. destruct fuel; [simpl in Hfuel; lia|]. reflexivity. }
    cbn [validLoop] in Hvalid.
    destruct (DecodeRune (b :: p)) as [r size] eqn:Hd.
    destruct ((r =? RuneError)%N && (size =? 1)%nat) eqn:Herr;
      [discriminate|].
    assert (Hstep : exists out,
               appendStep (b :: p) = (out, size)
               /\ out <> []
               /\ size <= List.length (b :: p)
               /\ forall Y, unquoteStep (out ++ Y)
                            = Bytes (take size (b :: p)) (List.length out)).
    { destruct (code b <? 0x80)%N eqn:Hascii.
      - rewrite (DecodeRune_ascii _ _ Hascii) in Hd. injection Hd as <- <-.
        destruct (appendStep_ascii b p Hascii) as (out & Ha & Hne & Hu).
        exists out. repeat split; try done. simpl. lia.
      - destruct (DecodeRune_width _ _ _ _ Hd Hascii) as [[-> ->]|Hsize].
        + discriminate.
        + by apply (appendStep_rune _ r). }
    destruct Hstep as (out & Ha & Hne & Hle & Hu).
    cbn [appendLoop] in *. rewrite Ha in *.
    rewrite length_app in Hfuel.
    destruct fuel as [|fuel]; [lia|].
    cbn [unquoteLoop]. rewrite <- app_assoc. rewrite Hu.
    rewrite drop_app_length.
    rewrite (IH (drop size (b :: p)) X fuel Hvalid).
    + by rewrite take_drop.
    + destruct out; [done|]. simpl in Hfuel. lia.
Qed.

Lemma validLoop_more rounds : forall p,
  validLoop rounds p = true -> validLoop (S rounds) p = true.
Proof.
  induction rounds as [|rounds IH]; intros p Hv.
  - by destruct p.
  - destruct p as [|b p]; [done|]. cbn [validLoop] in *.
    destruct (DecodeRune (b :: p)) as [r size].
    destruct ((r =? RuneError)%N && (size =? 1)%nat); [done|].
    by apply IH.
Qed.

(** A string literal written by [appendString] for a valid string is
    read back as the string. *)
Lemma element_appendString (str : string) X :
  ValidString str = true ->
  element (appendString (list_byte_of_string str) ++ X) = Some (str, X).
Proof.
  unfold ValidString, Valid, appendString. intros Hv.
  set (src := list_byte_of_string str) in *.
  change (([quote] ++ appendLoop (List.length src) src ++ [quote]) ++ X)
    with (x22 :: ((appendLoop (List.length src) src ++ [quote]) ++ X)).
  cbn [element]. rewrite <- app_assoc. cbn [app].
  rewrite unquoteLoop_appendLoop; [|exact Hv|].
  - unfold src. by rewrite string_of_list_byte_of_string.
  - rewrite length_app. simpl. lia.
Qed.

Lemma literal_quote str : exists body, literal str = x22 :: body.
Proof. unfold literal, appendString. simpl. eauto. Qed.

Lemma skipSpace_quote body : skipSpace (x22 :: body) = x22 :: body.
Proof. reflexivity. Qed.

Lemma elements_comma fuel s v rest :
  element s = Some (v, x2c :: rest) ->
  elements (S fuel) s
  = match elements fuel (skipSpace rest) with
    | Some vs => Some (v :: vs)
    | None => None
    end.
Proof. intros He. cbn [elements]. rewrite He. reflexivity. Qed.

Lemma elements_close fuel s v :
  element s = Some (v, [x5d]) -> elements (S fuel) s = Some [v].
Proof. intros He. cbn [elements]. rewrite He. reflexivity. Qed.

Lemma joinComma_cons p q ps :
  joinComma (p :: q :: ps) = p ++ x2c :: joinComma (q :: ps).
Proof. reflexivity. Qed.

Lemma joinComma_quote str ns :
  exists rest, joinComma (map literal (str :: ns)) = x22 :: rest.
Proof.
  destruct (literal_quote str) as [body Hbody].
  destruct ns as [|str2 ns]; cbn [map].
  - exists body. exact Hbody.
  - rewrite joinComma_cons, Hbody. simpl. eauto.
Qed.

(** The elements written by [Marshal] for valid strings, with the closing
    bracket, are read back as the strings. *)
Lemma elements_joinComma ns : forall fuel,
  ns <> [] ->
  Forall (fun str => ValidString str = true) ns ->
  List.length ns <= fuel ->
  elements fuel (joinComma (map literal ns) ++ [x5d]) = Some ns.
Proof.
  induction ns as [|str ns IH]; intros fuel Hne Hv Hfuel; [done|].
  apply Forall_cons in Hv as [Hstr Hv].
  destruct fuel as [|fuel]; [simpl in Hfuel; lia|].
  destruct ns as [|str2 ns].
  - apply elements_close. cbn [map joinComma]. unfold literal.
    apply element_appendString. exact Hstr.
  - change (map literal (str :: str2 :: ns))
      with (literal str :: literal str2 :: map literal ns).
    rewrite joinComma_cons.
    change (literal str2 :: map literal ns) with (map literal (str2 :: ns)).
    rewrite <- app_assoc.
    rewrite (elements_comma fuel _ str
               (joinComma (map literal (str2 :: ns)) ++ [x5d])).
    + destruct (joinComma_quote str2 ns) as [rest Hrest].
      rewrite Hrest. cbn [app]. rewrite skipSpace_quote.
      change (x22 :: rest ++ [x5d]) with ((x22 :: rest) ++ [x5d]).
      rewrite <- Hrest. rewrite IH; [done | done | exact Hv |].
      simpl in Hfuel. simpl. lia.
    + unfold literal at 1. cbn [app].
      apply element_appendString. exact Hstr.
Qed.

Lemma joinComma_length ns :
  List.length ns <= List.length (joinComma (map literal ns)).
Proof.
  induction ns as [|str ns IH]; [done|].
  destruct (literal_quote str) as [body Hbody].
  destruct ns as [|str2 ns].
  - cbn [map joinComma]. rewrite Hbody. simpl. lia.
  - change (map literal (str :: str2 :: ns))
      with (literal str :: literal str2 :: map literal ns).
    rewrite joinComma_cons, Hbody.
    change (literal str2 :: map literal ns) with (map literal (str2 :: ns)).
    simpl List.length in *. rewrite length_app. simpl. lia.
Qed.

(** What [Marshal] writes for valid strings, [Unmarshal] reads back. *)
Lemma Unmarshal_Marshal ns :
  Forall (fun str => ValidString str = true) ns ->
  Unmarshal (Marshal ns) = Some ns.
Proof.
  intros Hv. destruct ns as [|str ns]; [reflexivity|].
  unfold Marshal.
  change (map (fun s => appendString (list_byte_of_string s)) (str :: ns))
    with (map literal (str :: ns)).
  destruct (joinComma_quote str ns) as [rest Hq].
  change ([x5b] ++ joinComma (map literal (str :: ns)) ++ [x5d])
    with (x5b :: (joinComma (map literal (str :: ns)) ++ [x5d])).
  assert (Hu : forall l,
             Unmarshal (x5b :: x22 :: l)
             = elements (List.length (x22 :: l)) (x22 :: l))
    by reflexivity.
  pose proof (joinComma_length (str :: ns)) as Hlen.
  rewrite Hq in *. cbn [app]. rewrite Hu.
  change (x22 :: rest ++ [x5d]) with ((x22 :: rest) ++ [x5d]).
  rewrite <- Hq.
  apply elements_joinComma; [done | exact Hv |].
  rewrite Hq, length_app. simpl in *. lia.
Qed.

End JsonFacts.

(** ** The persistence layer, there and back *)

Section RoundTrip.
Context `{Transport} {Env : Type}.
Import State.
Implicit Types (s : StateHandler (Env := Env)) (σ : memoryStateStore).

(** C5, amended.  For every conversation key and every list, with at
    least one state, of registered states whose names are valid UTF-8:
    [setStack] stores the list of their names, and [getStack] then reads
    the same states in the same order. *)
Theorem stack_round_trip s key σ (stack : list (State (Env := Env))) :
  stack <> [] ->
  Forall (registered s) stack ->
  Forall (fun st => Json.ValidString (StateName st) = true) stack ->
  let σ' := <[key := Json.Marshal (names stack)]> σ in
  setStack s key (Some stack) σ
  = (None, σ', [EvSetStack key (Json.Marshal (names stack))])
  /\ getStack s key σ' = (Some stack, None, []).
Proof.
  intros Hne Hreg Hvalid σ'. split.
  - rewrite setStack_memory. cbn [elems].
    by rewrite (knownNames_registered _ _ Hreg).
  - rewrite getStack_cases. unfold σ', GetStack, memoryStateStorage.
    rewrite memory_lookup_insert. cbn [errors_Is].
    rewrite Unmarshal_Marshal.
    + rewrite (omap_lookup_names _ _ Hreg). by destruct stack.
    + unfold names. by apply Forall_fmap.
Qed.

(** What [getStack] reads where the names of registered states with
    valid names were stored. *)
Lemma getStack_stored_valid s key σ (new : list (State (Env := Env))) :
  Forall (registered s) new ->
  Forall (fun st => Json.ValidString (StateName st) = true) new ->
  getStack s key (<[key := Json.Marshal (names new)]> σ)
  = (match new with
     | [] => None
     | _ :: _ => Some new
     end, None, []).
Proof.
  intros Hreg Hvalid. rewrite getStack_cases.
  unfold GetStack, memoryStateStorage. rewrite memory_lookup_insert.
  cbn [errors_Is]. rewrite Unmarshal_Marshal.
  - rewrite (omap_lookup_names _ _ Hreg). by destruct new.
  - unfold names. by apply Forall_fmap.
Qed.

(** C2, amended.  [toState(dest).Go] for a registered state [dest], on
    the stack [old] that [getStack] reads for the conversation, where
    the names of [dest] and of the states of [old] are valid UTF-8.
    When [dest] is not on the stack, the stack persisted, which is the
    stack [getStack] reads afterwards, is [old] with [dest] appended: its
    last entry is [dest] and it is one longer.  When [dest] is on the
    stack, with [i] the index of its first occurrence, the stack
    persisted is the first [i + 1] entries of [old]: it has length
    [i + 1] and ends with [dest].  In both cases [dest] is rendered after
    the stack is stored. *)
Theorem toState_Go_stack s (dest : State (Env := Env)) (ctx : Context)
    (w : World (Store := memoryStateStore) (Env := Env)) stack log :
  registry_ok s -> registered s dest ->
  getStack s (chatKey ctx) (storage w) = (stack, None, log) ->
  Forall (fun st => Json.ValidString (StateName st) = true)
         (dest :: elems stack) ->
  let old := elems stack in
  let result new :=
    let blob := Json.Marshal (names new) in
    let '(r, env') := Render dest ctx (env w) in
    (r, mkWorld (<[chatKey ctx := blob]> (storage w)) env',
     log ++ [EvSetStack (chatKey ctx) blob; EvRender dest]) in
  let persisted :=
    getStack s (chatKey ctx) (storage (Go (toState dest) s ctx w).1.2) in
  (StateName dest ∉ names old ->
     Go (toState dest) s ctx w = result (old ++ [dest])
     /\ persisted = (Some (old ++ [dest]), None, [])
     /\ last (old ++ [dest]) = Some dest
     /\ List.length (old ++ [dest]) = List.length old + 1)
  /\ (forall i,
        names old !! i = Some (StateName dest) ->
        (forall j, j < i -> names old !! j <> Some (StateName dest)) ->
        Go (toState dest) s ctx w = result (take (i + 1) old)
        /\ persisted = (Some (take (i + 1) old), None, [])
        /\ List.length (take (i + 1) old) = i + 1
        /\ last (take (i + 1) old) = Some dest
        /\ old !! i = Some dest).
Proof.
  intros Hok HS Hg Hvalid old result persisted.
  pose proof (toState_Go_memory s dest ctx w stack log Hok HS Hg) as Hgo.
  pose proof (getStack_registered _ _ _ _ _ _ Hok Hg) as Hreg.
  apply Forall_cons in Hvalid as [Hvd Hvold].
  simpl in Hgo. fold old in Hgo, Hreg, Hvold.
  assert (Hread : forall new,
            new <> [] ->
            Forall (registered s) new ->
            Forall (fun st => Json.ValidString (StateName st) = true) new ->
            Go (toState dest) s ctx w = result new ->
            persisted = (Some new, None, [])).
  { intros new Hne Hrn Hvn Heq. unfold persisted. rewrite Heq. unfold result.
    destruct (Render dest ctx (env w)) as [r env']. cbn [fst snd storage].
    rewrite getStack_stored_valid by done. by destruct new. }
  split.
  - intros Hnot. apply IndexFunc_None in Hnot. rewrite Hnot in Hgo.
    split; [exact Hgo|]. split; [|split].
    + apply Hread; [by destruct old | | | exact Hgo].
      * apply Forall_app. split; [done|]. by constructor.
      * apply Forall_app. split; [done|]. by constructor.
    + by rewrite last_snoc.
    + rewrite length_app. simpl. lia.
  - intros i Hi Hfirst.
    assert (Hidx : IndexFunc old (StateName dest) = Some i)
      by (apply IndexFunc_Some; done).
    rewrite Hidx in Hgo.
    pose proof (registered_at s old dest i Hreg HS Hi) as Hat.
    assert (Hlt : i < List.length old) by (eapply lookup_lt_Some; exact Hat).
    assert (Hlast : last (take (i + 1) old) = Some dest).
    { replace (i + 1) with (S i) by lia.
      rewrite (take_S_r _ _ _ Hat). by rewrite last_snoc. }
    split; [exact Hgo|]. split; [|split; [|split; [exact Hlast | exact Hat]]].
    + apply Hread; [| by apply Forall_take | by apply Forall_take | exact Hgo].
      intros Hnil. rewrite Hnil in Hlast. discriminate.
    + rewrite length_take. lia.
Qed.

(** The stacks the transitions write have no state twice, when the stack
    read has none twice: so a state is on such a stack at one index
    only. *)
Lemma toState_Go_no_duplicates s dest (old : list (State (Env := Env))) :
  NoDup (names old) ->
  NoDup (names (match IndexFunc old (StateName dest) with
                | Some idx => take (idx + 1) old
                | None => old ++ [dest]
                end)).
Proof.
  intros Hnd. destruct (IndexFunc old (StateName dest)) as [idx|] eqn:Hi.
  - unfold names. rewrite fmap_take.
    eapply sublist_NoDup; [exact Hnd | apply sublist_take].
  - apply IndexFunc_None in Hi. unfold names in *. rewrite fmap_app.
    apply NoDup_app. split; [done|]. split.
    + intros name Hin Hin'. apply list_elem_of_singleton in Hin'.
      by subst name.
    + apply NoDup_singleton.
Qed.

Lemma back_Go_no_duplicates (old : list (State (Env := Env))) n :
  NoDup (names old) -> NoDup (names (take n old)).
Proof.
  intros Hnd. unfold names. rewrite fmap_take.
  eapply sublist_NoDup; [exact Hnd | apply sublist_take].
Qed.

Lemma NoDup_first_occurrence (l : list string) i name :
  NoDup l -> l !! i = Some name ->
  forall j, j < i -> l !! j <> Some name.
Proof.
  intros Hnd Hi j Hj Hl.
  pose proof (NoDup_lookup _ _ _ _ Hnd Hi Hl). lia.
Qed.

End RoundTrip.

(** C5, as stated, fails on the state named by the byte 0xFF: the state
    is registered, its name is stored as the replacement character, and
    no state is read back. *)
Lemma stack_round_trip_counterexample :
  State.registered Examples.oddHandler Examples.oddState
  /\ State.getStack Examples.oddHandler "42"
       (State.setStack Examples.oddHandler "42" (Some [Examples.oddState])
          State.NewInMemoryStateStore).1.2
     = (None, None, [])
  /\ State.getStack Examples.oddHandler "42"
       (State.setStack Examples.oddHandler "42" (Some [Examples.oddState])
          State.NewInMemoryStateStore).1.2
     <> (Some [Examples.oddState], None, []).
Proof.
  split; [vm_compute; reflexivity|].
  assert (Hg : State.getStack Examples.oddHandler "42"
                 (State.setStack Examples.oddHandler "42"
                    (Some [Examples.oddState])
                    State.NewInMemoryStateStore).1.2
               = (None, None, [])) by (vm_compute; reflexivity).
  split; [exact Hg|]. rewrite Hg. discriminate.
Qed.

(** The stack main, quiz of the quiz bot is stored and read back. *)
Lemma stack_round_trip_witness :
  State.getStack Examples.quizHandler "42"
    (<["42" := Json.Marshal ["main"; "quiz"]]> State.NewInMemoryStateStore)
  = (Some [Examples.mainState; Examples.quizState], None, []).
Proof.
  refine (proj2 (stack_round_trip Examples.quizHandler "42"
            State.NewInMemoryStateStore
            [Examples.mainState; Examples.quizState] _ _ _)).
  - discriminate.
  - repeat constructor.
  - repeat constructor.
Defined.

(** From the stack main, the transition to "quiz" appends it, and the
    stack read afterwards is main, quiz. *)
Lemma toState_Go_stack_witness :
  State.Go (State.toState Examples.quizState) Examples.quizHandler
    Examples.someContext (Examples.quizWorld ["main"] [])
  = (None, Examples.quizWorld ["main"; "quiz"] ["quiz rendered"],
     [State.EvSetStack "42" (Json.Marshal ["main"; "quiz"]);
      State.EvRender Examples.quizState])
  /\ State.getStack Examples.quizHandler "42"
       (State.storage
          (State.Go (State.toState Examples.quizState) Examples.quizHandler
             Examples.someContext (Examples.quizWorld ["main"] [])).1.2)
     = (Some [Examples.mainState; Examples.quizState], None, []).
Proof.
  refine ((fun H => conj (proj1 H) (proj1 (proj2 H)))
            (proj1 (toState_Go_stack Examples.quizHandler
               Examples.quizState Examples.someContext
               (Examples.quizWorld ["main"] []) (Some [Examples.mainState]) []
               registry_ok_quizHandler eq_refl eq_refl _) _)).
  - repeat constructor.
  - cbn. intros Hin. apply list_elem_of_singleton in Hin. discriminate.
Defined.

(** C9, as stated, fails on two states of one name: registration
    panics. *)
Lemma RegisterAndChainStates_chain_counterexample :
  State.RegisterAndChainStates (State.NewStateHandler []) ∅
    [Some Examples.mainChain; Some Examples.mainAgain]
  = Panic "nabot: a state with name %q already exists" ["main"].
Proof. vm_compute. reflexivity. Qed.

(** * Further properties of the code *)

(** ** The in-memory state storage *)

(** X1.  The in-memory state storage: [SetStack] returns no error;
    [GetStack] then returns the blob stored last for the same chat key,
    with no error, and returns for every other chat key what it returned
    before; and the only error [GetStack] returns is [ErrStateNotFound]
    itself, for a key nothing was stored for, as for every key of a new
    store. *)
Theorem memoryStateStore_SetStack_GetStack (m : State.memoryStateStore)
    (key : string) (blob : list byte) :
  (State.SetStack m key blob).1 = None
  /\ State.GetStack (State.SetStack m key blob).2 key = (blob, None)
  /\ (forall blob',
        State.GetStack
          (State.SetStack (State.SetStack m key blob).2 key blob').2 key
        = (blob', None))
  /\ (forall key', key' <> key ->
        State.GetStack (State.SetStack m key blob).2 key'
        = State.GetStack m key')
  /\ (forall e, (State.GetStack m key).2 = Some e ->
        e = ErrStateNotFound /\ m !! key = None)
  /\ State.GetStack State.NewInMemoryStateStore key
     = ([], Some ErrStateNotFound).
Proof.
  cbn [State.SetStack State.GetStack State.memoryStateStorage fst snd].
  split; [done|]. split; [by rewrite memory_lookup_insert|].
  split; [intros blob'; by rewrite memory_lookup_insert|].
  split; [|split].
  - intros key' Hne.
    assert (Hl : <[key := blob]> m !! key' = m !! key')
      by (by apply lookup_insert_ne).
    by rewrite Hl.
  - intros e. destruct (m !! key); simpl; [discriminate|].
    by intros [= <-].
  - reflexivity.
Qed.

(** ** Registration *)

Section RegistrationFacts.
Context `{Transport} {Env : Type}.
Import State.
Implicit Types (s : StateHandler (Env := Env)) (st : State (Env := Env)).
Implicit Types (bw css : list (ChainableState (Env := Env))).

(** X2.  [RegisterState] panics on the [nil] state and on a state whose
    name is registered; on any other state it registers the state under
    its name, keeps every earlier registration, and returns the
    transition to the state.  From then on the name is taken: registering
    a state of that name again panics. *)
Theorem RegisterState_names_unique s :
  RegisterState s None = Panic "nabot: cannot register nil state" []
  /\ (forall st, states s !! StateName st <> None ->
        RegisterState s (Some st)
        = Panic "nabot: a state with name %q already exists" [StateName st])
  /\ (forall st, states s !! StateName st = None ->
        exists s',
          RegisterState s (Some st) = Ok (s', toState st)
          /\ registered s' st
          /\ (forall name, name <> StateName st ->
                states s' !! name = states s !! name)
          /\ (registry_ok s -> registry_ok s')
          /\ forall st', StateName st' = StateName st ->
               RegisterState s' (Some st')
               = Panic "nabot: a state with name %q already exists"
                       [StateName st]).
Proof.
  split; [done|]. split.
  - intros st Hl. unfold RegisterState.
    by destruct (states s !! StateName st).
  - intros st Hl.
    assert (Hr : RegisterState s (Some st)
                 = Ok ({| sh_logger := sh_logger s;
                          states := <[StateName st := st]> (states s) |},
                       toState st))
      by (unfold RegisterState; by rewrite Hl).
    eexists. split; [exact Hr|]. split; [|split; [|split]].
    + unfold registered. cbn [states]. apply lookup_insert_eq.
    + intros name Hne. cbn [states]. by apply lookup_insert_ne.
    + intros Hok. eapply RegisterState_ok; [exact Hok | exact Hr].
    + intros st' Hn. unfold RegisterState. cbn [states]. rewrite Hn.
      by rewrite lookup_insert_eq.
Qed.

(** The loop of [RegisterAndChainStates] panics when it comes to a name
    that is taken. *)
Lemma chainStates_panic bw : forall s (nexts : gmap nat (Transition (Env := Env))) t,
  (exists c, c ∈ bw /\ states s !! chainedName c <> None)
  \/ ~ NoDup (chainedName <$> bw) ->
  exists name,
    name ∈ chainedName <$> bw
    /\ chainStates s nexts (Some <$> bw) t
       = Panic "nabot: a state with name %q already exists" [name].
Proof.
  induction bw as [|c bw IH]; intros s nexts t Hbad.
  - destruct Hbad as [(c & Hin & _)|Hnd].
    + by apply elem_of_nil in Hin.
    + destruct Hnd. constructor.
  - change (Some <$> c :: bw) with (Some c :: (Some <$> bw)).
    cbn [chainStates].
    assert (Has : match t, Some c with
                  | None, _ => Ok nexts
                  | Some tr, Some cs => Ok (<[Next cs := tr]> nexts)
                  | Some _, None =>
                      Panic "invalid memory address or nil pointer dereference" []
                  end
                  = Ok (match t with
                        | Some tr => <[Next c := tr]> nexts
                        | None => nexts
                        end)) by (by destruct t).
    rewrite Has. clear Has.
    unfold RegisterState. cbn [fmap option_fmap option_map].
    fold (chainedName c).
    destruct (states s !! chainedName c) as [st0|] eqn:Hc.
    { exists (chainedName c). split; [|done].
      rewrite fmap_cons. apply elem_of_cons. by left. }
    set (s' := {| sh_logger := sh_logger s;
                  states := <[chainedName c := chained c]> (states s) |}).
    assert (Hbad' : (exists c', c' ∈ bw /\ states s' !! chainedName c' <> None)
                    \/ ~ NoDup (chainedName <$> bw)).
    { destruct Hbad as [(c' & Hin & Hl)|Hnd].
      - left. apply elem_of_cons in Hin as [->|Hin]; [congruence|].
        exists c'. split; [done|]. unfold s'. cbn [states].
        destruct (decide (chainedName c = chainedName c')) as [->|Hne].
        + by rewrite lookup_insert_eq.
        + by rewrite lookup_insert_ne.
      - destruct (decide (chainedName c ∈ chainedName <$> bw)) as [Hin|Hnin].
        + left. apply list_elem_of_fmap in Hin as (c' & Hn & Hin).
          exists c'. split; [done|]. unfold s'. cbn [states].
          rewrite <- Hn. by rewrite lookup_insert_eq.
        + right. intros Hnd'. apply Hnd. rewrite fmap_cons.
          by apply NoDup_cons. }
    destruct (IH s' (match t with
                     | Some tr => <[Next c := tr]> nexts
                     | None => nexts
                     end) (Some (toState (chained c))) Hbad')
      as (name & Hin & Hp).
    exists name. split; [|exact Hp].
    rewrite fmap_cons. apply elem_of_cons. by right.
Qed.

(** The loop panics when it comes to a [nil] state. *)
Lemma chainStates_nil (backwards : list (option (ChainableState (Env := Env)))) :
  forall s (nexts : gmap nat (Transition (Env := Env))) t,
  None ∈ backwards ->
  exists msg args, chainStates s nexts backwards t = Panic msg args.
Proof.
  induction backwards as [|st earlier IH]; intros s nexts t Hin.
  - by apply elem_of_nil in Hin.
  - cbn [chainStates]. destruct st as [c|].
    + apply elem_of_cons in Hin as [Hin|Hin]; [discriminate|].
      assert (Has : match t, Some c with
                    | None, _ => Ok nexts
                    | Some tr, Some cs => Ok (<[Next cs := tr]> nexts)
                    | Some _, None =>
                        Panic "invalid memory address or nil pointer dereference" []
                    end
                    = Ok (match t with
                          | Some tr => <[Next c := tr]> nexts
                          | None => nexts
                          end)) by (by destruct t).
      rewrite Has. clear Has.
      destruct (RegisterState s (chained <$> Some c)) as [[s' tr]|msg args];
        [by apply IH | eauto].
    + destruct t; simpl; eauto.
Qed.

(** X3.  [RegisterAndChainStates] on states that are not [nil] returns
    if and only if there is a state, the names of the states differ from
    each other and none of them is registered.  Without a state it
    panics for that; on a name that is taken it panics with that name;
    and with a [nil] state in the list it panics. *)
Theorem RegisterAndChainStates_returns_iff s
    (nexts : gmap nat (Transition (Env := Env))) css :
  ((exists r, RegisterAndChainStates s nexts (Some <$> css) = Ok r)
   <-> css <> []
       /\ NoDup (chainedName <$> css)
       /\ forall c, c ∈ css -> states s !! chainedName c = None)
  /\ (css = [] ->
      RegisterAndChainStates s nexts (Some <$> css)
      = Panic "nabot: at least one chainable state required" [])
  /\ (css <> [] ->
      ~ (NoDup (chainedName <$> css)
         /\ forall c, c ∈ css -> states s !! chainedName c = None) ->
      exists name,
        name ∈ chainedName <$> css
        /\ RegisterAndChainStates s nexts (Some <$> css)
           = Panic "nabot: a state with name %q already exists" [name])
  /\ (forall sts, None ∈ sts ->
      exists msg args, RegisterAndChainStates s nexts sts = Panic msg args).
Proof.
  assert (Hnil : forall sts, None ∈ sts ->
            exists msg args, RegisterAndChainStates s nexts sts = Panic msg args).
  { intros sts Hin. unfold RegisterAndChainStates.
    destruct sts as [|st0 sts0] eqn:Hsts; [eauto|]. rewrite <- Hsts in *.
    apply chainStates_nil. by apply elem_of_reverse. }
  assert (Hrun : css <> [] ->
            RegisterAndChainStates s nexts (Some <$> css)
            = chainStates s nexts (Some <$> reverse css) None).
  { intros Hne. unfold RegisterAndChainStates.
    destruct css as [|c0 css0]; [done|]. by rewrite fmap_reverse. }
  assert (Hpanic : css <> [] ->
            ~ (NoDup (chainedName <$> css)
               /\ forall c, c ∈ css -> states s !! chainedName c = None) ->
            exists name,
              name ∈ chainedName <$> css
              /\ RegisterAndChainStates s nexts (Some <$> css)
                 = Panic "nabot: a state with name %q already exists" [name]).
  { intros Hne Hbad. rewrite (Hrun Hne).
    destruct (chainStates_panic (reverse css) s nexts None)
      as (name & Hin & Hp).
    - destruct (decide (NoDup (chainedName <$> css))) as [Hnd|Hnd].
      + left.
        destruct (decide (Forall (fun c => states s !! chainedName c = None) css))
          as [Hall|Hex].
        * destruct Hbad. split; [done|]. by apply Forall_forall.
        * apply not_Forall_Exists in Hex; [|intros c; apply _].
          apply Exists_exists in Hex as (c & Hin & Hl).
          exists c. split; [by apply elem_of_reverse | done].
      + right. by rewrite fmap_reverse, reverse_Permutation.
    - exists name. split; [|exact Hp].
      by rewrite fmap_reverse, elem_of_reverse in Hin. }
  split; [|split; [by intros ->|split; [exact Hpanic | exact Hnil]]].
  split.
  - intros [r Hr].
    assert (Hne : css <> []) by (intros ->; discriminate).
    split; [exact Hne|].
    destruct (decide (NoDup (chainedName <$> css))) as [Hnd|Hnd].
    + split; [exact Hnd|].
      destruct (decide (Forall (fun c => states s !! chainedName c = None) css))
        as [Hall|Hex]; [by apply Forall_forall|].
      destruct (Hpanic Hne) as (name & _ & Hp); [|congruence].
      intros [_ Hall]. apply Hex. by apply Forall_forall.
    + destruct (Hpanic Hne) as (name & _ & Hp); [|congruence].
      by intros [? _].
  - intros (Hne & Hnd & Hfresh). rewrite (Hrun Hne).
    rewrite chainStates_ok.
    + eauto.
    + by rewrite fmap_reverse, reverse_Permutation.
    + intros c Hin. apply Hfresh. by apply elem_of_reverse.
Qed.

End RegistrationFacts.

(** ** Transitions when the storage fails *)

Section StorageFailures.
Context `{Transport} {Store Env : Type} `{State.StateStorage Store}.
Import State.
Implicit Types (s : StateHandler (Env := Env)) (ctx : Context).
Implicit Types (w : World (Store := Store) (Env := Env)).

(** The stack the transitions hand to [setStack] is the one
    [Runs.stackAfter] makes of the stack read. *)
Lemma toState_stack_elems (stack : option (list (State (Env := Env)))) dest :
  elems (match IndexFunc (elems stack) (StateName dest) with
         | Some idx => take (idx + 1) <$> stack
         | None => Some (elems stack ++ [dest])
         end)
  = Runs.stackAfter (toState dest) (elems stack).
Proof.
  unfold Runs.stackAfter.
  destruct (IndexFunc (elems stack) (StateName dest)) as [idx|] eqn:Hi; [|done].
  destruct stack; [done|]. simpl in Hi. discriminate.
Qed.

Lemma back_stack_elems (stack : option (list (State (Env := Env)))) :
  elems (take (len stack - 1) <$> stack)
  = Runs.stackAfter back (elems stack).
Proof. unfold Runs.stackAfter, len. by destruct stack. Qed.

(** X4.  When the storage fails to read the stack, with an error that is
    not [ErrStateNotFound], every transition and [StateHandler.Handle]
    return that error, wrapped: nothing is stored, no state is rendered
    or given the update, nothing is logged, and [errors.Is] finds in the
    error returned what it finds in the error of the storage. *)
Theorem storage_read_failure s ctx w blob e :
  GetStack (storage w) (chatKey ctx) = (blob, Some e) ->
  errors_Is (Some e) ErrStateNotFound = false ->
  let err := wrapError "failed to get stack: " e in
  (forall t, Go t s ctx w = (Some err, w, []))
  /\ StateHandler_Handle s ctx w = Ok (Some err, w, [])
  /\ forall target, errors_Is (Some err) target = errors_Is (Some e) target.
Proof.
  intros Hget Hnf err.
  assert (Hg : getStack s (chatKey ctx) (storage w) = (None, Some err, [])).
  { rewrite getStack_cases, Hget. by rewrite Hnf. }
  split; [|split].
  - intros [dest|]; simpl.
    + unfold toState_Go. by rewrite Hg.
    + unfold back_Go. by rewrite Hg.
  - unfold StateHandler_Handle. by rewrite Hg.
  - done.
Qed.

(** X5.  When the storage fails to store the stack a transition made,
    the transition returns that error, wrapped, right after the call of
    [SetStack]: no state is rendered and the world of the callbacks is as
    it was.  (The transition back on no stack stores nothing.) *)
Theorem storage_write_failure s t ctx w stack log e σ' :
  getStack s (chatKey ctx) (storage w) = (stack, None, log) ->
  (t = back -> elems stack <> []) ->
  let blob := Json.Marshal (knownNames s (Runs.stackAfter t (elems stack))) in
  SetStack (storage w) (chatKey ctx) blob = (Some e, σ') ->
  Go t s ctx w
  = (Some (wrapError "failed to set stack: " e), mkWorld σ' (env w),
     log ++ [EvSetStack (chatKey ctx) blob])
  /\ forall st, EvRender st ∉ (Go t s ctx w).2.
Proof.
  intros Hg Hback blob Hset.
  pose proof (getStack_log _ _ _ _ _ _ Hg) as Hlog.
  assert (Hgo : Go t s ctx w
                = (Some (wrapError "failed to set stack: " e),
                   mkWorld σ' (env w),
                   log ++ [EvSetStack (chatKey ctx) blob])).
  { destruct t as [dest|]; simpl.
    - unfold toState_Go. rewrite Hg. unfold setStack.
      rewrite toState_stack_elems. fold blob. by rewrite Hset.
    - unfold back_Go. rewrite Hg.
      destruct (len stack =? 0)%nat eqn:Hlen.
      { apply Nat.eqb_eq in Hlen. destruct Hback; [done|].
        unfold len in Hlen. by apply length_zero_iff_nil. }
      unfold setStack. rewrite back_stack_elems. fold blob. by rewrite Hset. }
  split; [exact Hgo|]. rewrite Hgo. cbn [snd].
  intros st Hin. apply elem_of_app in Hin as [Hin|Hin].
  - rewrite Forall_forall in Hlog. destruct (Hlog _ Hin) as [r Hr].
    discriminate.
  - apply list_elem_of_singleton in Hin. discriminate.
Qed.

End StorageFailures.

(** The quiz bot on a storage that cannot be read: the transition to
    "quiz" returns the error of the storage, wrapped. *)
Lemma storage_read_failure_witness :
  State.Go (State.toState Examples.quizState) Examples.quizHandler
    Examples.someContext
    (State.mkWorld (Scenarios.unreadable ["main"]) [])
  = (Some (wrapError "failed to get stack: " (errorString "connection refused")),
     State.mkWorld (Scenarios.unreadable ["main"]) [], []).
Proof.
  exact (proj1 (storage_read_failure Examples.quizHandler Examples.someContext
                  (State.mkWorld (Scenarios.unreadable ["main"]) [])
                  [] (errorString "connection refused") eq_refl eq_refl)
               (State.toState Examples.quizState)).
Defined.

(** The quiz bot on a storage that cannot be written: the transition to
    "quiz" from the stack main returns the error, and nothing is
    rendered. *)
Lemma storage_write_failure_witness :
  State.Go (State.toState Examples.quizState) Examples.quizHandler
    Examples.someContext
    (State.mkWorld (Scenarios.readOnly ["main"]) [])
  = (Some (wrapError "failed to set stack: " (errorString "read-only storage")),
     State.mkWorld (Scenarios.readOnly ["main"]) [],
     [State.EvSetStack "42" (Json.Marshal ["main"; "quiz"])]).
Proof.
  refine (proj1 (storage_write_failure Examples.quizHandler
                   (State.toState Examples.quizState) Examples.someContext
                   (State.mkWorld (Scenarios.readOnly ["main"]) [])
                   (Some [Examples.mainState]) []
                   (errorString "read-only storage")
                   (Scenarios.readOnly ["main"]) _ _ _)).
  - vm_compute. reflexivity.
  - discriminate.
  - vm_compute. reflexivity.
Defined.

(** ** Conversations on the in-memory state storage

    As in the model of the transitions, the callbacks of a state act on
    the world outside the state storage: what is stored changes by the
    transitions themselves only. *)

Section ConversationFacts.
Context `{Transport} {Env : Type}.
Import State Runs.
Implicit Types (s : StateHandler (Env := Env)) (σ : memoryStateStore).
Implicit Types (ctx : Context) (st dest : State (Env := Env)).
Implicit Types (w : World (Store := memoryStateStore) (Env := Env)).
Implicit Types (t : Transition (Env := Env)).
Implicit Types (old new : list (State (Env := Env))).

(** What [getStack] reads where the names of registered states were
    stored. *)
Lemma getStack_stored s key σ new :
  names_valid s -> Forall (registered s) new ->
  getStack s key (<[key := Json.Marshal (names new)]> σ)
  = (match new with
     | [] => None
     | _ :: _ => Some new
     end, None, []).
Proof.
  intros Hvalid Hreg. rewrite getStack_cases.
  unfold GetStack, memoryStateStorage. rewrite memory_lookup_insert.
  cbn [errors_Is]. rewrite Unmarshal_Marshal.
  - rewrite (omap_lookup_names _ _ Hreg). by destruct new.
  - unfold names. apply Forall_fmap. eapply Forall_impl; [exact Hreg|].
    intros st Hst. exact (Hvalid _ _ Hst).
Qed.

Lemma stackOf_stored s key σ new :
  names_valid s -> Forall (registered s) new ->
  stackOf s key (<[key := Json.Marshal (names new)]> σ) = new.
Proof.
  intros Hvalid Hreg. unfold stackOf. rewrite getStack_stored by done.
  by destruct new.
Qed.

Lemma stackOf_registered s key σ :
  registry_ok s -> Forall (registered s) (stackOf s key σ).
Proof.
  intros Hok. unfold stackOf.
  destruct (getStack s key σ) as [[stack err] log] eqn:Hg.
  exact (getStack_registered _ _ _ _ _ _ Hok Hg).
Qed.

Lemma stackAfter_registered s t old :
  known s t -> Forall (registered s) old ->
  Forall (registered s) (stackAfter t old).
Proof.
  intros Hk Hold. destruct t as [dest|]; simpl.
  - destruct (IndexFunc old (StateName dest)).
    + by apply Forall_take.
    + apply Forall_app. split; [done|]. by constructor.
  - by apply Forall_take.
Qed.

(** The storage a transition leaves. *)
Lemma Go_memory_storage s t ctx w :
  registry_ok s -> known s t ->
  let old := stackOf s (chatKey ctx) (storage w) in
  storage (Go t s ctx w).1.2
  = match t, old with
    | back, [] => storage w
    | _, _ =>
        <[chatKey ctx := Json.Marshal (names (stackAfter t old))]> (storage w)
    end.
Proof.
  intros Hok Hk old. unfold old, stackOf.
  destruct (getStack s (chatKey ctx) (storage w)) as [[stack err] log] eqn:Hg.
  pose proof (getStack_memory_no_error s (chatKey ctx) (storage w)) as Hnone.
  rewrite Hg in Hnone. simpl in Hnone. subst err. cbn [fst snd].
  pose proof (getStack_registered _ _ _ _ _ _ Hok Hg) as Hreg.
  destruct t as [dest|].
  - change (Go (toState dest) s ctx w) with (toState_Go s dest ctx w).
    rewrite (toState_Go_memory s dest ctx w stack log Hok Hk Hg).
    cbn [stackAfter]. by destruct (Render dest ctx (env w)).
  - change (Go back s ctx w) with (back_Go s ctx w).
    unfold back_Go. rewrite Hg. unfold len.
    destruct (elems stack) as [|st0 rest] eqn:He; [done|].
    cbn [List.length Nat.eqb]. rewrite setStack_memory.
    pose proof (back_stack_elems stack) as Hb. unfold len in Hb.
    rewrite He in Hb. cbn [List.length] in Hb. rewrite Hb.
    assert (Hall : Forall (registered s) (stackAfter back (st0 :: rest)))
      by (by apply stackAfter_registered).
    rewrite (knownNames_registered _ _ Hall).
    destruct (last (stackAfter back (st0 :: rest))) as [top|]; [|done].
    by destruct (Render top ctx (env w)).
Qed.

(** The stack read after a transition is the one the transition made of
    the stack read before. *)
Lemma stackOf_Go s t ctx w :
  registry_ok s -> names_valid s -> known s t ->
  stackOf s (chatKey ctx) (storage (Go t s ctx w).1.2)
  = stackAfter t (stackOf s (chatKey ctx) (storage w)).
Proof.
  intros Hok Hvalid Hk. rewrite Go_memory_storage by done.
  pose proof (stackOf_registered s (chatKey ctx) (storage w) Hok) as Hreg.
  assert (Hnew : Forall (registered s)
                   (stackAfter t (stackOf s (chatKey ctx) (storage w))))
    by (by apply stackAfter_registered).
  destruct t as [dest|].
  - by apply stackOf_stored.
  - destruct (stackOf s (chatKey ctx) (storage w)) as [|st0 rest] eqn:He.
    + by rewrite He.
    + by apply stackOf_stored.
Qed.

(** The first position of a name in a list that has it. *)
Lemma IndexFunc_app_fresh old dest :
  IndexFunc old (StateName dest) = None ->
  IndexFunc (old ++ [dest]) (StateName dest) = Some (List.length old).
Proof.
  induction old as [|st old IH]; simpl.
  - by rewrite String.eqb_refl.
  - destruct (String.eqb (StateName st) (StateName dest)); [discriminate|].
    destruct (IndexFunc old (StateName dest)); [discriminate|].
    intros _. by rewrite IH.
Qed.

Lemma IndexFunc_take old name idx :
  IndexFunc old name = Some idx ->
  IndexFunc (take (idx + 1) old) name = Some idx.
Proof.
  revert idx. induction old as [|st old IH]; intros idx; simpl; [discriminate|].
  destruct (String.eqb (StateName st) name) eqn:He.
  - intros [= <-]. simpl. by rewrite He.
  - destruct (IndexFunc old name) as [k|] eqn:Hk; [|discriminate].
    intros [= <-]. simpl. rewrite He. by rewrite (IH k).
Qed.

Lemma IndexFunc_lt old name idx :
  IndexFunc old name = Some idx -> idx < List.length old.
Proof.
  intros Hi. apply IndexFunc_Some in Hi as [Hl _].
  apply lookup_lt_Some in Hl. unfold names in Hl.
  by rewrite length_fmap in Hl.
Qed.

(** Going to a state a second time changes nothing. *)
Lemma stackAfter_toState_twice old dest :
  stackAfter (toState dest) (stackAfter (toState dest) old)
  = stackAfter (toState dest) old.
Proof.
  cbn [stackAfter].
  destruct (IndexFunc old (StateName dest)) as [idx|] eqn:Hi.
  - rewrite (IndexFunc_take _ _ _ Hi). by rewrite take_take, Nat.min_id.
  - rewrite (IndexFunc_app_fresh _ _ Hi).
    apply take_ge. rewrite length_app. simpl. lia.
Qed.

(** The stack a transition to a registered state makes ends with that
    state. *)
Lemma stackAfter_toState_last s old dest :
  Forall (registered s) old -> registered s dest ->
  last (stackAfter (toState dest) old) = Some dest.
Proof.
  intros Hold Hd. cbn [stackAfter].
  destruct (IndexFunc old (StateName dest)) as [idx|] eqn:Hi.
  - apply IndexFunc_Some in Hi as [Hl _].
    pose proof (registered_at s old dest idx Hold Hd Hl) as Hat.
    replace (idx + 1) with (S idx) by lia.
    rewrite (take_S_r _ _ _ Hat). by rewrite last_snoc.
  - by rewrite last_snoc.
Qed.

(** X6.  A transition to a registered state is idempotent on the stack:
    after [toState(dest).Go], the stack of the conversation ends with
    [dest], and a second [toState(dest).Go] in the conversation stores
    the same stack again, so the storage is the same after it. *)
Theorem toState_Go_idempotent s dest ctx ctx' w :
  registry_ok s -> names_valid s -> registered s dest ->
  chatKey ctx' = chatKey ctx ->
  let w1 := (Go (toState dest) s ctx w).1.2 in
  let w2 := (Go (toState dest) s ctx' w1).1.2 in
  last (stackOf s (chatKey ctx) (storage w1)) = Some dest
  /\ stackOf s (chatKey ctx) (storage w2) = stackOf s (chatKey ctx) (storage w1)
  /\ storage w2 = storage w1.
Proof.
  intros Hok Hvalid Hd Hkey w1 w2.
  assert (Hk : known s (toState dest)) by exact Hd.
  pose proof (stackOf_registered s (chatKey ctx) (storage w) Hok) as Hreg.
  assert (H1 : stackOf s (chatKey ctx) (storage w1)
               = stackAfter (toState dest) (stackOf s (chatKey ctx) (storage w)))
    by (by apply stackOf_Go).
  assert (H2 : stackOf s (chatKey ctx) (storage w2)
               = stackOf s (chatKey ctx) (storage w1)).
  { unfold w2. rewrite <- Hkey. rewrite stackOf_Go by done.
    rewrite Hkey, H1. apply stackAfter_toState_twice. }
  split; [|split; [exact H2|]].
  - rewrite H1. by eapply stackAfter_toState_last.
  - unfold w2. rewrite Go_memory_storage by done. rewrite Hkey.
    cbv zeta. rewrite H1, stackAfter_toState_twice.
    unfold w1. rewrite Go_memory_storage by done. cbv zeta.
    apply insert_insert_eq.
Qed.

(** X7.  On the in-memory storage, for a registry whose names are all
    valid UTF-8: going to a registered state that is not on the stack and
    then back leaves the stack of the conversation as it was. *)
Theorem toState_then_back s dest ctx ctx' w :
  registry_ok s -> names_valid s -> registered s dest ->
  chatKey ctx' = chatKey ctx ->
  StateName dest ∉ names (stackOf s (chatKey ctx) (storage w)) ->
  let w1 := (Go (toState dest) s ctx w).1.2 in
  let w2 := (Go back s ctx' w1).1.2 in
  stackOf s (chatKey ctx) (storage w1)
  = stackOf s (chatKey ctx) (storage w) ++ [dest]
  /\ stackOf s (chatKey ctx) (storage w2) = stackOf s (chatKey ctx) (storage w).
Proof.
  intros Hok Hvalid Hd Hkey Hfresh w1 w2.
  assert (Hk : known s (toState dest)) by exact Hd.
  apply IndexFunc_None in Hfresh.
  assert (H1 : stackOf s (chatKey ctx) (storage w1)
               = stackOf s (chatKey ctx) (storage w) ++ [dest]).
  { unfold w1. rewrite stackOf_Go by done. cbn [stackAfter].
    by rewrite Hfresh. }
  split; [exact H1|].
  unfold w2. rewrite <- Hkey. rewrite stackOf_Go by done.
  rewrite Hkey, H1. cbn [stackAfter]. rewrite length_app. cbn [List.length].
  replace (List.length (stackOf s (chatKey ctx) (storage w)) + 1 - 1)
    with (List.length (stackOf s (chatKey ctx) (storage w))) by lia.
  by rewrite take_app_length.
Qed.

(** What [StateHandler.Handle] does by the stack of the conversation. *)
Lemma StateHandler_Handle_top s ctx w new :
  names_valid s -> Forall (registered s) new ->
  storage w !! chatKey ctx = Some (Json.Marshal (names new)) ->
  StateHandler_Handle s ctx w
  = match last new with
    | None => Ok (Some ErrPass, w, [])
    | Some top =>
        let '(r, env') :=
          Handle (handler top)
            (ContextWithLogger ctx
               (With (logger ctx) "state" (AttrString (StateName top))))
            (env w) in
        Ok (r, mkWorld (storage w) env', [EvHandle top])
    end.
Proof.
  intros Hvalid Hreg Hl.
  assert (Hσ : storage w
               = <[chatKey ctx := Json.Marshal (names new)]> (storage w))
    by (symmetry; by apply insert_id).
  unfold StateHandler_Handle. rewrite Hσ at 1.
  rewrite getStack_stored by done.
  destruct new as [|st0 rest]; [done|].
  destruct (last (st0 :: rest)) as [top|] eqn:Hlast; [done|].
  apply last_None in Hlast. discriminate.
Qed.

(** X8.  The state a conversation is in gets its updates.  On the
    in-memory storage, for a registry whose names are all valid UTF-8:
    after [toState(dest).Go] for a registered state, [StateHandler.Handle]
    gives the next update of the conversation to [dest], calling its
    [Handle] once with the logger tagged by its name, and returns what it
    returns.  After [back.Go] from a stack [rest ++ [top]] it gives the
    update in the same way to the last state of [rest], and declines with
    [ErrPass], calling no state, when [rest] has no state. *)
Theorem StateHandler_Handle_after_Go s ctx ctx' w :
  registry_ok s -> names_valid s ->
  chatKey ctx' = chatKey ctx ->
  let handed st w1 :=
    exists r env' σ',
      StateHandler_Handle s ctx' w1
      = Ok (r, mkWorld σ' env', [EvHandle st])
      /\ Handle (handler st)
           (ContextWithLogger ctx'
              (With (logger ctx') "state" (AttrString (StateName st))))
           (env w1)
         = (r, env') in
  (forall dest, registered s dest ->
     handed dest (Go (toState dest) s ctx w).1.2)
  /\ (forall rest top,
        stackOf s (chatKey ctx) (storage w) = rest ++ [top] ->
        let w1 := (Go back s ctx w).1.2 in
        match last rest with
        | None =>
            exists σ',
              StateHandler_Handle s ctx' w1
              = Ok (Some ErrPass, mkWorld σ' (env w1), [])
        | Some below => handed below w1
        end).
Proof.
  intros Hok Hvalid Hkey handed.
  pose proof (stackOf_registered s (chatKey ctx) (storage w) Hok) as Hreg.
  split.
  - intros dest Hd. unfold handed.
    set (w1 := (Go (toState dest) s ctx w).1.2).
    assert (Hk : known s (toState dest)) by exact Hd.
    assert (Hnew : Forall (registered s)
                     (stackAfter (toState dest)
                        (stackOf s (chatKey ctx) (storage w))))
      by (by apply stackAfter_registered).
    rewrite (StateHandler_Handle_top s ctx' w1 _ Hvalid Hnew).
    + rewrite (stackAfter_toState_last s _ _ Hreg Hd).
      destruct (Handle (handler dest) _ (env w1)) as [r env'].
      exists r, env', (storage w1). done.
    + unfold w1. rewrite Go_memory_storage by done. cbv zeta.
      rewrite Hkey. apply memory_lookup_insert.
  - intros rest top Hst w1.
    assert (Hrest : Forall (registered s) rest).
    { rewrite Hst in Hreg. by apply Forall_app in Hreg as [? _]. }
    assert (Hl : storage w1 !! chatKey ctx' = Some (Json.Marshal (names rest))).
    { unfold w1. rewrite Go_memory_storage by done. cbv zeta.
      rewrite Hst. cbn [stackAfter]. rewrite length_app. cbn [List.length].
      replace (List.length rest + 1 - 1) with (List.length rest) by lia.
      rewrite take_app_length. rewrite Hkey.
      destruct rest; simpl; apply memory_lookup_insert. }
    pose proof (StateHandler_Handle_top s ctx' w1 rest Hvalid Hrest Hl) as Hh.
    destruct (last rest) as [below|].
    + unfold handed.
      destruct (Handle (handler below) _ (env w1)) as [r env'].
      exists r, env', (storage w1). done.
    + exists (storage w1). rewrite Hh. by destruct w1.
Qed.

(** X9.  Conversations do not touch each other: a transition in one
    conversation leaves the blob stored for every other chat key, and so
    the stack read for it, as they were. *)
Theorem Go_other_conversation s t ctx w key :
  key <> chatKey ctx ->
  storage (Go t s ctx w).1.2 !! key = storage w !! key
  /\ getStack s key (storage (Go t s ctx w).1.2) = getStack s key (storage w).
Proof.
  intros Hne.
  assert (Hl : storage (Go t s ctx w).1.2 !! key = storage w !! key).
  { destruct t as [dest|]; simpl.
    - unfold toState_Go.
      destruct (getStack s (chatKey ctx) (storage w)) as [[stack err] log].
      destruct err; [done|]. rewrite setStack_memory.
      destruct (Render dest ctx (env w)). cbn [fst snd storage].
      by apply lookup_insert_ne.
    - unfold back_Go.
      destruct (getStack s (chatKey ctx) (storage w)) as [[stack err] log].
      destruct err; [done|].
      destruct (len stack =? 0)%nat; [done|]. rewrite setStack_memory.
      destruct (last _) as [top|].
      + destruct (Render top ctx (env w)). cbn [fst snd storage].
        by apply lookup_insert_ne.
      + cbn [fst snd storage]. by apply lookup_insert_ne. }
  split; [exact Hl|].
  assert (Hget : GetStack (storage (Go t s ctx w).1.2) key
                 = GetStack (storage w) key).
  { cbn [GetStack memoryStateStorage]. by rewrite Hl. }
  rewrite !getStack_cases. by rewrite Hget.
Qed.

(** The stack after a run is the stack the transitions make one after
    the other. *)
Lemma stackOf_run s ctx ts : forall w,
  registry_ok s -> names_valid s -> Forall (known s) ts ->
  stackOf s (chatKey ctx) (storage (run s ctx ts w))
  = foldl (fun old t => stackAfter t old)
          (stackOf s (chatKey ctx) (storage w)) ts.
Proof.
  induction ts as [|t ts IH]; intros w Hok Hvalid Hts; [done|].
  apply Forall_cons in Hts as [Ht Hts]. cbn [run foldl].
  change (foldl (fun w0 t0 => (Go t0 s ctx w0).1.2) ((Go t s ctx w).1.2) ts)
    with (run s ctx ts (Go t s ctx w).1.2).
  rewrite IH by done. by rewrite stackOf_Go.
Qed.

Lemma stackAfter_NoDup t old :
  NoDup (names old) -> NoDup (names (stackAfter t old)).
Proof.
  intros Hnd. destruct t as [dest|]; cbn [stackAfter].
  - by apply (toState_Go_no_duplicates (NewStateHandler [])).
  - by apply back_Go_no_duplicates.
Qed.

(** X10.  An invariant of conversations, on the in-memory storage and
    for a registry whose names are all valid UTF-8.  From a stack that
    holds no state twice (as the stack of a new conversation, which holds
    none), whatever transitions to registered states and back are
    performed, the stack read afterwards holds no state twice, holds
    registered states only, and so is never longer than the number of
    registered states. *)
Theorem run_stack_invariant s ctx ts w :
  registry_ok s -> names_valid s -> Forall (known s) ts ->
  NoDup (names (stackOf s (chatKey ctx) (storage w))) ->
  let final := stackOf s (chatKey ctx) (storage (run s ctx ts w)) in
  NoDup (names final)
  /\ Forall (registered s) final
  /\ List.length final <= size (states s).
Proof.
  intros Hok Hvalid Hts Hnd final.
  assert (Hfinal : NoDup (names final)).
  { unfold final. rewrite stackOf_run by done.
    generalize dependent (stackOf s (chatKey ctx) (storage w)).
    clear Hts final. induction ts as [|t ts IH]; intros old Hnd; [done|].
    cbn [foldl]. apply IH. by apply stackAfter_NoDup. }
  assert (Hreg : Forall (registered s) final)
    by (by apply stackOf_registered).
  split; [exact Hfinal|]. split; [exact Hreg|].
  assert (Hsub : names final ⊆+ (map_to_list (states s)).*1).
  { apply NoDup_submseteq; [exact Hfinal|].
    intros name Hin. unfold names in Hin.
    apply list_elem_of_fmap in Hin as (st & -> & Hin).
    rewrite Forall_forall in Hreg. pose proof (Hreg _ Hin) as Hst.
    apply list_elem_of_fmap. exists (StateName st, st). split; [done|].
    by apply elem_of_map_to_list. }
  apply submseteq_length in Hsub. unfold names in Hsub.
  rewrite !length_fmap, length_map_to_list in Hsub. exact Hsub.
Qed.

(** The names [setStack] collects are those under which the registry has
    a state. *)
Lemma knownNames_lookup s (stack : list (State (Env := Env))) :
  omap (fun name => states s !! name) (knownNames s stack)
  = omap (fun st => states s !! StateName st) stack.
Proof.
  unfold knownNames. induction stack as [|st stack IH]; [done|].
  cbn [omap list_omap]. destruct (states s !! StateName st) as [st'|] eqn:Hl.
  - cbn [omap list_omap]. rewrite Hl. f_equal. exact IH.
  - exact IH.
Qed.

Lemma knownNames_valid s (stack : list (State (Env := Env))) :
  names_valid s ->
  Forall (fun name => Json.ValidString name = true) (knownNames s stack).
Proof.
  intros Hvalid. unfold knownNames.
  induction stack as [|st stack IH]; [constructor|].
  cbn [omap list_omap]. destruct (states s !! StateName st) as [st'|] eqn:Hl.
  - constructor; [exact (Hvalid _ _ Hl) | exact IH].
  - exact IH.
Qed.

(** X11.  [setStack] on any stack, of registered states or not, on the
    in-memory storage and for a registry whose names are all valid UTF-8:
    the states whose name is not registered are left out of what is
    stored, and [getStack] then reads, for every other state of the stack
    and in the order of the stack, the state registered under its name;
    no stack when none is left. *)
Theorem setStack_filters_unregistered s key σ
    (stack : option (list (State (Env := Env)))) :
  names_valid s ->
  let found := omap (fun st => states s !! StateName st) (elems stack) in
  setStack s key stack σ
  = (None, <[key := Json.Marshal (knownNames s (elems stack))]> σ,
     [EvSetStack key (Json.Marshal (knownNames s (elems stack)))])
  /\ Forall (fun name => is_Some (states s !! name))
            (knownNames s (elems stack))
  /\ getStack s key (setStack s key stack σ).1.2
     = (match found with
        | [] => None
        | _ :: _ => Some found
        end, None, []).
Proof.
  intros Hvalid found. rewrite setStack_memory. split; [done|]. split.
  - unfold knownNames. induction (elems stack) as [|st l IH]; [constructor|].
    cbn [omap list_omap]. destruct (states s !! StateName st) as [st'|] eqn:Hl.
    + constructor; [by rewrite Hl | exact IH].
    + exact IH.
  - cbn [fst snd]. rewrite getStack_cases.
    unfold GetStack, memoryStateStorage. rewrite memory_lookup_insert.
    cbn [errors_Is].
    rewrite Unmarshal_Marshal by (by apply knownNames_valid).
    rewrite knownNames_lookup. fold found. by destruct found.
Qed.

(** X12.  On the in-memory storage, for a registry whose names are all
    valid UTF-8: going back [n] times takes the last [n] states off the
    stack of the conversation, and all of them when it has no more than
    [n]; going back as often as the stack is deep leaves no state, and
    going back once more changes nothing. *)
Theorem back_Go_repeated s ctx n w :
  registry_ok s -> names_valid s ->
  let old := stackOf s (chatKey ctx) (storage w) in
  stackOf s (chatKey ctx) (storage (run s ctx (replicate n back) w))
  = take (List.length old - n) old.
Proof.
  intros Hok Hvalid old.
  rewrite stackOf_run; [|done|done|].
  - fold old. generalize old. clear old.
    induction n as [|n IH]; intros old.
    + cbn [replicate foldl]. rewrite Nat.sub_0_r. by rewrite firstn_all.
    + cbn [replicate foldl stackAfter]. rewrite IH.
      rewrite take_take, length_take. f_equal. lia.
  - apply Forall_replicate. exact I.
Qed.

End ConversationFacts.

Lemma names_valid_quizHandler : Runs.names_valid Examples.quizHandler.
Proof.
  intros name st. unfold Examples.quizHandler. cbn [State.states].
  rewrite !lookup_insert, lookup_empty.
  repeat case_decide; intros [= <-]; subst; reflexivity.
Qed.

(** In the quiz bot, from the stack main: the transition to "quiz" done
    twice leaves the storage it left the first time. *)
Lemma toState_Go_idempotent_witness :
  State.storage
    (State.Go (State.toState Examples.quizState) Examples.quizHandler
       Examples.someContext
       (State.Go (State.toState Examples.quizState) Examples.quizHandler
          Examples.someContext (Examples.quizWorld ["main"] [])).1.2).1.2
  = State.storage
      (State.Go (State.toState Examples.quizState) Examples.quizHandler
         Examples.someContext (Examples.quizWorld ["main"] [])).1.2.
Proof.
  exact (proj2 (proj2 (toState_Go_idempotent Examples.quizHandler
           Examples.quizState Examples.someContext Examples.someContext
           (Examples.quizWorld ["main"] [])
           registry_ok_quizHandler names_valid_quizHandler
           eq_refl eq_refl))).
Defined.

(** From the stack main: to "quiz" and back, and the stack is main. *)
Lemma toState_then_back_witness :
  Runs.stackOf Examples.quizHandler "42"
    (State.storage
       (State.Go State.back Examples.quizHandler Examples.someContext
          (State.Go (State.toState Examples.quizState) Examples.quizHandler
             Examples.someContext (Examples.quizWorld ["main"] [])).1.2).1.2)
  = Runs.stackOf Examples.quizHandler "42"
      (State.storage (Examples.quizWorld ["main"] [])).
Proof.
  refine (proj2 (toState_then_back Examples.quizHandler
            Examples.quizState Examples.someContext Examples.someContext
            (Examples.quizWorld ["main"] [])
            registry_ok_quizHandler names_valid_quizHandler
            eq_refl eq_refl _)).
  assert (Hs : Runs.stackOf Examples.quizHandler
                 (chatKey Examples.someContext)
                 (State.storage (Examples.quizWorld ["main"] []))
               = [Examples.mainState]) by (vm_compute; reflexivity).
  rewrite Hs. intros Hin. apply list_elem_of_singleton in Hin. discriminate.
Defined.

(** After the transition to "quiz", the next update goes to "quiz". *)
Lemma StateHandler_Handle_after_Go_witness :
  exists r env' σ',
    State.StateHandler_Handle Examples.quizHandler Examples.someContext
      (State.Go (State.toState Examples.quizState) Examples.quizHandler
         Examples.someContext (Examples.quizWorld ["main"] [])).1.2
    = Ok (r, State.mkWorld σ' env', [State.EvHandle Examples.quizState])
    /\ Handle (State.handler Examples.quizState)
         (ContextWithLogger Examples.someContext
            (With (logger Examples.someContext) "state"
                  (AttrString (State.StateName Examples.quizState))))
         (State.env
            (State.Go (State.toState Examples.quizState) Examples.quizHandler
               Examples.someContext (Examples.quizWorld ["main"] [])).1.2)
       = (r, env').
Proof.
  exact (proj1 (StateHandler_Handle_after_Go Examples.quizHandler
           Examples.someContext Examples.someContext
           (Examples.quizWorld ["main"] [])
           registry_ok_quizHandler names_valid_quizHandler eq_refl)
         Examples.quizState eq_refl).
Defined.

(** A transition in chat 42 leaves what is stored for chat 7. *)
Lemma Go_other_conversation_witness :
  State.storage
    (State.Go (State.toState Examples.quizState) Examples.quizHandler
       Examples.someContext (Examples.quizWorld ["main"] [])).1.2 !! "7"
  = State.storage (Examples.quizWorld ["main"] []) !! "7".
Proof.
  refine (proj1 (Go_other_conversation Examples.quizHandler
            (State.toState Examples.quizState) Examples.someContext
            (Examples.quizWorld ["main"] []) "7" _)).
  discriminate.
Defined.

(** A run of the quiz bot from a new storage: to "main", to "quiz", back,
    to "quiz", to "main"; the stack has no state twice. *)
Lemma run_stack_invariant_witness :
  NoDup
    (State.names
       (Runs.stackOf Examples.quizHandler "42"
          (State.storage
             (Runs.run Examples.quizHandler Examples.someContext
                [State.toState Examples.mainState;
                 State.toState Examples.quizState;
                 State.back;
                 State.toState Examples.quizState;
                 State.toState Examples.mainState]
                (State.mkWorld State.NewInMemoryStateStore []))))).
Proof.
  refine (proj1 (run_stack_invariant Examples.quizHandler
            Examples.someContext
            [State.toState Examples.mainState;
             State.toState Examples.quizState;
             State.back;
             State.toState Examples.quizState;
             State.toState Examples.mainState]
            (State.mkWorld State.NewInMemoryStateStore [])
            registry_ok_quizHandler names_valid_quizHandler _ _)).
  - repeat constructor.
  - vm_compute. constructor.
Defined.

(** ** Registration order and the chain *)

Section ChainFacts.
Context `{Transport} {W : Type}.
Import App.
Implicit Types (a : App.App (W := W)) (ctx : Context) (w : W).
Implicit Types (hs : list (Handler W)).

(** The loop depends on the app through its logger only. *)
Lemma chainLoop_same_logger a a' ctx hs : forall i err handler w called,
  app_logger a' = app_logger a ->
  chainLoop a' ctx hs i err handler w called
  = chainLoop a ctx hs i err handler w called.
Proof.
  induction hs as [|h hs IH]; intros i err handler w called Hl; [done|].
  cbn [chainLoop]. unfold handlerContext. rewrite Hl.
  destruct (Handle h _ w) as [e w']. rewrite IH by done. done.
Qed.

(** When a handler of [hs] does not decline, the loop never comes to
    what follows [hs]. *)
Lemma chainLoop_stops a ctx hs post : forall i err handler w called,
  declining a ctx hs w = None ->
  chainLoop a ctx (hs ++ post) i err handler w called
  = chainLoop a ctx hs i err handler w called.
Proof.
  induction hs as [|h hs IH]; intros i err handler w called Hd; [discriminate|].
  cbn [app chainLoop]. simpl in Hd.
  destruct (Handle h (handlerContext a ctx h) w) as [e w'].
  destruct (errors_Is e ErrPass); [|done]. by apply IH.
Qed.

(** Two runs of the loop over the same handlers from the same world call
    as many handlers and leave the same world, and the same error and
    handler when there is a handler at all. *)
Lemma chainLoop_start a ctx hs : forall i j err1 err2 h1 h2 w called1 called2,
  let d1 := chainLoop a ctx hs i err1 h1 w called1 in
  let d2 := chainLoop a ctx hs j err2 h2 w called2 in
  d_world d1 = d_world d2
  /\ (hs <> [] -> d_err d1 = d_err d2 /\ d_handler d1 = d_handler d2)
  /\ exists k, d_called d1 = called1 ++ seq i k
               /\ d_called d2 = called2 ++ seq j k.
Proof.
  induction hs as [|h hs IH]; intros i j err1 err2 h1 h2 w called1 called2.
  - simpl. split; [done|]. split; [done|]. exists 0. simpl.
    by rewrite !app_nil_r.
  - cbn [chainLoop].
    destruct (Handle h (handlerContext a ctx h) w) as [e w'].
    destruct (errors_Is e ErrPass).
    + destruct (IH (S i) (S j) e e (Some h) (Some h) w'
                  (called1 ++ [i]) (called2 ++ [j])) as (Hw & He & k & Hc1 & Hc2).
      split; [exact Hw|]. split.
      * intros _. destruct hs as [|h' hs']; [done|]. by apply He.
      * exists (S k). rewrite Hc1, Hc2. simpl. by rewrite <- !app_assoc.
    + simpl. split; [done|]. split; [done|]. by exists 1.
Qed.

(** X13.  [App.Handle] puts the handler at the end of the chain.  The
    handler registered last is called when, and only when, all handlers
    registered before it decline, and in the world they leave; when one
    of them does not decline, registering one more handler changes
    nothing of the dispatch. *)
Theorem App_Handle_appends a h ctx w :
  handlers (App_Handle a h) = handlers a ++ [h]
  /\ (forall w1, declining a ctx (handlers a) w = Some w1 ->
        dispatch (App_Handle a h) ctx w
        = let '(r, w2) := Handle h (handlerContext a ctx h) w1 in
          mkDispatched r (Some h) w2 (seq 0 (S (List.length (handlers a)))))
  /\ (declining a ctx (handlers a) w = None ->
        dispatch (App_Handle a h) ctx w = dispatch a ctx w).
Proof.
  split; [done|].
  assert (Hsame : forall hs i err handler w0 called,
            chainLoop (App_Handle a h) ctx hs i err handler w0 called
            = chainLoop a ctx hs i err handler w0 called)
    by (intros; by apply chainLoop_same_logger).
  split.
  - intros w1 Hd. unfold dispatch. cbn [handlers App_Handle]. rewrite Hsame.
    destruct (chainLoop_declining a ctx (handlers a) [h] 0 None None w [] w1 Hd)
      as (err' & handler' & -> & _).
    cbn [chainLoop Nat.add app].
    destruct (Handle h (handlerContext a ctx h) w1) as [r w2].
    replace (S (List.length (handlers a))) with (List.length (handlers a) + 1)
      by lia.
    rewrite seq_app. cbn [seq Nat.add].
    by destruct (errors_Is r ErrPass).
  - intros Hd. unfold dispatch. cbn [handlers App_Handle]. rewrite Hsame.
    by apply chainLoop_stops.
Qed.

End ChainFacts.

(** ** [BaseState] *)

Section BaseStateFacts.
Context `{Transport} {Env : Type}.
Import Base.
Implicit Types (b : BaseState (Env := Env)) (ctx : Context) (env : Env).
Implicit Types (hs pre post : list (Handler Env)).

Lemma handleLoop_declining pre : forall post ctx err env env1 called,
  allDecline pre ctx env = Some env1 ->
  exists err',
    handleLoop (pre ++ post) ctx err env called
    = handleLoop post ctx err' env1 (called + List.length pre)
    /\ (pre = [] -> err' = err)
    /\ (pre <> [] -> errors_Is err' ErrPass = true).
Proof.
  induction pre as [|h pre IH]; intros post ctx err env env1 called Hd.
  - simpl in Hd. injection Hd as <-. exists err. simpl.
    rewrite Nat.add_0_r. done.
  - simpl in Hd. cbn [app handleLoop].
    destruct (Handle h ctx env) as [e env'].
    destruct (errors_Is e ErrPass) eqn:He; [|discriminate].
    destruct (IH post ctx e env' env1 (S called) Hd) as (err' & Heq & Hnil & Hcons).
    exists err'. split; [|split].
    + rewrite Heq. f_equal. simpl. lia.
    + discriminate.
    + intros _. destruct pre as [|h' pre'].
      * by rewrite (Hnil eq_refl).
      * by apply Hcons.
Qed.

(** X14.  [BaseState.Handle] goes through the handlers of the state in
    their order, all with the context it was given.  The first handler
    that does not decline ends it: its result is returned and the
    handlers after it are not called.  When all decline, the result is
    the decline of the last one, an error that is [ErrPass].  A state
    without handlers returns [nil]: it takes every update as handled. *)
Theorem BaseState_Handle_chain b ctx env :
  (Handlers b = [] -> BaseState_Handle b ctx env = (None, env))
  /\ (forall pre h post env1 r env2,
        Handlers b = pre ++ h :: post ->
        allDecline pre ctx env = Some env1 ->
        Handle h ctx env1 = (r, env2) ->
        errors_Is r ErrPass = false ->
        handleLoop (Handlers b) ctx None env 0 = (r, env2, S (List.length pre))
        /\ BaseState_Handle b ctx env = (r, env2))
  /\ (forall env1,
        Handlers b <> [] ->
        allDecline (Handlers b) ctx env = Some env1 ->
        exists e,
          handleLoop (Handlers b) ctx None env 0
          = (Some e, env1, List.length (Handlers b))
          /\ BaseState_Handle b ctx env = (Some e, env1)
          /\ errors_Is (Some e) ErrPass = true).
Proof.
  unfold BaseState_Handle. split; [|split].
  - by intros ->.
  - intros pre h post env1 r env2 Hhs Hpre Hh Hr. rewrite Hhs.
    destruct (handleLoop_declining pre (h :: post) ctx None env env1 0 Hpre)
      as (err' & -> & _).
    cbn [handleLoop]. by rewrite Hh, Hr.
  - intros env1 Hne Hall.
    destruct (handleLoop_declining (Handlers b) [] ctx None env env1 0 Hall)
      as (err' & Heq & _ & Hcons).
    rewrite app_nil_r in Heq. rewrite Heq. cbn [handleLoop].
    specialize (Hcons Hne). destruct err' as [e|]; [|discriminate].
    exists e. done.
Qed.

End BaseStateFacts.

(** ** The chat of an update *)

Section UpdateFacts.
Import Updates.

(** The decimal text of a number tells the number. *)
Lemma FormatInt_inj (i j : Z) :
  Strconv.FormatInt i = Strconv.FormatInt j -> i = j.
Proof.
  unfold Strconv.FormatInt. intros Heq.
  assert (Hnn : forall z, Z.to_int z <> Decimal.Pos Decimal.Nil
                          /\ Z.to_int z <> Decimal.Neg Decimal.Nil).
  { intros [|p|p]; simpl; split; try discriminate.
    - intros [= Hp]. by apply (DecimalPos.Unsigned.to_uint_nonnil p).
    - intros [= Hp]. by apply (DecimalPos.Unsigned.to_uint_nonnil p). }
  apply DecimalZ.to_int_inj.
  pose proof (DecimalString.NilZero.isi (Z.to_int i)
                (proj1 (Hnn i)) (proj2 (Hnn i))) as Hi.
  pose proof (DecimalString.NilZero.isi (Z.to_int j)
                (proj1 (Hnn j)) (proj2 (Hnn j))) as Hj.
  rewrite Heq in Hi. congruence.
Qed.

Lemma FormatInt_nonempty (i : Z) : Strconv.FormatInt i <> "".
Proof.
  unfold Strconv.FormatInt. destruct i as [|p|p]; simpl; try discriminate.
  destruct (Pos.to_uint p); discriminate.
Qed.

(** What [DefaultChatKeyAndID] returns, by the variables after its
    [switch]. *)
Lemma DefaultChatKeyAndID_found u key id :
  DefaultChatKeyAndID u = Ok (Some (key, id)) ->
  Telego.ID id <> 0%Z /\ key = Strconv.FormatInt (Telego.ID id).
Proof.
  unfold DefaultChatKeyAndID.
  destruct (chatAndUser u) as [[chatId user]|]; [|discriminate].
  destruct (Telego.ID chatId =? 0)%Z eqn:Hc; simpl.
  - destruct (Telego.User_ID user =? 0)%Z eqn:Hu; simpl; [discriminate|].
    intros [= <- <-]. simpl. split; [|done]. by apply Z.eqb_neq.
  - intros [= <- <-]. split; [|done]. by apply Z.eqb_neq.
Qed.

(** X15.  The chat key [DefaultChatKeyAndID] returns is the decimal text
    of the [ID] of the chat ID it returns, which is not zero; so the key
    is not empty, and two updates get the same chat key if and only if
    they get the same [ID]. *)
Theorem DefaultChatKeyAndID_key u1 u2 key1 id1 key2 id2 :
  DefaultChatKeyAndID u1 = Ok (Some (key1, id1)) ->
  DefaultChatKeyAndID u2 = Ok (Some (key2, id2)) ->
  key1 = Strconv.FormatInt (Telego.ID id1)
  /\ Telego.ID id1 <> 0%Z
  /\ key1 <> ""
  /\ (key1 = key2 <-> Telego.ID id1 = Telego.ID id2).
Proof.
  intros H1 H2.
  destruct (DefaultChatKeyAndID_found _ _ _ H1) as [Hn1 ->].
  destruct (DefaultChatKeyAndID_found _ _ _ H2) as [Hn2 ->].
  split; [done|]. split; [done|]. split; [apply FormatInt_nonempty|].
  split; [apply FormatInt_inj | by intros ->].
Qed.

(** The update has a type when one of its fields is set. *)
Lemma GetTypeOfUpdate_unknown u :
  GetTypeOfUpdate u = "<unknown>" -> chatless u = true.
Proof.
  unfold GetTypeOfUpdate, chatless.
  repeat match goal with
         | |- context [present ?p] => destruct p; cbn [present]; [discriminate|]
         | |- context [if ?b then _ else _] => destruct b; [discriminate|]
         end.
  done.
Qed.

Lemma chatless_chatAndUser u :
  chatless u = true -> chatAndUser u = Ok (noChatID, noUser).
Proof.
  unfold chatless, chatAndUser.
  repeat match goal with
         | |- context [present ?p] => destruct p; cbn [present orb negb]; [discriminate|]
         end.
  done.
Qed.

(** X16.  Every update [DefaultChatKeyAndID] finds a chat for has a type:
    [GetTypeOfUpdate] does not return ["<unknown>"] for it. *)
Theorem DefaultChatKeyAndID_known_type u key id :
  DefaultChatKeyAndID u = Ok (Some (key, id)) ->
  GetTypeOfUpdate u <> "<unknown>".
Proof.
  intros Hd Hu. apply GetTypeOfUpdate_unknown, chatless_chatAndUser in Hu.
  unfold DefaultChatKeyAndID in Hd. rewrite Hu in Hd. discriminate.
Qed.

(** X17.  An update that has none of the sixteen fields
    [DefaultChatKeyAndID] looks at (one that carries a poll, a chat
    boost, a business connection or a business message only, or nothing)
    gets no chat.  An app that extracts the chat with
    [DefaultChatKeyAndID] calls no handler for it and leaves the world as
    it is: the one thing it does is to log, at warning level, the type of
    the update. *)
Theorem chatless_update_ignored {W : Type} (a : App.App (W := W)) u (w : W) :
  chatless u = true ->
  usesDefaultChatKeyAndID a ->
  DefaultChatKeyAndID u = Ok None
  /\ App.newContext a u = None
  /\ App.processUpdate a u w
     = (w,
        [mkLog LevelWarn "nabot: could not determine context; ignoring update"
               (With (App.app_logger a) "update_type"
                     (AttrString (GetTypeOfUpdate u)))],
        []).
Proof.
  intros Hc Ha.
  assert (Hd : DefaultChatKeyAndID u = Ok None).
  { unfold DefaultChatKeyAndID. by rewrite (chatless_chatAndUser _ Hc). }
  assert (Hn : App.newContext a u = None).
  { unfold App.newContext. by rewrite (Ha _ _ Hd). }
  split; [exact Hd|]. split; [exact Hn|].
  unfold App.processUpdate. by rewrite Hn.
Qed.

End UpdateFacts.

Lemma usesDefaultChatKeyAndID_telegoApp {W : Type} (hs : list (Handler W)) :
  Updates.usesDefaultChatKeyAndID (Scenarios.telegoApp hs).
Proof.
  intros u r Hd. cbn [Scenarios.telegoApp App.extractChatInfo].
  unfold Scenarios.defaultExtractor. by rewrite Hd.
Qed.

(** A message in chat 42 and an inline query of user 42 get the same
    chat key, the text 42. *)
Lemma DefaultChatKeyAndID_key_witness :
  "42" = Strconv.FormatInt 42
  /\ (42 <> 0)%Z
  /\ "42" <> ""
  /\ ("42" = "42" <-> 42%Z = 42%Z).
Proof.
  exact (DefaultChatKeyAndID_key
           (Scenarios.textMessage 42 "hello") (Scenarios.inlineQuery 42)
           "42" (Telego.mkChatID 42 "") "42" (Telego.mkChatID 42 "")
           eq_refl eq_refl).
Defined.

(** The type of a message in chat 42 is known. *)
Lemma DefaultChatKeyAndID_known_type_witness :
  Updates.GetTypeOfUpdate (Scenarios.textMessage 42 "hello") <> "<unknown>".
Proof.
  exact (DefaultChatKeyAndID_known_type (Scenarios.textMessage 42 "hello")
           "42" (Telego.mkChatID 42 "") eq_refl).
Defined.

(** An update that carries a poll only: the counter app with the default
    extractor calls none of its handlers and logs the type "poll". *)
Lemma chatless_update_ignored_witness :
  App.processUpdate
    (Scenarios.telegoApp [mkHandler "count" (fun _ n => (None, n + 1))])
    Scenarios.pollUpdate 0
  = (0,
     [mkLog LevelWarn "nabot: could not determine context; ignoring update"
            [("update_type", AttrString "poll")]],
     []).
Proof.
  exact (proj2 (proj2 (chatless_update_ignored
           (Scenarios.telegoApp [mkHandler "count" (fun _ n => (None, n + 1))])
           Scenarios.pollUpdate 0 eq_refl
           (usesDefaultChatKeyAndID_telegoApp _)))).
Defined.

(** ** Data of conversations *)

Section DataIsolation.
Context `{Transport} `{Reflect}.
Import Data.
Implicit Types (m : memoryStore) (c : Context) (key : DataKey).

(** [Get] depends on the store through the value held for the key of the
    conversation only. *)
Lemma Get_storedValue m m' c key :
  storedValue m' (chatKey c) (key_name key)
  = storedValue m (chatKey c) (key_name key) ->
  Get c key m' = Get c key m.
Proof.
  intros Hs. unfold Get. cbn [GetData memoryDataStorage].
  by rewrite !GetData_storedValue, Hs.
Qed.

Lemma eqb_false_or (a a' b b' : string) :
  a' <> a \/ b' <> b -> String.eqb a a' && String.eqb b b' = false.
Proof.
  intros [Hne|Hne].
  - destruct (String.eqb_spec a a'); [congruence | done].
  - destruct (String.eqb_spec b b'); [congruence|]. apply andb_false_r.
Qed.

(** X18.  In the in-memory store the data of a conversation is its own:
    [Set] and [Remove] of a key in a conversation leave what [Get]
    returns for every other key and for every key of every other
    conversation, and [Clear] of a conversation leaves what [Get] returns
    in every other conversation. *)
Theorem data_isolation m c key value c' key' :
  (chatKey c' <> chatKey c \/ key_name key' <> key_name key ->
     Get c' key' (Set_ c key value m).2 = Get c' key' m
     /\ Get c' key' (Remove c key m).2 = Get c' key' m)
  /\ (chatKey c' <> chatKey c ->
      Get c' key' (Clear c m).2 = Get c' key' m).
Proof.
  split.
  - intros Hne. split; apply Get_storedValue.
    + rewrite Set_memory. cbn [snd]. rewrite storedValue_SetData.
      by rewrite eqb_false_or.
    + rewrite Remove_memory. cbn [snd]. rewrite storedValue_RemoveData.
      by rewrite eqb_false_or.
  - intros Hne. apply Get_storedValue.
    rewrite Clear_memory. cbn [snd]. rewrite storedValue_ClearData.
    destruct (String.eqb_spec (chatKey c) (chatKey c')); [congruence | done].
Qed.

(** X19.  [Remove] and [Clear] on the in-memory store never fail, also
    for a key or a conversation the store holds nothing for, and then
    they change nothing of what [Get] returns, for any key of any
    conversation; done twice they leave what they leave done once. *)
Theorem Remove_Clear_absent m c key c' key' :
  (Remove c key m).1 = None
  /\ (Clear c m).1 = None
  /\ (storedValue m (chatKey c) (key_name key) = None ->
      Get c' key' (Remove c key m).2 = Get c' key' m)
  /\ ((forall k, storedValue m (chatKey c) k = None) ->
      Get c' key' (Clear c m).2 = Get c' key' m)
  /\ Get c' key' (Remove c key (Remove c key m).2).2
     = Get c' key' (Remove c key m).2
  /\ Get c' key' (Clear c (Clear c m).2).2 = Get c' key' (Clear c m).2.
Proof.
  rewrite !Remove_memory, !Clear_memory. cbn [fst snd].
  split; [done|]. split; [done|].
  split; [|split; [|split]].
  - intros Habs. apply Get_storedValue. rewrite storedValue_RemoveData.
    destruct (String.eqb_spec (chatKey c) (chatKey c')) as [Hc|Hc];
      [|done].
    destruct (String.eqb_spec (key_name key) (key_name key')) as [Hk|Hk];
      [|done].
    simpl. by rewrite <- Hc, <- Hk, Habs.
  - intros Habs. apply Get_storedValue. rewrite storedValue_ClearData.
    destruct (String.eqb_spec (chatKey c) (chatKey c')) as [Hc|Hc]; [|done].
    by rewrite <- Hc, Habs.
  - apply Get_storedValue. rewrite !storedValue_RemoveData.
    by destruct (_ && _).
  - apply Get_storedValue. rewrite !storedValue_ClearData.
    by destruct (String.eqb _ _).
Qed.

End DataIsolation.

Section DataErrors.
Context `{Transport} `{Reflect} {D : Type} `{Data.DataStorage D}.
Import Data.
Implicit Types (d : D) (c : Context) (key : DataKey).

(** X20.  [Set], [Get], [Remove] and [Clear] over any data storage: they
    return an error exactly when the storage returns one, [errors.Is]
    finds in it what it finds in the error of the storage, and the
    storage is left as the call of the storage left it.  [Get] returns
    the error of the storage itself, not wrapped, when that error is
    [ErrDataKeyNotFound]; and a panic of [GetData] is a panic of
    [Get]. *)
Theorem data_errors_wrapped c key value d target :
  ((Set_ c key value d).2 = (SetData d (chatKey c) (key_name key) value).2
   /\ ((Set_ c key value d).1 = None
       <-> (SetData d (chatKey c) (key_name key) value).1 = None)
   /\ errors_Is (Set_ c key value d).1 target
      = errors_Is (SetData d (chatKey c) (key_name key) value).1 target)
  /\ ((Remove c key d).2 = (RemoveData d (chatKey c) (key_name key)).2
      /\ ((Remove c key d).1 = None
          <-> (RemoveData d (chatKey c) (key_name key)).1 = None)
      /\ errors_Is (Remove c key d).1 target
         = errors_Is (RemoveData d (chatKey c) (key_name key)).1 target)
  /\ ((Clear c d).2 = (ClearData d (chatKey c)).2
      /\ ((Clear c d).1 = None <-> (ClearData d (chatKey c)).1 = None)
      /\ errors_Is (Clear c d).1 target
         = errors_Is (ClearData d (chatKey c)).1 target)
  /\ (forall err result,
        GetData d (chatKey c) (key_name key) (key_type key) = Ok (err, result) ->
        exists err',
          Get c key d = Ok (result, err')
          /\ (err' = None <-> err = None)
          /\ errors_Is err' target = errors_Is err target
          /\ (errors_Is err ErrDataKeyNotFound = true -> err' = err))
  /\ (forall msg args,
        GetData d (chatKey c) (key_name key) (key_type key) = Panic msg args ->
        Get c key d = Panic msg args).
Proof.
  split; [|split; [|split; [|split]]].
  - unfold Set_. destruct (SetData d (chatKey c) (key_name key) value) as [[e|] d'];
      cbn [fst snd]; repeat split; try done; discriminate.
  - unfold Remove. destruct (RemoveData d (chatKey c) (key_name key)) as [[e|] d'];
      cbn [fst snd]; repeat split; try done; discriminate.
  - unfold Clear. destruct (ClearData d (chatKey c)) as [[e|] d'];
      cbn [fst snd]; repeat split; try done; discriminate.
  - intros err result Hg. unfold Get. rewrite Hg.
    destruct err as [e|].
    + destruct (errors_Is (Some e) ErrDataKeyNotFound) eqn:Hnf.
      * exists (Some e). done.
      * exists (Some (wrapError "failed to get data: " e)).
        repeat split; try done; discriminate.
    + exists None. done.
  - intros msg args Hg. unfold Get. by rewrite Hg.
Qed.

End DataErrors.

(** In the quiz bot: the category of chat 42 is not seen from chat 7. *)
Lemma data_isolation_witness :
  Data.Get (Data.contextOf Examples.someContext "7") Examples.categoryDataKey
    (Data.Set_ Examples.someContext Examples.categoryDataKey
       (Some (Examples.VString "math")) Data.NewInMemoryDataStore).2
  = Data.Get (Data.contextOf Examples.someContext "7") Examples.categoryDataKey
      Data.NewInMemoryDataStore.
Proof.
  refine (proj1 (proj1 (data_isolation Data.NewInMemoryDataStore
            Examples.someContext Examples.categoryDataKey
            (Some (Examples.VString "math"))
            (Data.contextOf Examples.someContext "7")
            Examples.categoryDataKey) _)).
  left. discriminate.
Defined.

(** ** Strings *)

Section StringFacts.
Import Strings.

Lemma HasPrefix_app (p rest : string) : HasPrefix (p +:+ rest) p = true.
Proof.
  unfold HasPrefix. induction p as [|a p IH]; simpl.
  - by destruct rest.
  - destruct (ascii_dec a a); [exact IH | done].
Qed.

Lemma sliceFrom_app (p rest : string) :
  sliceFrom (String.length p) (p +:+ rest) = rest.
Proof. induction p as [|a p IH]; [done | exact IH]. Qed.

Lemma CutPrefix_app (p rest : string) : CutPrefix (p +:+ rest) p = (rest, true).
Proof. unfold CutPrefix. by rewrite HasPrefix_app, sliceFrom_app. Qed.

Lemma HasPrefix_inv (s p : string) :
  HasPrefix s p = true -> exists rest, s = p +:+ rest.
Proof.
  unfold HasPrefix. revert s. induction p as [|a p IH]; intros s; simpl.
  - exists s. done.
  - destruct s as [|b s]; simpl; [discriminate|].
    destruct (ascii_dec a b) as [->|]; [|discriminate].
    intros Hp. destruct (IH s Hp) as [rest ->]. by exists rest.
Qed.

Lemma append_assoc (a b c : string) : (a +:+ b) +:+ c = a +:+ (b +:+ c).
Proof.
  induction a as [|x a IH]; [done|].
  change (String x ((a +:+ b) +:+ c) = String x (a +:+ (b +:+ c))).
  by rewrite IH.
Qed.

Lemma length_append (a b : string) :
  String.length (a +:+ b) = String.length a + String.length b.
Proof.
  induction a as [|x a IH]; [done|].
  change (S (String.length (a +:+ b)) = S (String.length a + String.length b)).
  by rewrite IH.
Qed.

(** The text from a position on, of as many bytes as a string has, is the
    string exactly when the text is made of a text of that length, the
    string and a rest. *)
Lemma substring_occurrence (t : string) : forall (n : nat) (s : string),
  t <> "" ->
  substring n (String.length t) s = t ->
  exists pre,
    String.length pre = n
    /\ s = pre +:+ t +:+ sliceFrom (n + String.length t) s.
Proof.
  intros n. induction n as [|n IH]; intros s Hne Hs.
  - exists "". split; [done|]. simpl.
    apply prefix_correct in Hs. apply HasPrefix_inv in Hs as [rest ->].
    by rewrite sliceFrom_app.
  - destruct s as [|a s].
    + simpl in Hs. destruct t; [done | discriminate].
    + simpl in Hs. destruct (IH s Hne Hs) as (pre & Hlen & Heq).
      exists (String a pre). split; [simpl; by rewrite Hlen|].
      change (String a s
              = String a (pre +:+ t +:+ sliceFrom (n + String.length t) s)).
      by rewrite <- Heq.
Qed.

Lemma substring_app (pre t post : string) :
  substring (String.length pre) (String.length t) (pre +:+ t +:+ post) = t.
Proof.
  induction pre as [|a pre IH]; simpl; [|exact IH].
  apply prefix_correct. apply (HasPrefix_app t post).
Qed.

(** [Index] finds the first occurrence, when there is one. *)
Lemma Index_Some (s t : string) idx :
  t <> "" ->
  Index s t = Some idx ->
  exists pre,
    String.length pre = idx
    /\ s = pre +:+ t +:+ sliceFrom (idx + String.length t) s
    /\ forall pre' post', s = pre' +:+ t +:+ post' -> idx <= String.length pre'.
Proof.
  unfold Index. intros Hne Hi.
  destruct (substring_occurrence t idx s Hne (index_correct1 _ _ _ _ Hi))
    as (pre & Hlen & Heq).
  exists pre. split; [exact Hlen|]. split; [exact Heq|].
  intros pre' post' Hs.
  destruct (le_lt_dec idx (String.length pre')) as [Hle|Hlt]; [exact Hle|].
  exfalso. apply (index_correct2 _ _ _ _ Hi (String.length pre')); [lia | exact Hlt|].
  rewrite Hs. apply substring_app.
Qed.

Lemma Index_None (s t : string) :
  t <> "" ->
  Index s t = None ->
  forall pre post, s <> pre +:+ t +:+ post.
Proof.
  unfold Index. intros Hne Hi pre post Hs.
  apply (index_correct3 _ (String.length pre) _ _ Hi Hne); [lia|].
  rewrite Hs. apply substring_app.
Qed.

(** A string that ends where another goes on with a byte it does not
    hold: with the byte after both, one is a prefix of the other only
    when they are the same. *)
Lemma without_prefix (a : ascii) (x y rest : string) :
  without a x = true -> without a y = true ->
  HasPrefix (y +:+ String a rest) (x +:+ String a "") = true ->
  x = y.
Proof.
  unfold HasPrefix. revert y. induction x as [|b x IH]; intros y Hx Hy; simpl.
  - destruct y as [|c y]; [done|]. simpl in *.
    destruct (ascii_dec a c) as [->|]; [|discriminate].
    rewrite Ascii.eqb_refl in Hy. discriminate.
  - destruct y as [|c y]; simpl in *.
    + destruct (ascii_dec b a) as [->|]; [|discriminate].
      rewrite Ascii.eqb_refl in Hx. discriminate.
    + destruct (ascii_dec b c) as [->|]; [|discriminate].
      apply andb_true_iff in Hx as [_ Hx]. apply andb_true_iff in Hy as [_ Hy].
      intros Hp. by rewrite (IH y Hx Hy Hp).
Qed.

End StringFacts.

(** ** The package [handlers] *)

Section HandlersFacts.
Import Updates Handlers.
Context {W : Type}.
Implicit Types (ctx : Context) (w : W) (rest : list (Handler W)).

(** X21.  A [Filter] at the head of the chain is a gate.  When its
    function returns false, its [Handle] returns [nil]: the chain ends
    there, no handler after it is called and nothing is logged.  When
    the function returns true, the filter declines and the update is
    dispatched to the handlers after it as if the filter were not there,
    from the world the function left; with no handler after it, the
    update is not handled. *)
Theorem Filter_gate (l : Logger) extract (f : Context -> W -> bool * W) rest
    ctx w :
  let a := App.mkApp (Filter f :: rest) l extract in
  let a' := App.mkApp rest l extract in
  (forall w', f (App.handlerContext a ctx (Filter f)) w = (false, w') ->
     App.dispatch a ctx w = App.mkDispatched None (Some (Filter f)) w' [0]
     /\ App.reportOutcome a (App.dispatch a ctx w) = [])
  /\ (forall w', f (App.handlerContext a ctx (Filter f)) w = (true, w') ->
      let d := App.dispatch a ctx w in
      let d' := App.dispatch a' ctx w' in
      App.d_world d = App.d_world d'
      /\ App.d_called d = 0 :: map S (App.d_called d')
      /\ (rest <> [] ->
          App.d_err d = App.d_err d'
          /\ App.d_handler d = App.d_handler d'
          /\ App.reportOutcome a d = App.reportOutcome a' d')
      /\ (rest = [] -> App.d_err d = Some ErrPass)).
Proof.
  intros a a'. split.
  - intros w' Hf. unfold App.dispatch. cbn [App.handlers a App.chainLoop].
    cbn [Handle Filter]. unfold Filter_Handle. rewrite Hf. cbn [errors_Is].
    split; [done|]. reflexivity.
  - intros w' Hf d d'.
    assert (Hd : d = App.chainLoop a' ctx rest 1 (Some ErrPass)
                       (Some (Filter f)) w' [0]).
    { unfold d, App.dispatch. cbn [App.handlers a App.chainLoop].
      cbn [Handle Filter]. unfold Filter_Handle. rewrite Hf.
      cbn [errors_Is Is_chain is_sentinel orb app].
      by apply chainLoop_same_logger. }
    destruct (chainLoop_start a' ctx rest 1 0 (Some ErrPass) None
                (Some (Filter f)) None w' [0] [])
      as (Hw & He & k & Hc1 & Hc2).
    rewrite <- Hd in Hw, He, Hc1.
    change (App.chainLoop a' ctx rest 0 None None w' []) with d' in Hw, He, Hc2.
    split; [exact Hw|]. split; [|split].
    + rewrite Hc1, Hc2. cbn [app]. by rewrite seq_shift.
    + intros Hne. destruct (He Hne) as [Herr Hh].
      split; [exact Herr|]. split; [exact Hh|].
      unfold App.reportOutcome. by rewrite Herr, Hh.
    + intros ->. by rewrite Hd.
Qed.

Lemma Command_Name_HasPrefix (c : Command (W := W)) :
  Strings.HasPrefix (Command_Name c) "/" = true.
Proof.
  unfold Command_Name.
  destruct (Strings.HasPrefix (Command_Command c) "/") eqn:Hp; [exact Hp|].
  apply (HasPrefix_app "/").
Qed.

Lemma Command_Name_nonempty (c : Command (W := W)) : Command_Name c <> "".
Proof.
  intros Hn. pose proof (Command_Name_HasPrefix c) as Hs.
  rewrite Hn in Hs. discriminate.
Qed.

(** X22.  The name of a command begins with a slash, whether the field
    [Command] has it or not: it is the field with a slash before it when
    the field has none, so a command given as "start" and one given as
    "/start" have the same name, and naming is idempotent. *)
Theorem Command_Name_slash (c : Command (W := W)) :
  Strings.HasPrefix (Command_Name c) "/" = true
  /\ Command_Name c <> ""
  /\ Command_Name
       (mkCommand (Command_Name c) (Command_HandleFunc c) (Separator c))
     = Command_Name c
  /\ (Strings.HasPrefix (Command_Command c) "/" = false ->
      Command_Name c = "/" +:+ Command_Command c
      /\ Command_Name
           (mkCommand ("/" +:+ Command_Command c) (Command_HandleFunc c)
              (Separator c))
         = Command_Name c).
Proof.
  pose proof (Command_Name_HasPrefix c) as Hs.
  split; [exact Hs|]. split; [|split].
  - apply Command_Name_nonempty.
  - unfold Command_Name at 1. cbn [Command_Command]. by rewrite Hs.
  - intros Hp. unfold Command_Name. cbn [Command_Command]. rewrite Hp.
    split; [done|]. by rewrite (HasPrefix_app "/").
Qed.

(** X23.  [Command.Handle] looks for the name of the command anywhere in
    the text of the message.  It declines when the update has no message
    and when the text does not hold the name.  When the text holds it,
    the function of the command is called, never declined for, with the
    fields of what follows the first occurrence of the name, or, when
    the command has a separator, with what the separator makes of the
    name and the whole text. *)
Theorem Command_Handle_occurrence (c : Command (W := W)) ctx w :
  (Telego.Update_Message (update ctx) = None ->
     Command_Handle c ctx w = (Some ErrPass, w))
  /\ forall msg,
       Telego.Update_Message (update ctx) = Some msg ->
       let cmd := Command_Name c in
       let text := Telego.Message_Text msg in
       ((forall pre post, text <> pre +:+ cmd +:+ post) ->
          Command_Handle c ctx w = (Some ErrPass, w))
       /\ (forall pre post,
             text = pre +:+ cmd +:+ post ->
             (forall pre' post', text = pre' +:+ cmd +:+ post' ->
                String.length pre <= String.length pre') ->
             Command_Handle c ctx w
             = Command_HandleFunc c ctx
                 (match Separator c with
                  | Some separator => separator cmd text
                  | None => Strings.Fields post
                  end) w).
Proof.
  pose proof (Command_Name_nonempty c) as Hne.
  split.
  - intros Hm. unfold Command_Handle. by rewrite Hm.
  - intros msg Hm cmd text. unfold Command_Handle. rewrite Hm.
    fold cmd. fold text. split.
    + intros Hnone.
      destruct (Strings.Index text cmd) as [idx|] eqn:Hi; [|done].
      destruct (Index_Some _ _ _ Hne Hi) as (pre & _ & Heq & _).
      destruct (Hnone _ _ Heq).
    + intros pre post Htext Hfirst.
      destruct (Strings.Index text cmd) as [idx|] eqn:Hi.
      * destruct (Index_Some _ _ _ Hne Hi) as (pre0 & Hlen & Heq & Hmin).
        assert (Hidx : idx = String.length pre).
        { pose proof (Hmin _ _ Htext). pose proof (Hfirst _ _ Heq). lia. }
        assert (Hpost : Strings.sliceFrom (idx + String.length cmd) text = post).
        { rewrite Hidx, Htext. rewrite <- length_append, <- append_assoc.
          apply sliceFrom_app. }
        by rewrite Hpost.
      * destruct (Index_None _ _ Hne Hi _ _ Htext).
Qed.

(** X24.  An inline button takes its own presses.  For a callback query
    whose data is what [CallbackData] makes of some data, which is what
    [Button] and [ButtonWithText] put in the button, [Handle] calls the
    function of the button with that data.  It declines an update that
    has no callback query. *)
Theorem InlineButton_round_trip (i : InlineButton (W := W)) data text ctx w :
  Telego.InlineKeyboardButton_CallbackData (ButtonWithText i text data)
  = CallbackData i data
  /\ Telego.InlineKeyboardButton_CallbackData (InlineButton_Button i data)
     = CallbackData i data
  /\ (forall q,
        Telego.Update_CallbackQuery (update ctx) = Some q ->
        Telego.CallbackQuery_Data q = CallbackData i data ->
        InlineButton_Handle i ctx w = InlineButton_HandleFunc i ctx data w)
  /\ (Telego.Update_CallbackQuery (update ctx) = None ->
      InlineButton_Handle i ctx w = (Some ErrPass, w)).
Proof.
  split; [done|]. split; [done|]. split.
  - intros q Hq Hd. unfold InlineButton_Handle. rewrite Hq, Hd.
    unfold CallbackData. by rewrite CutPrefix_app.
  - intros Hq. unfold InlineButton_Handle. by rewrite Hq.
Qed.

(** X25.  Inline buttons do not take each other's presses: of two
    buttons whose IDs hold no backslash and are not the same, each
    declines every callback query made for the other. *)
Theorem InlineButton_separation (i j : InlineButton (W := W)) data ctx w q :
  Strings.without "\" (InlineButton_ID i) = true ->
  Strings.without "\" (InlineButton_ID j) = true ->
  InlineButton_ID i <> InlineButton_ID j ->
  Telego.Update_CallbackQuery (update ctx) = Some q ->
  Telego.CallbackQuery_Data q = CallbackData j data ->
  InlineButton_Handle i ctx w = (Some ErrPass, w).
Proof.
  intros Hi Hj Hne Hq Hd. unfold InlineButton_Handle. rewrite Hq, Hd.
  unfold Strings.CutPrefix.
  destruct (Strings.HasPrefix (CallbackData j data)
              (InlineButton_ID i +:+ callbackDataSeparator)) eqn:Hp; [|done].
  exfalso. apply Hne. apply (without_prefix "\" _ _ data Hi Hj).
  unfold CallbackData in Hp. rewrite append_assoc in Hp. exact Hp.
Qed.

End HandlersFacts.

(** The counter app with a declining handler, and one more handler
    registered: the new handler is called second. *)
Lemma App_Handle_appends_witness :
  App.dispatch
    (App.App_Handle (Examples.counterApp [Examples.declineHandler])
       Examples.acceptHandler)
    Examples.someContext 0
  = App.mkDispatched None (Some Examples.acceptHandler) 101 [0; 1].
Proof.
  exact (proj1 (proj2 (App_Handle_appends
           (Examples.counterApp [Examples.declineHandler])
           Examples.acceptHandler Examples.someContext 0)) 1 eq_refl).
Defined.

(** The state of the quiz on the message "Paris": the two buttons
    decline, the text handler takes it. *)
Lemma BaseState_Handle_chain_witness :
  Base.BaseState_Handle Scenarios.quizBase
    (Scenarios.contextOf (Scenarios.textMessage 42 "Paris") 42) []
  = (None, ["you chose Paris"]).
Proof.
  exact (proj2 (proj1 (proj2 (BaseState_Handle_chain Scenarios.quizBase
           (Scenarios.contextOf (Scenarios.textMessage 42 "Paris") 42) []))
         [Handlers.KeyboardButtonHandler Scenarios.againButton;
          Handlers.KeyboardButtonHandler Scenarios.backButton]
         (Handlers.TextHandler Scenarios.chosenOption) [] [] None
         ["you chose Paris"] eq_refl eq_refl eq_refl eq_refl)).
Defined.

(** An update of chat 7 stops at the filter for chat 42. *)
Lemma Filter_gate_witness :
  App.dispatch
    (App.mkApp
       [Scenarios.onlyChat42; Handlers.TextHandler Scenarios.chosenOption]
       [] Scenarios.defaultExtractor)
    (Scenarios.contextOf (Scenarios.textMessage 7 "Paris") 7) []
  = App.mkDispatched None (Some Scenarios.onlyChat42) [] [0].
Proof.
  exact (proj1 (proj1 (Filter_gate [] Scenarios.defaultExtractor
           (fun ctx sent => (String.eqb (chatKey ctx) "42", sent))
           [Handlers.TextHandler Scenarios.chosenOption]
           (Scenarios.contextOf (Scenarios.textMessage 7 "Paris") 7) [])
         [] eq_refl)).
Defined.

(** The text "/start 1 2 3": the command "start" gets the arguments 1, 2
    and 3. *)
Lemma Command_Handle_occurrence_witness :
  Handlers.Command_Handle Scenarios.startCommand
    (Scenarios.contextOf (Scenarios.textMessage 42 "/start 1 2 3") 42) []
  = (None, ["1"; "2"; "3"]).
Proof.
  refine (proj2 (proj2 (Command_Handle_occurrence Scenarios.startCommand
            (Scenarios.contextOf (Scenarios.textMessage 42 "/start 1 2 3") 42)
            [])
          (Telego.mkMessage (Telego.mkChat 42) "/start 1 2 3" None) eq_refl)
          "" " 1 2 3" eq_refl _).
  intros pre' post' _. simpl. lia.
Defined.

(** A press on the button made for the category "math". *)
Lemma InlineButton_round_trip_witness :
  Handlers.InlineButton_Handle Scenarios.categoryButton
    (Scenarios.contextOf
       (Scenarios.buttonPress 42
          (Telego.InlineKeyboardButton_CallbackData
             (Handlers.InlineButton_Button Scenarios.categoryButton "math")))
       42) []
  = (None, ["category math"]).
Proof.
  exact (proj1 (proj2 (proj2 (InlineButton_round_trip Scenarios.categoryButton
           "math" ""
           (Scenarios.contextOf
              (Scenarios.buttonPress 42
                 (Telego.InlineKeyboardButton_CallbackData
                    (Handlers.InlineButton_Button Scenarios.categoryButton
                       "math")))
              42) [])))
         (Telego.mkCallbackQuery (Some (Telego.mkChat 42))
            (Handlers.CallbackData Scenarios.categoryButton "math"))
         eq_refl eq_refl).
Defined.

(** The button "category" declines a press on the button "answer". *)
Lemma InlineButton_separation_witness :
  Handlers.InlineButton_Handle Scenarios.categoryButton
    (Scenarios.contextOf
       (Scenarios.buttonPress 42
          (Handlers.CallbackData Scenarios.answerButton "2"))
       42) []
  = (Some ErrPass, []).
Proof.
  refine (InlineButton_separation Scenarios.categoryButton
            Scenarios.answerButton "2"
            (Scenarios.contextOf
               (Scenarios.buttonPress 42
                  (Handlers.CallbackData Scenarios.answerButton "2"))
               42) []
            (Telego.mkCallbackQuery (Some (Telego.mkChat 42))
               (Handlers.CallbackData Scenarios.answerButton "2"))
            eq_refl eq_refl _ eq_refl eq_refl).
  discriminate.
Defined.

(** ** More on the stack that is stored *)

(** The stack main, ghost, quiz, of which "ghost" is not registered, is
    read back as main, quiz. *)
Lemma setStack_filters_unregistered_witness :
  State.getStack Examples.quizHandler "42"
    (State.setStack Examples.quizHandler "42"
       (Some [Examples.mainState; Scenarios.ghostState; Examples.quizState])
       State.NewInMemoryStateStore).1.2
  = (Some [Examples.mainState; Examples.quizState], None, []).
Proof.
  exact (proj2 (proj2 (setStack_filters_unregistered Examples.quizHandler "42"
           State.NewInMemoryStateStore
           (Some [Examples.mainState; Scenarios.ghostState; Examples.quizState])
           names_valid_quizHandler))).
Defined.

Section CorruptedStack.
Context `{Transport} {Env : Type}.
Import State.
Implicit Types (s : StateHandler (Env := Env)) (ctx : Context).
Implicit Types (w : World (Store := memoryStateStore) (Env := Env)).

(** X26.  On the in-memory storage, a blob that is no JSON array of
    strings stays where it is until a transition to a state: [back.Go]
    and [StateHandler.Handle] log the failure, store nothing and return
    [nil] and [ErrPass], so every update of the conversation logs it
    again; [toState(dest).Go] for a registered state logs it, stores over
    the blob what [json.Marshal] writes for the one name of [dest], and
    renders [dest]; and when that name is valid UTF-8, the stack read
    afterwards is the stack of [dest] alone. *)
Theorem corrupted_stack s ctx w blob :
  storage w !! chatKey ctx = Some blob ->
  Json.Unmarshal blob = None ->
  let record :=
    EvLog (mkLog LevelError
             "failed to unmarshal stored stack. skipping state handler"
             (With (sh_logger s) "error" AttrJSONError)) in
  Go back s ctx w = (None, w, [record])
  /\ StateHandler_Handle s ctx w = Ok (Some ErrPass, w, [record])
  /\ forall dest, registered s dest ->
       let blob' := Json.Marshal [StateName dest] in
       Go (toState dest) s ctx w
       = (let '(r, env') := Render dest ctx (env w) in
          (r, mkWorld (<[chatKey ctx := blob']> (storage w)) env',
           [record; EvSetStack (chatKey ctx) blob'; EvRender dest]))
       /\ (Json.ValidString (StateName dest) = true ->
           getStack s (chatKey ctx)
             (storage (Go (toState dest) s ctx w).1.2)
           = (Some [dest], None, [])).
Proof.
  intros Hl Hbad record.
  assert (Hg : getStack s (chatKey ctx) (storage w) = (None, None, [record])).
  { rewrite getStack_cases. cbn [GetStack memoryStateStorage].
    rewrite Hl. cbn [errors_Is]. by rewrite Hbad. }
  split; [|split].
  - simpl. unfold back_Go. by rewrite Hg.
  - unfold StateHandler_Handle. by rewrite Hg.
  - intros dest Hd blob'.
    assert (Hgo : Go (toState dest) s ctx w
                  = (let '(r, env') := Render dest ctx (env w) in
                     (r, mkWorld (<[chatKey ctx := blob']> (storage w)) env',
                      [record; EvSetStack (chatKey ctx) blob';
                       EvRender dest]))).
    { simpl. unfold toState_Go. rewrite Hg.
      cbn [elems IndexFunc app]. rewrite setStack_memory.
      cbn [elems knownNames omap list_omap].
      pose proof Hd as Hd'. unfold registered in Hd'.
      rewrite Hd'. cbn [omap list_omap]. fold blob'.
      by destruct (Render dest ctx (env w)). }
    split; [exact Hgo|].
    intros Hv. rewrite Hgo.
    destruct (Render dest ctx (env w)) as [r env']. cbn [fst snd storage].
    apply (getStack_stored_valid s (chatKey ctx) (storage w) [dest]);
      by repeat constructor.
Qed.

End CorruptedStack.

(** The blob of chat 42 is an opening brace: going back changes nothing. *)
Lemma corrupted_stack_witness :
  State.Go State.back Examples.quizHandler Examples.someContext
    (State.mkWorld (<["42" := [x7b]]> State.NewInMemoryStateStore) [])
  = (None,
     State.mkWorld (<["42" := [x7b]]> State.NewInMemoryStateStore) [],
     [State.EvLog
        (mkLog LevelError
           "failed to unmarshal stored stack. skipping state handler"
           [("error", AttrJSONError)])]).
Proof.
  exact (proj1 (corrupted_stack Examples.quizHandler Examples.someContext
           (State.mkWorld (<["42" := [x7b]]> State.NewInMemoryStateStore) [])
           [x7b] eq_refl eq_refl)).
Defined.

(** ** The logger of a handler *)

Section HandlerLogger.
Context `{Transport} {W : Type}.
Import App.
Implicit Types (a : App.App (W := W)) (ctx : Context) (w : W).

(** X27.  The logger of the context a handler of the chain is called
    with is the logger of the app with the name of the handler, not the
    logger of the context [newContext] made: the dispatch is the same
    whatever logger that context has, so the attribute "chat" that
    [newContext] adds reaches no handler. *)
Theorem dispatch_ignores_context_logger a ctx w :
  (forall h,
     logger (handlerContext a ctx h)
     = With (app_logger a) "handler" (AttrString (Name h)))
  /\ (forall l, dispatch a (ContextWithLogger ctx l) w = dispatch a ctx w)
  /\ (forall u ctx0,
        newContext a u = Some ctx0 ->
        exists id,
          logger ctx0 = With (app_logger a) "chat" (AttrString (ChatID_String id))
          /\ forall l, processUpdate a u w
                       = let d := dispatch a (ContextWithLogger ctx0 l) w in
                         (d_world d, reportOutcome a d, d_called d)).
Proof.
  assert (Hloop : forall l hs i err handler w0 called,
            chainLoop a (ContextWithLogger ctx l) hs i err handler w0 called
            = chainLoop a ctx hs i err handler w0 called).
  { intros l hs. induction hs as [|h hs IH]; intros i err handler w0 called;
      [done|].
    cbn [chainLoop].
    change (handlerContext a (ContextWithLogger ctx l) h)
      with (handlerContext a ctx h).
    destruct (Handle h (handlerContext a ctx h) w0) as [e w'].
    by rewrite IH. }
  split; [done|]. split; [intros l; apply Hloop|].
  intros u ctx0 Hn. unfold newContext in Hn.
  destruct (extractChatInfo a u) as [[key id]|] eqn:He; [|discriminate].
  injection Hn as <-. exists id. split; [done|].
  intros l. unfold processUpdate, newContext. rewrite He.
  unfold dispatch.
  assert (Hloop0 : forall c hs i err handler w0 called,
            chainLoop a (ContextWithLogger c l) hs i err handler w0 called
            = chainLoop a c hs i err handler w0 called).
  { intros c hs. induction hs as [|h hs IH]; intros i err handler w0 called;
      [done|].
    cbn [chainLoop].
    change (handlerContext a (ContextWithLogger c l) h)
      with (handlerContext a c h).
    destruct (Handle h (handlerContext a c h) w0) as [e w'].
    by rewrite IH. }
  by rewrite Hloop0.
Qed.

End HandlerLogger.

(** ** A callback query without a message *)

(** X28.  [DefaultChatKeyAndID] on a callback query whose field [Message]
    is [nil], in an update without a message: the call of [GetChat] on
    the [nil] interface value panics. *)
Theorem DefaultChatKeyAndID_callback_without_message u q :
  Telego.Update_Message u = None ->
  Telego.Update_CallbackQuery u = Some q ->
  Telego.CallbackQuery_Message q = None ->
  Updates.DefaultChatKeyAndID u
  = Panic "invalid memory address or nil pointer dereference" [].
Proof.
  intros Hm Hq Hn. unfold Updates.DefaultChatKeyAndID, Updates.chatAndUser.
  by rewrite Hm, Hq, Hn.
Qed.

Lemma DefaultChatKeyAndID_callback_without_message_witness :
  Updates.DefaultChatKeyAndID (Scenarios.inlinePress "category\math")
  = Panic "invalid memory address or nil pointer dereference" [].
Proof.
  exact (DefaultChatKeyAndID_callback_without_message
           (Scenarios.inlinePress "category\math")
           (Telego.mkCallbackQuery None "category\math")
           eq_refl eq_refl eq_refl).
Defined.

(** From the stack main, quiz: two steps back leave no state. *)
Lemma back_Go_repeated_witness :
  Runs.stackOf Examples.quizHandler "42"
    (State.storage
       (Runs.run Examples.quizHandler Examples.someContext
          [State.back; State.back] (Examples.quizWorld ["main"; "quiz"] [])))
  = [].
Proof.
  exact (back_Go_repeated Examples.quizHandler Examples.someContext 2
           (Examples.quizWorld ["main"; "quiz"] [])
           registry_ok_quizHandler names_valid_quizHandler).
Defined.

(** ** A state of reply buttons and a text handler *)

Section ReplyKeyboard.
Import Updates Handlers.
Context {Env : Type}.
Implicit Types (ks pre post : list (KeyboardButton (W := Env))).
Implicit Types (t : Text (W := Env)) (ctx : Context) (env : Env).

(** Buttons decline a message that has the text of none of them, and
    every update without a message. *)
Lemma buttons_decline ks ctx env :
  match Telego.Update_Message (update ctx) with
  | Some msg =>
      Forall (fun k => KeyboardButton_Text k <> Telego.Message_Text msg) ks
  | None => True
  end ->
  Base.allDecline (KeyboardButtonHandler <$> ks) ctx env = Some env.
Proof.
  intros Hks. induction ks as [|k ks IH]; [done|].
  rewrite fmap_cons. cbn [Base.allDecline Handle KeyboardButtonHandler].
  unfold KeyboardButton_Handle.
  destruct (Telego.Update_Message (update ctx)) as [msg|] eqn:Hm.
  - apply Forall_cons in Hks as [Hk Hks].
    destruct (String.eqb_spec (Telego.Message_Text msg) (KeyboardButton_Text k));
      [congruence|].
    cbn [errors_Is Is_chain is_sentinel orb]. by apply IH.
  - cbn [errors_Is Is_chain is_sentinel orb]. by apply IH.
Qed.

(** X29.  A [BaseState] whose handlers are reply buttons followed by a
    text handler, as the state of the quiz of the example bot.  A
    message with the text of a button goes to the first such button,
    and, when the function of that button does not decline, to nothing
    else; a message with another text that is not empty goes to the
    function of the text handler, whose result is the result of the
    state; and an update without a message, or with an empty text that
    is the text of no button, is declined by the state. *)
Theorem keyboard_then_text (b : Base.BaseState (Env := Env)) ks t ctx env :
  Base.Handlers b = (KeyboardButtonHandler <$> ks) ++ [TextHandler t] ->
  (Telego.Update_Message (update ctx) = None ->
     Base.BaseState_Handle b ctx env = (Some ErrPass, env))
  /\ forall msg,
       Telego.Update_Message (update ctx) = Some msg ->
       let text := Telego.Message_Text msg in
       (Forall (fun k => KeyboardButton_Text k <> text) ks ->
          Base.BaseState_Handle b ctx env
          = if String.eqb text "" then (Some ErrPass, env)
            else Text_HandleFunc t ctx text env)
       /\ (forall pre k post,
             ks = pre ++ k :: post ->
             Forall (fun k' => KeyboardButton_Text k' <> text) pre ->
             KeyboardButton_Text k = text ->
             errors_Is (KeyboardButton_HandleFunc k ctx env).1 ErrPass = false ->
             Base.BaseState_Handle b ctx env
             = KeyboardButton_HandleFunc k ctx env).
Proof.
  intros Hhs. unfold Base.BaseState_Handle. rewrite Hhs.
  assert (Hlast : forall err called,
            (Base.handleLoop [TextHandler t] ctx err env called).1
            = Text_Handle t ctx env).
  { intros err called. cbn [Base.handleLoop Handle TextHandler].
    destruct (Text_Handle t ctx env) as [e env'].
    by destruct (errors_Is e ErrPass). }
  split.
  - intros Hm.
    destruct (handleLoop_declining (KeyboardButtonHandler <$> ks)
                [TextHandler t] ctx None env env 0) as (err' & -> & _).
    { apply buttons_decline. by rewrite Hm. }
    rewrite Hlast. unfold Text_Handle. by rewrite Hm.
  - intros msg Hm. set (text := Telego.Message_Text msg). split.
    + intros Hks.
      destruct (handleLoop_declining (KeyboardButtonHandler <$> ks)
                  [TextHandler t] ctx None env env 0) as (err' & -> & _).
      { apply buttons_decline. by rewrite Hm. }
      rewrite Hlast. unfold Text_Handle. rewrite Hm. fold text.
      by destruct (String.eqb text "").
    + intros pre k post -> Hpre Hk Hr.
      rewrite fmap_app, fmap_cons, <- app_assoc.
      change ((KeyboardButtonHandler k :: (KeyboardButtonHandler <$> post))
              ++ [TextHandler t])
        with (KeyboardButtonHandler k
              :: (KeyboardButtonHandler <$> post) ++ [TextHandler t]).
      destruct (handleLoop_declining (KeyboardButtonHandler <$> pre)
                  (KeyboardButtonHandler k
                   :: (KeyboardButtonHandler <$> post) ++ [TextHandler t])
                  ctx None env env 0) as (err' & -> & _).
      { apply buttons_decline. by rewrite Hm. }
      cbn [app Base.handleLoop Handle KeyboardButtonHandler].
      unfold KeyboardButton_Handle. rewrite Hm. fold text.
      rewrite Hk, String.eqb_refl.
      destruct (KeyboardButton_HandleFunc k ctx env) as [e env'].
      cbn [fst] in Hr. by rewrite Hr.
Qed.

End ReplyKeyboard.

(** The state of the quiz on the message "change topic": the second
    button takes it. *)
Lemma keyboard_then_text_witness :
  Base.BaseState_Handle Scenarios.quizBase
    (Scenarios.contextOf (Scenarios.textMessage 42 "change topic") 42) []
  = (None, ["topics"]).
Proof.
  refine (proj2 (proj2 (keyboard_then_text Scenarios.quizBase
            [Scenarios.againButton; Scenarios.backButton]
            Scenarios.chosenOption
            (Scenarios.contextOf (Scenarios.textMessage 42 "change topic") 42)
            [] eq_refl)
          (Telego.mkMessage (Telego.mkChat 42) "change topic" None) eq_refl)
          [Scenarios.againButton] Scenarios.backButton [] eq_refl _
          eq_refl eq_refl).
  repeat constructor. discriminate.
Defined.

(** ** What a transition does, in order *)

Section TransitionTrace.
Context `{Transport} {Store Env : Type} `{State.StateStorage Store}.
Import State.
Implicit Types (s : StateHandler (Env := Env)) (ctx : Context).
Implicit Types (w : World (Store := Store) (Env := Env)).

(** X30.  A transition, on any storage, does one of three things after
    it read the stack (which only logs).  It stops there, with the world
    as it was.  Or it calls [SetStack] once, for the chat key of the
    context, gets an error and returns it wrapped, with the world of the
    callbacks as it was.  Or it calls [SetStack] once, gets no error,
    and then calls [Render] of at most one state, once, whose result it
    returns.  So the storage is written at most once, and no state is
    rendered unless the stack was stored before. *)
Theorem Go_trace s t ctx w :
  exists log,
    Forall (fun ev => exists r, ev = EvLog r) log
    /\ (((Go t s ctx w).2 = log /\ (Go t s ctx w).1.2 = w)
        \/ (exists blob e σ',
              SetStack (storage w) (chatKey ctx) blob = (Some e, σ')
              /\ Go t s ctx w
                 = (Some (wrapError "failed to set stack: " e),
                    mkWorld σ' (env w),
                    log ++ [EvSetStack (chatKey ctx) blob]))
        \/ (exists blob σ',
              SetStack (storage w) (chatKey ctx) blob = (None, σ')
              /\ (Go t s ctx w
                  = (None, mkWorld σ' (env w),
                     log ++ [EvSetStack (chatKey ctx) blob])
                  \/ exists st,
                       Go t s ctx w
                       = let '(r, env') := Render st ctx (env w) in
                         (r, mkWorld σ' env',
                          log ++ [EvSetStack (chatKey ctx) blob;
                                  EvRender st])))).
Proof.
  destruct (getStack s (chatKey ctx) (storage w)) as [[stack err] log] eqn:Hg.
  exists log. split; [exact (getStack_log _ _ _ _ _ _ Hg)|].
  destruct t as [dest|]; simpl.
  - unfold toState_Go. rewrite Hg. destruct err as [e|]; [by left|].
    unfold setStack.
    destruct (SetStack (storage w) (chatKey ctx) _) as [[e|] σ'] eqn:Hset.
    + right. left. eauto.
    + right. right. eexists. eexists. split; [exact Hset|]. right.
      exists dest. by destruct (Render dest ctx (env w)).
  - unfold back_Go. rewrite Hg. destruct err as [e|]; [by left|].
    destruct (len stack =? 0)%nat; [by left|].
    unfold setStack.
    destruct (SetStack (storage w) (chatKey ctx) _) as [[e|] σ'] eqn:Hset.
    + right. left. eauto.
    + right. right. eexists. eexists. split; [exact Hset|].
      destruct (last _) as [top|]; [|by left].
      right. exists top. by destruct (Render top ctx (env w)).
Qed.

End TransitionTrace.
